(** * The rollup core: option normalisation, build, generate and write

    A shallow embedding of [src/rollup/index.ts] (the [rollup] entry point
    with its [generate] and [write] closures) together with the data
    declarations of [src/rollup/types.d.ts].

    - Configuration objects are JavaScript objects: finite maps from
      property names to [JsValue]s, read with [get] and tested with
      [truthy], the way the code reads them.
    - Code that throws or returns a promise lives in the state-and-error
      monad [Eff]; the observable calls to the outside (warnings, timers,
      plugin hooks, file writes) are appended to a trace.
    - The modules the file imports but which are not part of it (the
      graph, the chunks, [mergeOptions], the path helpers, ...) are the
      fields of the class [Collaborators]. *)

From stdpp Require Import base strings gmap list pretty.
From Stdlib Require Import ZArith Lia.

Set Warnings "-register-all".

(** ** JavaScript values *)

Inductive JsValue :=
  | JsUndefined
  | JsNull
  | JsBool (b : bool)
  | JsNum (n : Z)
  | JsStr (s : string)
  | JsFun (tag : string)
  | JsArr (elems : list JsValue)
  | JsObj (props : gmap string JsValue).

(** [ToBoolean]. *)
Definition truthy (v : JsValue) : bool :=
  match v with
  | JsUndefined | JsNull => false
  | JsBool b => b
  | JsNum n => negb (n =? 0)%Z
  | JsStr s => negb (String.eqb s "")
  | JsFun _ | JsArr _ | JsObj _ => true
  end.

(** [o.k] for the option names the code reads: a missing property, and any
    property of a primitive, is [undefined]. *)
Definition get (o : JsValue) (k : string) : JsValue :=
  match o with
  | JsObj props => default JsUndefined (props !! k)
  | _ => JsUndefined
  end.

(** [typeof v === 'string'] *)
Definition typeofString (v : JsValue) : bool :=
  match v with JsStr _ => true | _ => false end.

(** [v === 'lit'] for a string literal. *)
Definition strictEqStr (v : JsValue) (lit : string) : bool :=
  match v with JsStr s => String.eqb s lit | _ => false end.

(** [v === true] *)
Definition strictEqTrue (v : JsValue) : bool :=
  match v with JsBool true => true | _ => false end.

Definition isNullish (v : JsValue) : bool :=
  match v with JsUndefined | JsNull => true | _ => false end.

Definition indexed {A} (f : A -> JsValue) (l : list A) : gmap string JsValue :=
  list_to_map (imap (fun i x => (pretty i, f x)) l).

(** The own enumerable properties an object spread copies: the properties
    of an object, the indices of an array or of a string, nothing for the
    other primitives. *)
Definition ownProps (v : JsValue) : gmap string JsValue :=
  match v with
  | JsObj props => props
  | JsArr elems => indexed id elems
  | JsStr s => indexed (fun c => JsStr (String c "")) (String.list_ascii_of_string s)
  | _ => ∅
  end.

(** One step of [{ ...target, ...source }]: the properties of [source] are
    copied over those of [target]. *)
Definition assign (target : gmap string JsValue) (source : JsValue) : gmap string JsValue :=
  ownProps source ∪ target.

(** ** Errors, warnings and the trace *)

Record JsError := {
  err_code : option string;
  err_message : string;
  err_url : option string
}.

(** [new Error(message)] *)
Definition newError (msg : string) : JsError :=
  {| err_code := None; err_message := msg; err_url := None |}.

Definition typeError (msg : string) : JsError := newError msg.

Record Deprecation := { dep_old : string; dep_new : string }.

Record RollupWarning := {
  warn_code : string;
  warn_message : string;
  warn_deprecations : list Deprecation
}.

Inductive Event :=
  | EvWarn (w : RollupWarning)
  | EvTimeStart (label : string)
  | EvTimeEnd (label : string)
  | EvBuildStart (plugin : string)
  | EvGraphBuild
  | EvBuildEnd (plugin : string) (err : option JsError)
  | EvOptimizeChunks
  | EvOngenerate (plugin file : string)
  | EvGenerateBundle (plugin : string) (isWrite : bool)
  | EvWriteFile (path data : string)
  | EvWritten (path : string)
  | EvWriteFailed (path : string)
  | EvOnwrite (plugin file : string).

(** ** The monad of the orchestration code

    [Failed e] is a thrown error or a rejected promise, [Pending] a promise
    that has not settled (a file write the file system never completes). *)

Inductive Outcome (A : Type) :=
  | Fulfilled (a : A)
  | Failed (e : JsError)
  | Pending.
Arguments Fulfilled {A} a.
Arguments Failed {A} e.
Arguments Pending {A}.

Definition Eff (S A : Type) : Type := S -> Outcome A * S.
#[global] Typeclasses Opaque Eff.

#[global] Instance Eff_ret {S} : MRet (Eff S) := fun A a s => (Fulfilled a, s).
#[global] Instance Eff_bind {S} : MBind (Eff S) := fun A B f m s =>
  match m s with
  | (Fulfilled a, s') => f a s'
  | (Failed e, s') => (Failed e, s')
  | (Pending, s') => (Pending, s')
  end.

Definition throw {S A} (e : JsError) : Eff S A := fun s => (Failed e, s).
Definition gets {S A} (f : S -> A) : Eff S A := fun s => (Fulfilled (f s), s).
Definition modify {S} (f : S -> S) : Eff S unit := fun s => (Fulfilled tt, f s).
Definition settle {S A} (o : Outcome A) : Eff S A := fun s => (o, s).

(** [if (c) stmt] with no else branch. *)
Definition when {S} (c : bool) (m : Eff S unit) : Eff S unit :=
  if c then m else mret tt.

(** Modelled from the spec: [utils/error] is not part of the sources; by
    section 6 an error is a failure value carrying [{ code, message, url }],
    so [error(props)] throws an error with exactly the given properties. *)
Definition error {S A} (props : JsError) : Eff S A := throw props.

Definition dquote : string := String (Ascii.ascii_of_nat 34) "".

(** ** The data model of [types.d.ts] *)

Record SourceMap := {
  map_toString : string;
  map_toUrl : string
}.

Record RenderedModule := {
  renderedExports : list string;
  removedExports : list string;
  renderedLength : nat;
  originalLength : nat
}.

Record OutputChunk := {
  fileName : string;
  isEntry : bool;
  imports : list string;
  exports : list string;
  modules : list (string * RenderedModule);
  code : option string;
  map : option SourceMap
}.

(** [OutputAsset | OutputChunk]; an asset is the file with [isAsset: true]. *)
Inductive OutputFile :=
  | OutAsset (assetFileName : string) (source : string)
  | OutChunk (chunk : OutputChunk).

Definition fileNameOf (file : OutputFile) : string :=
  match file with
  | OutAsset assetFileName _ => assetFileName
  | OutChunk chunk => fileName chunk
  end.

(** An asset of the registry: [source] is absent when the asset was
    emitted without one, [fileName] until the asset is finalised. *)
Record Asset := {
  asset_name : string;
  asset_source : option string;
  asset_fileName : option string
}.

(** [Map<assetId, Asset>], in insertion order. *)
Definition Assets : Type := list (string * Asset).

(** ** The output bundle: a JavaScript object keyed by file name *)

Definition OutputBundle : Type := list (string * OutputFile).

(** [bundle[k] = v]: an existing property keeps its place. *)
Fixpoint bundleSet (k : string) (v : OutputFile) (bundle : OutputBundle) : OutputBundle :=
  match bundle with
  | [] => [(k, v)]
  | (k', v') :: rest =>
      if String.eqb k' k then (k, v) :: rest else (k', v') :: bundleSet k v rest
  end.

(** [bundle[k]] *)
Fixpoint bundleGet (k : string) (bundle : OutputBundle) : option OutputFile :=
  match bundle with
  | [] => None
  | (k', v') :: rest => if String.eqb k' k then Some v' else bundleGet k rest
  end.

Definition digitOf (c : Ascii.ascii) : option N :=
  let n := Ascii.N_of_ascii c in
  if ((48 <=? n) && (n <=? 57))%N then Some (n - 48)%N else None.

Fixpoint parseDigits (acc : N) (l : list Ascii.ascii) : option N :=
  match l with
  | [] => Some acc
  | c :: rest =>
      match digitOf c with
      | Some d => parseDigits (acc * 10 + d)%N rest
      | None => None
      end
  end.

(** A property name that is a canonical array index ("0", "7", "42", ...
    below 2^32 - 1); [Object.keys] lists those first, in numeric order. *)
Definition arrayIndex (k : string) : option N :=
  match String.list_ascii_of_string k with
  | [] => None
  | c :: rest =>
      if (Ascii.N_of_ascii c =? 48)%N && negb (Nat.eqb (length rest) 0) then None
      else
        match parseDigits 0 (c :: rest) with
        | Some n => if (n <? 4294967295)%N then Some n else None
        | None => None
        end
  end.

Fixpoint insertIndex (n : N) (k : string) (sorted : list (N * string)) : list (N * string) :=
  match sorted with
  | [] => [(n, k)]
  | (m, k') :: rest =>
      if (n <? m)%N then (n, k) :: sorted else (m, k') :: insertIndex n k rest
  end.

Fixpoint indexKeys (keys : list string) : list (N * string) :=
  match keys with
  | [] => []
  | k :: rest =>
      match arrayIndex k with
      | Some n => insertIndex n k (indexKeys rest)
      | None => indexKeys rest
      end
  end.

Fixpoint nameKeys (keys : list string) : list string :=
  match keys with
  | [] => []
  | k :: rest =>
      match arrayIndex k with
      | Some _ => nameKeys rest
      | None => k :: nameKeys rest
      end
  end.

(** [Object.keys(bundle)]: index-like names in ascending numeric order,
    then the other names in the order they were first assigned. *)
Definition objectKeys (bundle : OutputBundle) : list string :=
  (List.map snd (indexKeys (List.map fst bundle))) ++ nameKeys (List.map fst bundle).

(** ** Plugins *)

(** What a hook call does: return (or return a promise that fulfils),
    throw synchronously, or return a promise that rejects. *)
Inductive HookResult :=
  | HookDone
  | HookThrows (e : JsError)
  | HookRejects (e : JsError).

(** The hooks this file drives.  A hook reaches the shared state through
    its context: [buildStart] and [buildEnd] the asset registry
    ([emitAsset], [setAssetSource]); [generateBundle] the bundle of the
    call and the per-call asset map.  The [options] hook sees and replaces
    the option properties; the plugin array is kept beside them. *)
Record Plugin := {
  name : string;
  options : option (gmap string JsValue -> option (gmap string JsValue));
  buildStart : option (Assets -> HookResult * Assets);
  buildEnd : option (option JsError -> Assets -> HookResult * Assets);
  ongenerate : option (JsValue -> OutputChunk -> HookResult);
  onwrite : option (JsValue -> OutputChunk -> HookResult);
  generateBundle :
    option (JsValue -> bool -> OutputBundle * Assets -> HookResult * (OutputBundle * Assets))
}.

(** The [plugins] option as configured: absent, one plugin, or an array. *)
Inductive PluginsValue :=
  | PluginsAbsent
  | PluginsOne (p : Plugin)
  | PluginsMany (ps : list Plugin).

Record InputOptions := {
  io_props : gmap string JsValue;
  io_plugins : list Plugin
}.

(** [inputOptions.k] *)
Definition opt (inputOptions : InputOptions) (k : string) : JsValue :=
  get (JsObj (io_props inputOptions)) k.

(** ** Graph, chunks and the state of a build *)

Record Graph := {
  plugins : list Plugin;
  assetsById : Assets;
  watcher : option string
}.

Record Chunk := {
  id : string;
  entryModule : option string;
  isEntryModuleFacade : bool;
  exportMode : string;
  chunkState : JsValue
}.

Record Addons := {
  intro : string;
  outro : string;
  banner : string;
  footer : string
}.

(** The variables the closures [generate] and [write] share: the
    normalised input options, the graph, the chunks of the build and the
    [optimized] latch; [trace] records the observable calls. *)
Record Build := {
  inputOptions : InputOptions;
  graph : Graph;
  chunks : list Chunk;
  optimized : bool;
  trace : list Event
}.

Definition setGraph (g : Graph) (b : Build) : Build :=
  {| inputOptions := inputOptions b; graph := g; chunks := chunks b;
     optimized := optimized b; trace := trace b |}.

Definition setAssets (assets : Assets) (b : Build) : Build :=
  setGraph {| plugins := plugins (graph b); assetsById := assets;
              watcher := watcher (graph b) |} b.

Definition setChunks (cs : list Chunk) (b : Build) : Build :=
  {| inputOptions := inputOptions b; graph := graph b; chunks := cs;
     optimized := optimized b; trace := trace b |}.

Definition setOptimized (o : bool) (b : Build) : Build :=
  {| inputOptions := inputOptions b; graph := graph b; chunks := chunks b;
     optimized := o; trace := trace b |}.

Definition setTrace (t : list Event) (b : Build) : Build :=
  {| inputOptions := inputOptions b; graph := graph b; chunks := chunks b;
     optimized := optimized b; trace := t |}.

Definition emit (ev : Event) : Eff Build unit :=
  modify (fun b => setTrace (trace b ++ [ev]) b).

(** Code that only warns runs on the trace alone. *)
Definition emitT (ev : Event) : Eff (list Event) unit :=
  modify (fun t => t ++ [ev]).

Definition liftTrace {A} (m : Eff (list Event) A) : Eff Build A :=
  fun b => let '(o, t) := m (trace b) in (o, setTrace t b).

(** ** The imported modules *)

(** A promise handed back by a collaborator, once settled. *)
Inductive Settled (A : Type) :=
  | Resolves (a : A)
  | Rejects (e : JsError).
Arguments Resolves {A} a.
Arguments Rejects {A} e.

Inductive DeprecateConfig := DeprecateInput | DeprecateOutput.

Record MergedOptions := {
  merged_inputOptions : gmap string JsValue;
  merged_plugins : PluginsValue;
  merged_outputOptions : list JsValue;
  merged_deprecations : list Deprecation;
  merged_optionError : option string
}.

(** The functions and methods [index.ts] imports.  Synchronous ones are
    functions that return; those that return a promise give the value it
    settles to. *)
Class Collaborators := {
  (* utils/mergeOptions, utils/ensureArray *)
  mergeOptions : JsValue -> DeprecateConfig -> MergedOptions;
  ensureArray : PluginsValue -> list Plugin;
  (* Graph *)
  graph_build : Graph -> JsValue -> JsValue -> JsValue -> JsValue ->
                Settled (list Chunk) * Graph;
  graph_getCache : Graph -> JsValue;
  (* utils/addons, utils/commondir, utils/getExportMode, chunk-optimization *)
  createAddons : Graph -> JsValue -> Settled Addons;
  commondir : list string -> string;
  getExportMode : Chunk -> JsValue -> string;
  optimizeChunks : list Chunk -> JsValue -> JsValue -> string -> list Chunk;
  (* Chunk *)
  chunk_generateInternalExports : JsValue -> Chunk -> Chunk;
  chunk_preRender : JsValue -> string -> Chunk -> Chunk;
  chunk_getImportIds : Chunk -> list string;
  chunk_getExportNames : Chunk -> list string;
  chunk_renderedModules : Chunk -> list (string * RenderedModule);
  chunk_generateIdPreserveModules : string -> Chunk -> Chunk;
  chunk_generateId : JsValue -> string -> Addons -> JsValue -> OutputBundle -> Chunk -> Chunk;
  chunk_render : JsValue -> Addons -> Chunk -> Settled (string * option SourceMap);
  (* utils/path *)
  basename : JsValue -> string;
  dirname : JsValue -> string;
  resolve : JsValue -> string -> string;
  (* utils/assetHooks: the expansion of the asset name template *)
  assetFileNameFor : Asset -> OutputBundle -> JsValue -> string
}.

(** ** Promise combinators *)

(** [Promise.all(xs.map(x => hook(x)))]: the calls are made in order; a
    call that throws aborts the [map], and with it the calls not yet made;
    otherwise the promise rejects with the first rejection, if any. *)
Fixpoint promiseAllFrom {S} (calls : list (S -> HookResult * S))
    (rejected : option JsError) (s : S) : HookResult * S :=
  match calls with
  | [] => (match rejected with Some e => HookRejects e | None => HookDone end, s)
  | call :: rest =>
      match call s with
      | (HookDone, s') => promiseAllFrom rest rejected s'
      | (HookThrows e, s') => (HookThrows e, s')
      | (HookRejects e, s') =>
          promiseAllFrom rest (Some (default e rejected)) s'
      end
  end.

Definition promiseAll {S} (calls : list (S -> HookResult * S)) (s : S) : HookResult * S :=
  promiseAllFrom calls None s.

(** A fan-out made and awaited inside a [then] callback: a throw becomes a
    rejection. *)
Definition awaitHooks {S} (fanOut : S -> HookResult * S) : Eff S unit :=
  fun s =>
    match fanOut s with
    | (HookDone, s') => (Fulfilled tt, s')
    | (HookThrows e, s') => (Failed e, s')
    | (HookRejects e, s') => (Failed e, s')
    end.

(** [p.then(onFulfilled, onRejected)]: the settled outcome is handed to the
    continuation. *)
Definition attempt {S A} (m : Eff S A) : Eff S (Outcome A) :=
  fun s =>
    match m s with
    | (Pending, s') => (Pending, s')
    | (o, s') => (Fulfilled o, s')
    end.

(** Waiting for a collaborator's promise. *)
Definition await {S A} (p : Settled A) : Eff S A :=
  match p with
  | Resolves a => mret a
  | Rejects e => throw e
  end.

(** [v || d] *)
Definition orElse (v d : JsValue) : JsValue := if truthy v then v else d.

Definition truthyStr (o : option string) : bool :=
  match o with Some s => negb (String.eqb s "") | None => false end.

Section Rollup.
Context `{C : Collaborators}.

(** ** Option checks *)

Definition addDeprecations (deprecations : list Deprecation) : Eff (list Event) unit :=
  let message :=
    "The following options have been renamed — please update your config: " +:+
    String.concat ", "
      ((fun option => dep_old option +:+ " -> " +:+ dep_new option) <$> deprecations) in
  emitT (EvWarn {| warn_code := "DEPRECATED_OPTIONS";
                   warn_message := message;
                   warn_deprecations := deprecations |}).

Definition checkInputOptions {S} (options : InputOptions) : Eff S unit :=
  when (truthy (opt options "transform") || truthy (opt options "load") ||
        truthy (opt options "resolveId") || truthy (opt options "resolveExternal"))
    (throw (newError
      "The `transform`, `load`, `resolveId` and `resolveExternal` options are deprecated in favour of a unified plugin API. See https://github.com/rollup/rollup/wiki/Plugins for details")).

Definition checkOutputOptions {S} (options : JsValue) : Eff S unit :=
  (* reading a property of [undefined] is a TypeError *)
  when (isNullish options)
    (throw (typeError "Cannot read property 'format' of undefined"));;
  when (strictEqStr (get options "format") "es6")
    (error {| err_code := None;
              err_message := "The `es6` output format is deprecated – use `es` instead";
              err_url := Some "https://rollupjs.org/#format-f-output-format-" |});;
  when (negb (truthy (get options "format")))
    (error {| err_code := None;
              err_message := "You must specify options.format, which can be one of 'amd', 'cjs', 'system', 'esm', 'iife' or 'umd'";
              err_url := Some "https://rollupjs.org/#format-f-output-format-" |});;
  when (truthy (get options "moduleId"))
    (when (truthy (get options "amd"))
       (throw (newError "Cannot have both options.amd and options.moduleId"))).

(** ** Hooks of the build phase *)

Definition applyOptionHook (inputOptions : InputOptions) (plugin : Plugin) : InputOptions :=
  match options plugin with
  | Some hook =>
      match hook (io_props inputOptions) with
      | Some props => {| io_props := props; io_plugins := io_plugins inputOptions |}
      | None => inputOptions
      end
  | None => inputOptions
  end.

Definition callBuildStart (plugin : Plugin) (b : Build) : HookResult * Build :=
  match buildStart plugin with
  | Some hook =>
      let '(r, assets) := hook (assetsById (graph b)) in
      (r, setAssets assets (setTrace (trace b ++ [EvBuildStart (name plugin)]) b))
  | None => (HookDone, b)
  end.

Definition applyBuildStartHook (b : Build) : HookResult * Build :=
  promiseAll (callBuildStart <$> plugins (graph b)) b.

Definition callBuildEnd (err : option JsError) (plugin : Plugin) (b : Build)
    : HookResult * Build :=
  match buildEnd plugin with
  | Some hook =>
      let '(r, assets) := hook err (assetsById (graph b)) in
      (r, setAssets assets (setTrace (trace b ++ [EvBuildEnd (name plugin) err]) b))
  | None => (HookDone, b)
  end.

Definition applyBuildEndHook (err : option JsError) (b : Build) : HookResult * Build :=
  promiseAll (callBuildEnd err <$> plugins (graph b)) b.

(** ** [getInputOptions] *)

(** [(input instanceof Array && input.length > 1) ||
     (typeof input === 'object' && Object.keys(input).length > 1)];
    [typeof null] is ['object'] and [Object.keys(null)] throws. *)
Definition multipleInputs {S} (input : JsValue) : Eff S bool :=
  match input with
  | JsArr elems => mret (1 <? length elems)
  | JsObj props => mret (1 <? size props)
  | JsNull => throw (typeError "Cannot convert undefined or null to object")
  | _ => mret false
  end.

Definition invalidOption (msg : string) : JsError :=
  {| err_code := Some "INVALID_OPTION"; err_message := msg; err_url := None |}.

Definition getInputOptions (rawInputOptions : JsValue) : Eff (list Event) InputOptions :=
  when (negb (truthy rawInputOptions))
    (throw (newError "You must supply an options object to rollup"));;
  let merged := mergeOptions rawInputOptions DeprecateInput in
  let inputOptions := {| io_props := merged_inputOptions merged; io_plugins := [] |} in
  let deprecations := merged_deprecations merged in
  let optionError := merged_optionError merged in
  when (truthyStr optionError)
    (emitT (EvWarn {| warn_code := "UNKNOWN_OPTION";
                      warn_message := default "" optionError;
                      warn_deprecations := [] |}));;
  when (0 <? length deprecations) (addDeprecations deprecations);;
  checkInputOptions inputOptions;;
  let inputOptions :=
    {| io_props := io_props inputOptions;
       io_plugins := ensureArray (merged_plugins merged) |} in
  let inputOptions := foldl applyOptionHook inputOptions (io_plugins inputOptions) in
  (if truthy (opt inputOptions "inlineDynamicImports") then
     when (truthy (opt inputOptions "manualChunks"))
       (error (invalidOption
          (dquote +:+ "manualChunks" +:+ dquote +:+
           " option is not supported for inlineDynamicImports.")));;
     when (truthy (opt inputOptions "optimizeChunks"))
       (error (invalidOption
          (dquote +:+ "optimizeChunks" +:+ dquote +:+
           " option is not supported for inlineDynamicImports.")));;
     multiple ← multipleInputs (opt inputOptions "input");
     when multiple
       (error (invalidOption "Multiple inputs are not supported for inlineDynamicImports."))
   else if truthy (opt inputOptions "preserveModules") then
     when (truthy (opt inputOptions "inlineDynamicImports"))
       (error (invalidOption
          "preserveModules does not support the inlineDynamicImports option."));;
     when (truthy (opt inputOptions "manualChunks"))
       (error (invalidOption "preserveModules does not support the manualChunks option."));;
     when (truthy (opt inputOptions "optimizeChunks"))
       (error (invalidOption "preserveModules does not support the optimizeChunks option."))
   else mret tt);;
  mret inputOptions.

(** ** [rollup]: the build phase *)

(** Modelled from the spec: the class [Graph] is not part of the sources;
    by section 9 a graph offers [plugins], [assetsById], [build],
    [finaliseAssets] and [getCache], and by section 4.3 the plugins passed
    to it keep their declared order.  A new graph holds the plugins of the
    input options, an empty asset registry and the current watcher. *)
Definition newGraph (inputOptions : InputOptions) (curWatcher : option string) : Graph :=
  {| plugins := io_plugins inputOptions; assetsById := []; watcher := curWatcher |}.

Definition graphBuild (input manualChunks inlineDynamicImports preserveModules : JsValue)
    : Eff Build (list Chunk) :=
  fun b =>
    let '(built, g) :=
      graph_build (graph b) input manualChunks inlineDynamicImports preserveModules in
    await built (setGraph g (setTrace (trace b ++ [EvGraphBuild]) b)).

(** The handle [rollup] resolves to.  [state] holds what its closures
    [generate] and [write] capture; [getTimings] is present under [perf]. *)
Record RollupBuild := {
  cache : JsValue;
  getTimings : bool;
  state : Build
}.

(** The promise chain of [rollup], from [timeStart('BUILD')] on.
    [applyBuildStartHook] is called outside any [then] callback: when a
    [buildStart] hook throws, the [catch] clause rejects at once. *)
Definition runBuild : Eff Build RollupBuild :=
  emit (EvTimeStart "BUILD");;
  inputOptions ← gets inputOptions;
  started ← (fun b => match applyBuildStartHook b with
                      | (HookThrows e, b') => (Failed e, b')
                      | (r, b') => (Fulfilled r, b')
                      end);
  built ← attempt
    (match started with
     | HookRejects e => throw e
     | _ => graphBuild (opt inputOptions "input") (opt inputOptions "manualChunks")
                       (opt inputOptions "inlineDynamicImports")
                       (opt inputOptions "preserveModules")
     end);
  chunks ← match built with
           | Fulfilled chunks => awaitHooks (applyBuildEndHook None);; mret chunks
           | Failed err => awaitHooks (applyBuildEndHook (Some err));; throw err
           | Pending => settle Pending
           end;
  emit (EvTimeEnd "BUILD");;
  (* ensure we only do one optimization pass per build *)
  modify (fun b => setOptimized false (setChunks chunks b));;
  g ← gets graph;
  b ← gets (fun b => b);
  mret {| cache := graph_getCache g;
          getTimings := strictEqTrue (opt inputOptions "perf");
          state := b |}.

Definition rollup (rawInputOptions : JsValue) (curWatcher : option string)
    : Outcome RollupBuild * list Event :=
  match getInputOptions rawInputOptions [] with
  | (Fulfilled inputOptions, t) =>
      let graph := newGraph inputOptions curWatcher in
      let '(o, b) := runBuild {| inputOptions := inputOptions; graph := graph;
                                 chunks := []; optimized := false; trace := t |} in
      (o, trace b)
  | (Failed e, t) => (Failed e, t)
  | (Pending, t) => (Pending, t)
  end.

(** ** [normalizeOutputOptions] *)

(** [{ output: { ...rawOutputOptions, ...rawOutputOptions.output,
                 ...inputOptions.output } }] *)
Definition consolidatedOutputOptions (inputOptions : InputOptions)
    (rawOutputOptions : JsValue) : gmap string JsValue :=
  {[ "output" :=
       JsObj (assign (assign (assign ∅ rawOutputOptions)
                             (get rawOutputOptions "output"))
                     (opt inputOptions "output")) ]}.

Definition normalizeOutputOptions (inputOptions : InputOptions)
    (rawOutputOptions : JsValue) : Eff (list Event) JsValue :=
  when (negb (truthy rawOutputOptions))
    (throw (newError "You must supply an options object"));;
  let mergedOptions :=
    mergeOptions (JsObj (consolidatedOutputOptions inputOptions rawOutputOptions))
                 DeprecateOutput in
  when (truthyStr (merged_optionError mergedOptions))
    (throw (newError (default "" (merged_optionError mergedOptions))));;
  (* now outputOptions is an array, but rollup.rollup API doesn't support arrays *)
  let outputOptions := default JsUndefined (head (merged_outputOptions mergedOptions)) in
  let deprecations := merged_deprecations mergedOptions in
  when (0 <? length deprecations) (addDeprecations deprecations);;
  checkOutputOptions outputOptions;;
  mret outputOptions.

(** ** The asset registry *)

Definition setFileName (fileName : string) (asset : Asset) : Asset :=
  {| asset_name := asset_name asset; asset_source := asset_source asset;
     asset_fileName := Some fileName |}.

(** Modelled from the spec: [utils/assetHooks] is not part of the sources.
    By section 4.6 [finalize(asset, bundle, template)] expands the template
    into the file name of the asset and puts the asset into the bundle; by
    section 8 an asset whose source was never set fails with
    [ASSET_SOURCE_MISSING]. *)
Definition finaliseAsset (asset : Asset) (outputBundle : OutputBundle)
    (assetFileNames : JsValue) : Settled (Asset * OutputBundle) :=
  match asset_source asset with
  | None =>
      Rejects {| err_code := Some "ASSET_SOURCE_MISSING";
                 err_message := "No source set for asset " +:+ asset_name asset;
                 err_url := None |}
  | Some source =>
      let fileName := assetFileNameFor asset outputBundle assetFileNames in
      Resolves (setFileName fileName asset,
                bundleSet fileName (OutAsset fileName source) outputBundle)
  end.

(** Modelled from the spec: [Graph.finaliseAssets] is not part of the
    sources.  By sections 4.5 (step 5) and 4.6 ([finaliseAll]) it starts a
    fresh bundle and finalises into it every asset that has a source but no
    file name yet. *)
Fixpoint finaliseAll (assetFileNames : JsValue) (assets : Assets)
    (outputBundle : OutputBundle) : Assets * OutputBundle :=
  match assets with
  | [] => ([], outputBundle)
  | (assetId, asset) :: rest =>
      match asset_source asset, asset_fileName asset with
      | Some _, None =>
          match finaliseAsset asset outputBundle assetFileNames with
          | Resolves (asset', outputBundle') =>
              let '(rest', outputBundle'') := finaliseAll assetFileNames rest outputBundle' in
              ((assetId, asset') :: rest', outputBundle'')
          | Rejects _ =>
              let '(rest', outputBundle') := finaliseAll assetFileNames rest outputBundle in
              ((assetId, asset) :: rest', outputBundle')
          end
      | _, _ =>
          let '(rest', outputBundle') := finaliseAll assetFileNames rest outputBundle in
          ((assetId, asset) :: rest', outputBundle')
      end
  end.

Definition graph_finaliseAssets (assetFileNames : JsValue) : Eff Build OutputBundle :=
  fun b =>
    let '(assets, outputBundle) := finaliseAll assetFileNames (assetsById (graph b)) [] in
    (Fulfilled outputBundle, setAssets assets b).

(** [assets.forEach(asset => { if (asset.fileName === undefined)
      finaliseAsset(asset, outputBundle, assetFileNames); })]:
    the loop stops at the first asset that throws. *)
Fixpoint finalisePending (assetFileNames : JsValue) (assets : Assets)
    (outputBundle : OutputBundle) : Outcome unit * (OutputBundle * Assets) :=
  match assets with
  | [] => (Fulfilled tt, (outputBundle, []))
  | (assetId, asset) :: rest =>
      match asset_fileName asset with
      | None =>
          match finaliseAsset asset outputBundle assetFileNames with
          | Resolves (asset', outputBundle') =>
              let '(o, (outputBundle'', rest')) :=
                finalisePending assetFileNames rest outputBundle' in
              (o, (outputBundle'', (assetId, asset') :: rest'))
          | Rejects e => (Failed e, (outputBundle, (assetId, asset) :: rest))
          end
      | Some _ =>
          let '(o, (outputBundle', rest')) :=
            finalisePending assetFileNames rest outputBundle in
          (o, (outputBundle', (assetId, asset) :: rest'))
      end
  end.

Fixpoint assetGet (assetId : string) (assets : Assets) : option Asset :=
  match assets with
  | [] => None
  | (assetId', asset) :: rest =>
      if String.eqb assetId' assetId then Some asset else assetGet assetId rest
  end.

(** [new Map(graph.assetsById)] copies the map, not the assets: what a
    generate call does to an asset of the graph is seen through the
    graph's own map. *)
Definition shareAssets (assets : Assets) (b : Build) : Build :=
  setAssets ((fun '(assetId, asset) => (assetId, default asset (assetGet assetId assets)))
               <$> assetsById (graph b)) b.

(** ** [generate] *)

Definition hasHook {A} (hook : option A) : bool :=
  match hook with Some _ => true | None => false end.

Definition setExportMode (mode : string) (chunk : Chunk) : Chunk :=
  {| id := id chunk; entryModule := entryModule chunk;
     isEntryModuleFacade := isEntryModuleFacade chunk;
     exportMode := mode; chunkState := chunkState chunk |}.

Definition setId (chunkId : string) (chunk : Chunk) : Chunk :=
  {| id := chunkId; entryModule := entryModule chunk;
     isEntryModuleFacade := isEntryModuleFacade chunk;
     exportMode := exportMode chunk; chunkState := chunkState chunk |}.

Definition setRendered (rendered : string * option SourceMap) (outputChunk : OutputChunk)
    : OutputChunk :=
  {| fileName := fileName outputChunk; isEntry := isEntry outputChunk;
     imports := imports outputChunk; exports := exports outputChunk;
     modules := modules outputChunk;
     code := Some (fst rendered); map := snd rendered |}.

(** The first loop of the pre-render block. *)
Definition prepareChunk (inputOptions : InputOptions) (outputOptions : JsValue)
    (chunk : Chunk) : Chunk :=
  let chunk :=
    if negb (truthy (opt inputOptions "preserveModules"))
    then chunk_generateInternalExports outputOptions chunk else chunk in
  if isEntryModuleFacade chunk
  then setExportMode (getExportMode chunk outputOptions) chunk else chunk.

(** One round of the naming loop: the chunk gets its [id] and a skeleton
    entry under that name in the bundle. *)
Definition nameChunk (inputOptions : InputOptions) (outputOptions : JsValue)
    (inputBase : string) (addons : Addons)
    (acc : list Chunk * OutputBundle) (chunk : Chunk) : list Chunk * OutputBundle :=
  let '(named, outputBundle) := acc in
  let imports := chunk_getImportIds chunk in
  let exports := chunk_getExportNames chunk in
  let modules := chunk_renderedModules chunk in
  let chunk :=
    if truthy (get outputOptions "file") then
      setId (basename (get outputOptions "file")) chunk
    else if truthy (opt inputOptions "preserveModules") then
      chunk_generateIdPreserveModules inputBase chunk
    else
      let '(pattern, patternName) :=
        if isEntryModuleFacade chunk
        then (orElse (get outputOptions "entryFileNames") (JsStr "[name].js"),
              "output.entryFileNames")
        else (orElse (get outputOptions "chunkFileNames") (JsStr "[name]-[hash].js"),
              "output.chunkFileNames") in
      chunk_generateId pattern patternName addons outputOptions outputBundle chunk in
  (named ++ [chunk],
   bundleSet (id chunk)
     (OutChunk {| fileName := id chunk;
                  isEntry := hasHook (entryModule chunk);
                  imports := imports;
                  exports := exports;
                  modules := modules;
                  code := None;
                  map := None |})
     outputBundle).

(** The legacy [ongenerate] hook receives [{ bundle: outputChunk,
    ...outputOptions }] and the chunk. *)
Definition callOngenerate (outputOptions : JsValue) (outputChunk : OutputChunk)
    (plugin : Plugin) (b : Build) : HookResult * Build :=
  match ongenerate plugin with
  | Some hook =>
      (hook outputOptions outputChunk,
       setTrace (trace b ++ [EvOngenerate (name plugin) (fileName outputChunk)]) b)
  | None => (HookDone, b)
  end.

(** [chunk.render(outputOptions, addons).then(rendered => ...)] for one
    chunk.  The entry read back under the chunk's [id] is the one the
    naming loop stored there. *)
Definition renderChunk (outputOptions : JsValue) (addons : Addons) (chunk : Chunk)
    (st : Build * OutputBundle) : HookResult * (Build * OutputBundle) :=
  let '(b, outputBundle) := st in
  let chunkId := id chunk in
  match chunk_render outputOptions addons chunk with
  | Rejects e => (HookRejects e, st)
  | Resolves rendered =>
      match bundleGet chunkId outputBundle with
      | Some (OutChunk outputChunk) =>
          let outputChunk := setRendered rendered outputChunk in
          let outputBundle := bundleSet chunkId (OutChunk outputChunk) outputBundle in
          match promiseAll
                  (callOngenerate outputOptions outputChunk <$>
                     List.filter (fun plugin => hasHook (ongenerate plugin))
                                 (plugins (graph b))) b with
          | (HookDone, b') => (HookDone, (b', outputBundle))
          | (HookThrows e, b') => (HookRejects e, (b', outputBundle))
          | (HookRejects e, b') => (HookRejects e, (b', outputBundle))
          end
      | _ => (HookRejects (typeError "Cannot set property 'code' of undefined"), st)
      end
  end.

Definition callGenerateBundle (outputOptions : JsValue) (isWrite : bool)
    (plugin : Plugin) (st : Build * (OutputBundle * Assets))
    : HookResult * (Build * (OutputBundle * Assets)) :=
  match generateBundle plugin with
  | Some hook =>
      let '(b, shared) := st in
      let '(r, shared') := hook outputOptions isWrite shared in
      (r, (setTrace (trace b ++ [EvGenerateBundle (name plugin) isWrite]) b, shared'))
  | None => (HookDone, st)
  end.

(** The [then] callback that runs the [generateBundle] hook. *)
Definition runGenerateBundle (outputOptions : JsValue) (isWrite : bool)
    (assetFileNames : JsValue) (outputBundle : OutputBundle) : Eff Build OutputBundle :=
  g ← gets graph;
  let generateBundlePlugins :=
    List.filter (fun plugin => hasHook (generateBundle plugin)) (plugins g) in
  if Nat.eqb (length generateBundlePlugins) 0 then mret outputBundle
  else
    (* assets emitted during generateBundle are unique to that specific generate call *)
    let assets := assetsById g in
    ((fun b =>
      match promiseAll (callGenerateBundle outputOptions isWrite <$> generateBundlePlugins)
                       (b, (outputBundle, assets)) with
      | (HookDone, (b', (outputBundle', assets'))) =>
          (* throw errors for assets not finalised with a source *)
          match finalisePending assetFileNames assets' outputBundle' with
          | (Fulfilled _, (outputBundle'', assets'')) =>
              (Fulfilled outputBundle'', shareAssets assets'' b')
          | (Failed e, (_, assets'')) => (Failed e, shareAssets assets'' b')
          | (Pending, (_, assets'')) => (Pending, shareAssets assets'' b')
          end
      | (HookThrows e, (b', (_, assets'))) => (Failed e, shareAssets assets' b')
      | (HookRejects e, (b', (_, assets'))) => (Failed e, shareAssets assets' b')
      end) : Eff Build OutputBundle).

(** The [then] callback that pre-renders, optimises, names and renders the
    chunks.  [optimizeChunks] works on the chunk array in place. *)
Definition renderBundle (inputOptions : InputOptions) (outputOptions : JsValue)
    (inputBase : string) (outputBundle : OutputBundle) (addons : Addons)
    : Eff Build OutputBundle :=
  (* pre-render all chunks *)
  modify (fun b => setChunks (prepareChunk inputOptions outputOptions <$> chunks b) b);;
  modify (fun b => setChunks (chunk_preRender outputOptions inputBase <$> chunks b) b);;
  alreadyOptimized ← gets optimized;
  when (negb alreadyOptimized && truthy (opt inputOptions "optimizeChunks"))
    (emit EvOptimizeChunks;;
     modify (fun b => setChunks
               (optimizeChunks (chunks b) outputOptions
                               (opt inputOptions "chunkGroupingSize") inputBase) b);;
     modify (setOptimized true));;
  (* then name all chunks *)
  pre ← gets chunks;
  let '(named, outputBundle) :=
    foldl (nameChunk inputOptions outputOptions inputBase addons) ([], outputBundle) pre in
  modify (setChunks named);;
  (* render chunk import statements and finalizer wrappers given known names *)
  ((fun b =>
    match promiseAll (renderChunk outputOptions addons <$> named) (b, outputBundle) with
    | (HookDone, (b', outputBundle')) => (Fulfilled outputBundle', b')
    | (HookThrows e, (b', _)) => (Failed e, b')
    | (HookRejects e, (b', _)) => (Failed e, b')
    end) : Eff Build OutputBundle).

(** The body of [generate] from [timeStart('GENERATE', 1)] on, that is,
    once the output options have passed its two checks. *)
Definition generateOutput (inputOptions : InputOptions) (outputOptions : JsValue)
    (isWrite : bool) : Eff Build OutputBundle :=
  built ← gets chunks;
  emit (EvTimeStart "GENERATE");;
  (* populate asset files into output *)
  let assetFileNames :=
    orElse (get outputOptions "assetFileNames") (JsStr "assets/[name]-[hash][extname]") in
  outputBundle ← graph_finaliseAssets assetFileNames;
  let inputBase := commondir (omap entryModule built) in
  g ← gets graph;
  addons ← await (createAddons g outputOptions);
  outputBundle ← renderBundle inputOptions outputOptions inputBase outputBundle addons;
  outputBundle ← runGenerateBundle outputOptions isWrite assetFileNames outputBundle;
  emit (EvTimeEnd "GENERATE");;
  mret outputBundle.

Definition generate (rawOutputOptions : JsValue) (isWrite : bool) : Eff Build OutputBundle :=
  inputOptions ← gets inputOptions;
  outputOptions ← liftTrace (normalizeOutputOptions inputOptions rawOutputOptions);
  when (typeofString (get outputOptions "file") && typeofString (get outputOptions "dir"))
    (error (invalidOption
       "Build must set either output.file for a single-file build or output.dir when generating multiple chunks."));;
  built ← gets chunks;
  when ((1 <? length built) &&
        (strictEqStr (get outputOptions "format") "umd" ||
         strictEqStr (get outputOptions "format") "iife"))
    (error (invalidOption
       "UMD and IIFE output formats are not supported for code-splitting builds."));;
  generateOutput inputOptions outputOptions isWrite.

(** ** [createOutput] *)

Definition isOutputAsset (file : OutputFile) : bool :=
  match file with OutAsset _ _ => true | OutChunk _ => false end.

(** The comparison function handed to [sort].  Its last statement is an
    expression statement: a shared chunk in first position returns
    nothing, that is [undefined]. *)
Definition compareOutput (outputFileA outputFileB : OutputFile) : JsValue :=
  match outputFileA with
  | OutAsset _ _ => if isOutputAsset outputFileB then JsNum 0 else JsNum 1
  | OutChunk chunkA =>
      match outputFileB with
      | OutAsset _ _ => JsNum (-1)
      | OutChunk chunkB =>
          (* sort by entry chunks, shared chunks, then assets *)
          if isEntry chunkA then (if isEntry chunkB then JsNum 0 else JsNum (-1))
          else JsUndefined
      end
  end.

(** What [sort] makes of a comparison result: [ToNumber], with [NaN] (the
    number of [undefined]) read as [+0]. *)
Definition sortOrder (v : JsValue) : Z :=
  match v with
  | JsNum n => n
  | JsBool true => 1
  | _ => 0
  end.

(** [Array.prototype.sort] as the engines of the time run it on an array of
    up to ten elements: an insertion sort that moves an element left past
    every neighbour that compares greater than it.  [sortedRev] is the
    sorted prefix, last element first. *)
Fixpoint insertionStep {A} (comparefn : A -> A -> JsValue) (element : A)
    (sortedRev : list A) : list A :=
  match sortedRev with
  | [] => [element]
  | tmp :: rest =>
      if (0 <? sortOrder (comparefn tmp element))%Z
      then tmp :: insertionStep comparefn element rest
      else element :: sortedRev
  end.

Definition arraySort {A} (comparefn : A -> A -> JsValue) (array : list A) : list A :=
  rev (foldl (fun sortedRev element => insertionStep comparefn element sortedRev) [] array).

Record RollupOutput := { output : list OutputFile }.

Definition createOutput (outputBundle : OutputBundle) : RollupOutput :=
  {| output :=
       arraySort compareOutput
         (omap (fun fileName => bundleGet fileName outputBundle) (objectKeys outputBundle)) |}.

(** ** The output writer *)

(** Modelled from the spec: [utils/sourceMappingURL] is not part of the
    sources; by section 6 the marker is the literal [sourceMappingURL]. *)
Definition SOURCEMAPPING_URL : string := "sourceMappingURL".

Definition newline : string := String (Ascii.ascii_of_nat 10) "".

(** Where the promise chain of one [writeOutputFile] call stands. *)
Inductive Stage :=
  | AwaitCode              (* [writeFile(filename, source)] not completed *)
  | AwaitMap               (* [.then(() => writeSourceMapPromise)] *)
  | Finished               (* the promise returned is fulfilled *)
  | Broken (e : JsError).  (* the promise returned is rejected *)

(** [task_code] and [task_map] number the writes issued for the file. *)
Record WriteTask := {
  task_file : OutputFile;
  task_code : nat;
  task_map : option nat;
  task_stage : Stage
}.

Definition setStage (stage : Stage) (task : WriteTask) : WriteTask :=
  {| task_file := task_file task; task_code := task_code task;
     task_map := task_map task; task_stage := stage |}.

(** [writeFile(path, data)] hands the write to the file system and returns
    its promise: the write is recorded as issued and given the next
    number. *)
Definition writeFile (path data : string) (st : Build * list string)
    : nat * (Build * list string) :=
  let '(b, issued) := st in
  (length issued, (setTrace (trace b ++ [EvWriteFile path data]) b, issued ++ [path])).

(** The synchronous part of [writeOutputFile]: the writes it issues. *)
Definition writeOutputFile (outputFile : OutputFile) (outputOptions : JsValue)
    (st : Build * list string) : WriteTask * (Build * list string) :=
  let filename :=
    resolve (orElse (get outputOptions "dir") (JsStr (dirname (get outputOptions "file"))))
            (fileNameOf outputFile) in
  match outputFile with
  | OutAsset _ source =>
      let '(w, st) := writeFile filename source st in
      ({| task_file := outputFile; task_code := w; task_map := None;
          task_stage := AwaitCode |}, st)
  | OutChunk chunk =>
      let source := default "undefined" (code chunk) in
      match truthy (get outputOptions "sourcemap"), map chunk with
      | true, Some sourceMap =>
          if strictEqStr (get outputOptions "sourcemap") "inline" then
            let url := map_toUrl sourceMap in
            let source := source +:+ "//# " +:+ SOURCEMAPPING_URL +:+ "=" +:+ url +:+ newline in
            let '(w, st) := writeFile filename source st in
            ({| task_file := outputFile; task_code := w; task_map := None;
                task_stage := AwaitCode |}, st)
          else
            let url := basename (JsStr (fileName chunk)) +:+ ".map" in
            let '(writeSourceMapPromise, st) :=
              writeFile (filename +:+ ".map") (map_toString sourceMap) st in
            let source := source +:+ "//# " +:+ SOURCEMAPPING_URL +:+ "=" +:+ url +:+ newline in
            let '(w, st) := writeFile filename source st in
            ({| task_file := outputFile; task_code := w;
                task_map := Some writeSourceMapPromise;
                task_stage := AwaitCode |}, st)
      | _, _ =>
          let '(w, st) := writeFile filename source st in
          ({| task_file := outputFile; task_code := w; task_map := None;
              task_stage := AwaitCode |}, st)
      end
  end.

(** The legacy [onwrite] hook receives [{ bundle: outputFile,
    ...outputOptions }] and the chunk. *)
Definition callOnwrite (outputOptions : JsValue) (outputChunk : OutputChunk)
    (plugin : Plugin) (b : Build) : HookResult * Build :=
  match onwrite plugin with
  | Some hook =>
      (hook outputOptions outputChunk,
       setTrace (trace b ++ [EvOnwrite (name plugin) (fileName outputChunk)]) b)
  | None => (HookDone, b)
  end.

(** The writes the file system has completed: [None] for a write that
    succeeded, the error for one that failed. *)
Fixpoint resultOf (w : nat) (completed : list (nat * option JsError))
    : option (option JsError) :=
  match completed with
  | [] => None
  | (w', r) :: rest => if Nat.eqb w' w then Some r else resultOf w rest
  end.

(** [.then(() => !isOutputAsset(outputFile) && Promise.all(...))] *)
Definition runOnwrite (outputOptions : JsValue) (task : WriteTask) (b : Build)
    : WriteTask * Build :=
  match task_file task with
  | OutAsset _ _ => (setStage Finished task, b)
  | OutChunk chunk =>
      match promiseAll
              (callOnwrite outputOptions chunk <$>
                 List.filter (fun plugin => hasHook (onwrite plugin)) (plugins (graph b)))
              b with
      | (HookDone, b') => (setStage Finished task, b')
      | (HookThrows e, b') => (setStage (Broken e) task, b')
      | (HookRejects e, b') => (setStage (Broken e) task, b')
      end
  end.

(** [.then(() => writeSourceMapPromise)] *)
Definition awaitSourceMap (outputOptions : JsValue)
    (completed : list (nat * option JsError)) (task : WriteTask) (b : Build)
    : WriteTask * Build :=
  match task_map task with
  | None => runOnwrite outputOptions task b
  | Some writeSourceMapPromise =>
      match resultOf writeSourceMapPromise completed with
      | None => (setStage AwaitMap task, b)
      | Some None => runOnwrite outputOptions task b
      | Some (Some e) => (setStage (Broken e) task, b)
      end
  end.

(** The chain of one file moves as far as the completed writes allow. *)
Definition advance (outputOptions : JsValue)
    (completed : list (nat * option JsError)) (task : WriteTask) (b : Build)
    : WriteTask * Build :=
  match task_stage task with
  | AwaitCode =>
      match resultOf (task_code task) completed with
      | None => (task, b)
      | Some None => awaitSourceMap outputOptions completed task b
      | Some (Some e) => (setStage (Broken e) task, b)
      end
  | AwaitMap => awaitSourceMap outputOptions completed task b
  | Finished | Broken _ => (task, b)
  end.

Fixpoint advanceAll (outputOptions : JsValue)
    (completed : list (nat * option JsError)) (tasks : list WriteTask) (b : Build)
    : list WriteTask * Build :=
  match tasks with
  | [] => ([], b)
  | task :: rest =>
      let '(task', b') := advance outputOptions completed task b in
      let '(rest', b'') := advanceAll outputOptions completed rest b' in
      (task' :: rest', b'')
  end.

Definition brokenWith (task : WriteTask) : option JsError :=
  match task_stage task with Broken e => Some e | _ => None end.

Definition isFinished (task : WriteTask) : bool :=
  match task_stage task with Finished => true | _ => false end.

(** The state of the writes of one [write] call. *)
Record Writes := {
  issued : list string;
  completed : list (nat * option JsError);
  tasks : list WriteTask;
  rejection : option JsError
}.

(** The file system completes write [w]: the completion is recorded and
    every chain that waited for it moves on.  [Promise.all] rejects with
    the failure of the chain that breaks first. *)
Definition complete (outputOptions : JsValue) (w : nat) (r : option JsError)
    (st : Build * Writes) : Build * Writes :=
  let '(b, ws) := st in
  match issued ws !! w, resultOf w (completed ws) with
  | Some path, None =>
      let b := setTrace (trace b ++ [match r with
                                     | None => EvWritten path
                                     | Some _ => EvWriteFailed path
                                     end]) b in
      let done := (w, r) :: completed ws in
      let '(moved, b) := advanceAll outputOptions done (tasks ws) b in
      (b, {| issued := issued ws; completed := done; tasks := moved;
             rejection := match rejection ws with
                          | Some e => Some e
                          | None => head (omap brokenWith moved)
                          end |})
  | _, _ => st
  end.

(** [Promise.all(Object.keys(result).map(chunkId =>
      writeOutputFile(graph, result[chunkId], outputOptions)))].
    [schedule] is the file system's part: the order in which it completes
    the writes issued, each with its result. *)
Definition writeFiles (outputOptions : JsValue) (files : list OutputFile)
    (schedule : list (nat * option JsError)) : Eff Build unit :=
  fun b =>
    let '(started, (b, paths)) :=
      foldl (fun '(started, st) file =>
               let '(task, st) := writeOutputFile file outputOptions st in
               (started ++ [task], st))
            ([], (b, [])) files in
    let '(b, ws) :=
      foldl (fun st '(w, r) => complete outputOptions w r st)
            (b, {| issued := paths; completed := []; tasks := started; rejection := None |})
            schedule in
    (match rejection ws with
     | Some e => Failed e
     | None => if forallb isFinished (tasks ws) then Fulfilled tt else Pending
     end, b).

(** ** The methods of the build handle *)

(** [result.generate] *)
Definition build_generate (rawOutputOptions : JsValue) : Eff Build RollupOutput :=
  result ← generate rawOutputOptions false;
  mret (createOutput result).

(** [result.write] *)
Definition build_write (outputOptions : JsValue) (schedule : list (nat * option JsError))
    : Eff Build RollupOutput :=
  when (negb (truthy outputOptions) ||
        (negb (truthy (get outputOptions "dir")) && negb (truthy (get outputOptions "file"))))
    (error {| err_code := Some "MISSING_OPTION";
              err_message := "You must specify output.file or output.dir for the build.";
              err_url := None |});;
  result ← generate outputOptions true;
  inputOptions ← gets inputOptions;
  when (1 <? length (objectKeys result))
    (when (truthy (get outputOptions "sourcemapFile"))
       (error (invalidOption
          (dquote +:+ "sourcemapFile" +:+ dquote +:+
           " is only supported for single-file builds.")));;
     when (typeofString (get outputOptions "file"))
       (error (invalidOption
          ("When building multiple chunks, the output.dir option must be used, not output.file." +:+
           (if negb (typeofString (opt inputOptions "input")) ||
               strictEqTrue (opt inputOptions "inlineDynamicImports")
            then ""
            else " To inline dynamic imports set the inlineDynamicImports: true option.")))));;
  writeFiles outputOptions
    (omap (fun chunkId => bundleGet chunkId result) (objectKeys result)) schedule;;
  mret (createOutput result).

End Rollup.

(** ** A concrete environment

    Stand-ins for the imported modules, on which the functions above can be
    run: [mergeOptions] passes the configuration through, the graph builds
    the chunks it is given, chunks are named after their state and render
    to a line of code with a source map. *)

Module Sample.

Definition plainMerge (ps : PluginsValue) (config : JsValue) (dc : DeprecateConfig)
    : MergedOptions :=
  {| merged_inputOptions := ownProps config;
     merged_plugins := ps;
     merged_outputOptions := [get config "output"];
     merged_deprecations := [];
     merged_optionError := None |}.

Definition plainEnsureArray (ps : PluginsValue) : list Plugin :=
  match ps with
  | PluginsAbsent => []
  | PluginsOne p => [p]
  | PluginsMany l => l
  end.

Definition text (v : JsValue) : string :=
  match v with JsStr s => s | _ => "" end.

Definition plainName (chunk : Chunk) : Chunk :=
  {| id := text (chunkState chunk) +:+ ".js"; entryModule := entryModule chunk;
     isEntryModuleFacade := isEntryModuleFacade chunk;
     exportMode := exportMode chunk; chunkState := chunkState chunk |}.

Definition plainMap (chunk : Chunk) : SourceMap :=
  {| map_toString := "{mappings of " +:+ id chunk +:+ "}";
     map_toUrl := "data:application/json;base64," +:+ id chunk |}.

(** The environment of a build whose plugins are [ps] and whose graph
    settles to [built]. *)
Definition collaborators (ps : PluginsValue) (built : Settled (list Chunk)) : Collaborators :=
  {| mergeOptions := plainMerge ps;
     ensureArray := plainEnsureArray;
     graph_build := fun g _ _ _ _ => (built, g);
     graph_getCache := fun _ => JsObj ∅;
     createAddons := fun _ _ => Resolves {| intro := ""; outro := ""; banner := ""; footer := "" |};
     commondir := fun _ => "";
     getExportMode := fun _ _ => "auto";
     optimizeChunks := fun cs _ _ _ => cs;
     chunk_generateInternalExports := fun _ chunk => chunk;
     chunk_preRender := fun _ _ chunk => chunk;
     chunk_getImportIds := fun _ => [];
     chunk_getExportNames := fun _ => [];
     chunk_renderedModules := fun _ => [];
     chunk_generateIdPreserveModules := fun _ chunk => plainName chunk;
     chunk_generateId := fun _ _ _ _ _ chunk => plainName chunk;
     chunk_render := fun _ _ chunk =>
       Resolves ("// " +:+ id chunk +:+ newline, Some (plainMap chunk));
     basename := text;
     dirname := fun _ => ".";
     resolve := fun dir file => text dir +:+ "/" +:+ file;
     assetFileNameFor := fun asset _ _ => "assets/" +:+ asset_name asset |}.

Definition noHooks (pluginName : string) : Plugin :=
  {| name := pluginName; options := None; buildStart := None; buildEnd := None;
     ongenerate := None; onwrite := None; generateBundle := None |}.

Definition entryChunk (chunkName : string) : Chunk :=
  {| id := ""; entryModule := Some (chunkName +:+ ".js"); isEntryModuleFacade := true;
     exportMode := ""; chunkState := JsStr chunkName |}.

Definition sharedChunk (chunkName : string) : Chunk :=
  {| id := ""; entryModule := None; isEntryModuleFacade := false;
     exportMode := ""; chunkState := JsStr chunkName |}.

End Sample.

(** * Vocabulary of the statements *)

Definition failsWithCode {A} (o : Outcome A) (c : string) : Prop :=
  exists e, o = Failed e /\ err_code e = Some c.

Definition failsWithoutCode {A} (o : Outcome A) : Prop :=
  exists e, o = Failed e /\ err_code e = None.

(** The merge of the [output] sources in the order the specification
    gives, highest first: the nested [.output], the top-level fields, the
    input-level fallback. *)
Definition specOutputPrecedence (inputOptions : InputOptions) (rawOutputOptions : JsValue)
    : gmap string JsValue :=
  ownProps (get rawOutputOptions "output") ∪
    (ownProps rawOutputOptions ∪ ownProps (opt inputOptions "output")).

(** The deprecated options [checkInputOptions] looks for. *)
Definition hasLegacyOption (options : InputOptions) : bool :=
  truthy (opt options "transform") || truthy (opt options "load") ||
  truthy (opt options "resolveId") || truthy (opt options "resolveExternal").

(** The input options [getInputOptions] works on once [mergeOptions] and
    [ensureArray] have run. *)
Definition mergedInputOptions `{C : Collaborators} (rawInputOptions : JsValue) : InputOptions :=
  let merged := mergeOptions rawInputOptions DeprecateInput in
  {| io_props := merged_inputOptions merged;
     io_plugins := ensureArray (merged_plugins merged) |}.

(** The first output options [mergeOptions] returns for a generate call. *)
Definition mergedOutputOptions `{C : Collaborators} (inputOptions : InputOptions)
    (rawOutputOptions : JsValue) : JsValue :=
  default JsUndefined
    (head (merged_outputOptions
             (mergeOptions (JsObj (consolidatedOutputOptions inputOptions rawOutputOptions))
                           DeprecateOutput))).

(** The state [rollup] starts the build phase in. *)
Definition startOfBuild (inputOptions : InputOptions) (curWatcher : option string)
    (t : list Event) : Build :=
  {| inputOptions := inputOptions; graph := newGraph inputOptions curWatcher;
     chunks := []; optimized := false; trace := t |}.

(** The state in which [graph.build] is called: the timer is started and
    the [buildStart] hooks have run. *)
Definition afterBuildStart `{C : Collaborators} (b : Build) : Build :=
  snd (applyBuildStartHook (setTrace (trace b ++ [EvTimeStart "BUILD"]) b)).

(** The calls of [buildEnd] a fan-out over [ps] makes when no hook throws. *)
Definition buildEndCalls (err : option JsError) (ps : list Plugin) : list Event :=
  omap (fun plugin => if hasHook (buildEnd plugin)
                      then Some (EvBuildEnd (name plugin) err) else None) ps.




(** The number of chunk-optimisation passes a trace records. *)
Definition isOptimizeChunks (ev : Event) : bool :=
  match ev with EvOptimizeChunks => true | _ => false end.

Definition optimizeRuns (t : list Event) : nat :=
  length (List.filter isOptimizeChunks t).

(** The latch agrees with the trace: a pass has run exactly when
    [optimized] is set, and then only one. *)
Definition latchInvariant (b : Build) : Prop :=
  optimizeRuns (trace b) = if optimized b then 1 else 0.

(** The calls made on a build handle. *)
Inductive Call :=
  | CallGenerate (rawOutputOptions : JsValue)
  | CallWrite (outputOptions : JsValue) (schedule : list (nat * option JsError)).

Definition runCall `{C : Collaborators} (b : Build) (call : Call) : Build :=
  match call with
  | CallGenerate rawOutputOptions => snd (build_generate rawOutputOptions b)
  | CallWrite outputOptions schedule => snd (build_write outputOptions schedule b)
  end.

Definition runCalls `{C : Collaborators} (calls : list Call) (b : Build) : Build :=
  foldl runCall b calls.

(** Relations between the state before and after a step. *)
Definition sameRuns (t t' : list Event) : Prop := optimizeRuns t' = optimizeRuns t.

Definition sameLatch (b b' : Build) : Prop :=
  optimizeRuns (trace b') = optimizeRuns (trace b) /\ optimized b' = optimized b.

Definition sameRunsOf (b b' : Build) : Prop :=
  optimizeRuns (trace b') = optimizeRuns (trace b).

Definition keepsLatch (b b' : Build) : Prop := latchInvariant b -> latchInvariant b'.

Definition onBuild {X} (R : Build -> Build -> Prop) (s s' : Build * X) : Prop :=
  R (fst s) (fst s').

(** Every run of [m] relates the state it starts in to the state it ends
    in. *)
Definition respects {S A} (R : S -> S -> Prop) (m : Eff S A) : Prop :=
  forall s, R s (snd (m s)).

(** Where [writeOutputFile] writes the code of a chunk, and the code it
    writes there when the source map goes to a file of its own. *)
Definition codePath `{C : Collaborators} (outputOptions : JsValue) (chunk : OutputChunk)
    : string :=
  resolve (orElse (get outputOptions "dir") (JsStr (dirname (get outputOptions "file"))))
          (fileName chunk).

Definition codeWithUrl `{C : Collaborators} (chunk : OutputChunk) : string :=
  default "undefined" (code chunk) +:+ "//# " +:+ SOURCEMAPPING_URL +:+ "=" +:+
  (basename (JsStr (fileName chunk)) +:+ ".map") +:+ newline.

(** The file system reporting on a write, and a call of [onwrite]. *)
Definition isCompletion (ev : Event) : Prop :=
  match ev with EvWritten _ | EvWriteFailed _ => True | _ => False end.

Definition isOnwrite (ev : Event) : Prop :=
  match ev with EvOnwrite _ _ => True | _ => False end.

(** In [evs], [late] occurs only after [early] has occurred. *)
Definition onlyAfter (early late : Event) (evs : list Event) : Prop :=
  forall pre post, evs = pre ++ late :: post -> early ∈ pre.

(** The state of the writes of a chunk whose source map goes to a file of
    its own, after the trace [base] of the two calls of [writeFile]: the
    events since are completions, then calls of [onwrite], then
    completions; the chain has called no hook while it waits, and has seen
    both writes completed when it calls one or finishes. *)
Definition chainInvariant (mapFile codeFile : string) (file : OutputFile)
    (base : list Event) (st : Build * Writes) : Prop :=
  exists completions hooks completions' task,
    trace (fst st) = base ++ completions ++ hooks ++ completions' /\
    Forall isCompletion completions /\ Forall isOnwrite hooks /\
    Forall isCompletion completions' /\
    issued (snd st) = [mapFile; codeFile] /\
    tasks (snd st) = [task] /\
    task_file task = file /\ task_code task = 1 /\ task_map task = Some 0 /\
    (resultOf 0 (completed (snd st)) = Some None ->
     EvWritten mapFile ∈ completions ++ completions') /\
    (resultOf 1 (completed (snd st)) = Some None ->
     EvWritten codeFile ∈ completions ++ completions') /\
    match task_stage task with
    | AwaitCode =>
        hooks = [] /\ completions' = [] /\ resultOf 1 (completed (snd st)) = None
    | AwaitMap =>
        hooks = [] /\ completions' = [] /\
        resultOf 1 (completed (snd st)) = Some None /\
        resultOf 0 (completed (snd st)) = None
    | Finished => EvWritten mapFile ∈ completions /\ EvWritten codeFile ∈ completions
    | Broken _ =>
        hooks <> [] -> EvWritten mapFile ∈ completions /\ EvWritten codeFile ∈ completions
    end.

(** The output formats that cannot be split into chunks. *)
Definition umdOrIife (outputOptions : JsValue) : bool :=
  strictEqStr (get outputOptions "format") "umd" ||
  strictEqStr (get outputOptions "format") "iife".

(** [file] and [dir] are both set. *)
Definition fileAndDir (outputOptions : JsValue) : bool :=
  typeofString (get outputOptions "file") && typeofString (get outputOptions "dir").

Definition chunkCount (bundle : OutputBundle) : nat :=
  length (List.filter (fun entry => negb (isOutputAsset (snd entry))) bundle).

Definition assetCount (bundle : OutputBundle) : nat :=
  length (List.filter (fun entry => isOutputAsset (snd entry)) bundle).

(** Concrete inputs, run in the environment of [Sample]. *)
Module Inputs.
Import Sample.

Definition env : Collaborators := collaborators PluginsAbsent (Resolves [entryChunk "main"]).

Definition legacyInput : JsValue :=
  JsObj {[ "input" := JsStr "main.js"; "transform" := JsFun "transform" ]}.

Definition noInput : InputOptions := {| io_props := ∅; io_plugins := [] |}.

Definition es6Output : JsValue := JsObj {[ "format" := JsStr "es6" ]}.

Definition noFormatOutput : JsValue := JsObj {[ "file" := JsStr "out.js" ]}.

Definition amdModuleIdOutput : JsValue :=
  JsObj {[ "format" := JsStr "amd"; "amd" := JsObj {[ "id" := JsStr "lib" ]};
           "moduleId" := JsStr "lib" ]}.

(** [preserveModules] together with [inlineDynamicImports], one entry. *)
Definition preserveInlineInput : JsValue :=
  JsObj {[ "input" := JsStr "main.js"; "preserveModules" := JsBool true;
           "inlineDynamicImports" := JsBool true ]}.

Definition plainChunk (file : string) (entry : bool) : OutputFile :=
  OutChunk {| fileName := file; isEntry := entry; imports := []; exports := [];
              modules := []; code := Some ("// " +:+ file); map := None |}.

(** A bundle in which an asset and a shared chunk come before the entry
    chunk. *)
Definition sharedFirstBundle : OutputBundle :=
  [ ("assets/logo.png", OutAsset "assets/logo.png" "PNG");
    ("dep.js", plainChunk "dep.js" false);
    ("main.js", plainChunk "main.js" true) ].

(** A graph that yields the shared chunk before the entry chunk. *)
Definition sharedFirstEnv : Collaborators :=
  collaborators PluginsAbsent (Resolves [sharedChunk "dep"; entryChunk "main"]).

Definition mainInput : JsValue := JsObj {[ "input" := JsStr "main.js" ]}.

Definition esDir : JsValue := JsObj {[ "format" := JsStr "es"; "dir" := JsStr "dist" ]}.

(** The state of a build of [main.js] with the given plugins, registry
    and chunks, as [rollup] leaves it. *)
Definition built (ps : list Plugin) (assets : Assets) (cs : list Chunk) : Build :=
  {| inputOptions := {| io_props := {[ "input" := JsStr "main.js" ]}; io_plugins := ps |};
     graph := {| plugins := ps; assetsById := assets; watcher := None |};
     chunks := cs;
     optimized := false;
     trace := [EvTimeStart "BUILD"; EvGraphBuild; EvTimeEnd "BUILD"] |}.

Definition oneChunk : Build := built [] [] [entryChunk "main"].

Definition twoChunks : Build := built [] [] [entryChunk "main"; sharedChunk "dep"].

Definition esFileAndDir : JsValue :=
  JsObj {[ "format" := JsStr "es"; "file" := JsStr "out.js"; "dir" := JsStr "dist" ]}.

Definition umdDir : JsValue := JsObj {[ "format" := JsStr "umd"; "dir" := JsStr "dist" ]}.

Definition umdFile : JsValue := JsObj {[ "format" := JsStr "umd"; "file" := JsStr "out.js" ]}.

Definition esFile : JsValue := JsObj {[ "format" := JsStr "es"; "file" := JsStr "out.js" ]}.

Definition logo : Asset :=
  {| asset_name := "logo.png"; asset_source := Some "PNG"; asset_fileName := None |}.

(** One chunk, and one asset emitted with its source during the build. *)
Definition oneChunkOneAsset : Build := built [] [("asset0", logo)] [entryChunk "main"].





Definition quietEnd : Plugin :=
  {| name := "quiet"; options := None; buildStart := None;
     buildEnd := Some (fun _ assets => (HookDone, assets));
     ongenerate := None; onwrite := None; generateBundle := None |}.


Definition optimizingInput : JsValue :=
  JsObj {[ "input" := JsStr "main.js"; "optimizeChunks" := JsBool true ]}.

Definition threeCalls : list Call :=
  [CallGenerate esDir; CallWrite esDir [(0, None)]; CallGenerate esDir].

(** An asset emitted without a source, and never given one. *)
Definition pending : Asset :=
  {| asset_name := "data.json"; asset_source := None; asset_fileName := None |}.

(** A plugin whose [buildStart] hook calls [emitAsset("data.json")]. *)
Definition emitter : Plugin :=
  {| name := "emitter"; options := None;
     buildStart := Some (fun assets => (HookDone, assets ++ [("asset0", pending)]));
     buildEnd := None; ongenerate := None; onwrite := None; generateBundle := None |}.

(** A plugin with a [generateBundle] hook that does nothing. *)
Definition bundler : Plugin :=
  {| name := "bundler"; options := None; buildStart := None; buildEnd := None;
     ongenerate := None; onwrite := None;
     generateBundle := Some (fun _ _ shared => (HookDone, shared)) |}.

Definition pluginEnv (ps : list Plugin) : Collaborators :=
  collaborators (PluginsMany ps) (Resolves [entryChunk "main"]).

Definition observer : Plugin :=
  {| name := "observer"; options := None; buildStart := None; buildEnd := None;
     ongenerate := None; onwrite := Some (fun _ _ => HookDone); generateBundle := None |}.

Definition mappedChunk : OutputChunk :=
  {| fileName := "main.js"; isEntry := true; imports := []; exports := []; modules := [];
     code := Some "export default 1;";
     map := Some {| map_toString := "{}"; map_toUrl := "data:," |} |}.

Definition esDirSourcemap : JsValue :=
  JsObj {[ "format" := JsStr "es"; "dir" := JsStr "dist"; "sourcemap" := JsBool true ]}.

(** The file system completes the code write (number 1) before the write
    of the source map (number 0). *)
Definition codeFirst : list (nat * option JsError) := [(1, None); (0, None)].

Definition observed : Build := built [observer] [] [entryChunk "main"].

End Inputs.

(** * Vocabulary of the further properties *)

(** The input options after every plugin's [options] hook has been applied,
    in the order of the plugins. *)
Definition hookedInputOptions `{C : Collaborators} (rawInputOptions : JsValue)
    : InputOptions :=
  foldl applyOptionHook (mergedInputOptions rawInputOptions)
        (io_plugins (mergedInputOptions rawInputOptions)).

Definition unknownOptionWarning (optionError : option string) : RollupWarning :=
  {| warn_code := "UNKNOWN_OPTION"; warn_message := default "" optionError;
     warn_deprecations := [] |}.

Definition deprecationWarning (deprecations : list Deprecation) : RollupWarning :=
  {| warn_code := "DEPRECATED_OPTIONS";
     warn_message :=
       "The following options have been renamed — please update your config: " +:+
       String.concat ", "
         ((fun option => dep_old option +:+ " -> " +:+ dep_new option) <$> deprecations);
     warn_deprecations := deprecations |}.

(** The warning for the renamed options, when there are any. *)
Definition deprecationWarnings (deprecations : list Deprecation) : list Event :=
  if 0 <? length deprecations then [EvWarn (deprecationWarning deprecations)] else [].

(** The warnings [getInputOptions] hands to [onwarn]. *)
Definition inputWarnings `{C : Collaborators} (rawInputOptions : JsValue) : list Event :=
  let merged := mergeOptions rawInputOptions DeprecateInput in
  (if truthyStr (merged_optionError merged)
   then [EvWarn (unknownOptionWarning (merged_optionError merged))] else []) ++
  deprecationWarnings (merged_deprecations merged).

(** More than one entry: an array or an object with more than one
    element. *)
Definition multipleEntries (input : JsValue) : bool :=
  match input with
  | JsArr elems => 1 <? length elems
  | JsObj props => 1 <? size props
  | _ => false
  end.

(** The result of [mergeOptions] for a generate call. *)
Definition mergedForOutput `{C : Collaborators} (inputOptions : InputOptions)
    (rawOutputOptions : JsValue) : MergedOptions :=
  mergeOptions (JsObj (consolidatedOutputOptions inputOptions rawOutputOptions))
               DeprecateOutput.

(** The output options pass [checkOutputOptions]. *)
Definition validOutputOptions (outputOptions : JsValue) : bool :=
  truthy (get outputOptions "format") &&
  negb (strictEqStr (get outputOptions "format") "es6") &&
  negb (truthy (get outputOptions "moduleId") && truthy (get outputOptions "amd")).

Definition isWarning (ev : Event) : Prop :=
  match ev with EvWarn _ => True | _ => False end.

(** The combinations of chunking options [getInputOptions] finds: under
    [inlineDynamicImports] the options [manualChunks] and [optimizeChunks]
    and more than one entry, otherwise under [preserveModules] the options
    [manualChunks] and [optimizeChunks]. *)
Definition chunkingConflict (inputOptions : InputOptions) : bool :=
  if truthy (opt inputOptions "inlineDynamicImports") then
    truthy (opt inputOptions "manualChunks") || truthy (opt inputOptions "optimizeChunks") ||
    multipleEntries (opt inputOptions "input")
  else if truthy (opt inputOptions "preserveModules") then
    truthy (opt inputOptions "manualChunks") || truthy (opt inputOptions "optimizeChunks")
  else false.

(** [inlineDynamicImports] is set and [input] is [null]: counting the
    entries throws. *)
Definition countsNullInput (inputOptions : InputOptions) : bool :=
  truthy (opt inputOptions "inlineDynamicImports") &&
  match opt inputOptions "input" with JsNull => true | _ => false end.

(** Events of the build phase. *)
Definition isBuildStartCall (ev : Event) : Prop :=
  match ev with EvBuildStart _ => True | _ => False end.

Definition isBuildEndCall (err : option JsError) (ev : Event) : Prop :=
  match ev with EvBuildEnd _ err' => err' = err | _ => False end.

(** The calls of [buildStart] a fan-out over [ps] makes when it gets to
    the end of [ps]. *)
Definition buildStartCalls (ps : list Plugin) : list Event :=
  omap (fun plugin => if hasHook (buildStart plugin)
                      then Some (EvBuildStart (name plugin)) else None) ps.

(** The [buildStart] hook of [plugin] throws [e]. *)
Definition buildStartThrows (plugin : Plugin) (e : JsError) : Prop :=
  exists hook assets, buildStart plugin = Some hook /\ fst (hook assets) = HookThrows e.



(** A step that only calls hooks: the trace grows by events of one kind,
    and all but the asset registry and the trace stay as they are. *)
Definition hooksOnly (P : Event -> Prop) (b b' : Build) : Prop :=
  (exists evs, trace b' = trace b ++ evs /\ Forall P evs) /\
  plugins (graph b') = plugins (graph b) /\
  inputOptions b' = inputOptions b /\
  chunks b' = chunks b /\
  optimized b' = optimized b.

(** The error a failing build rejects with: the failure of the [buildEnd]
    hooks when there is one, and [err] itself otherwise. *)
Definition rejectionAfter (ended : HookResult) (err : JsError) : JsError :=
  match ended with
  | HookDone => err
  | HookThrows e => e
  | HookRejects e => e
  end.

(** The entry the naming loop stores in the bundle for [chunk], named
    [chunkId]. *)
Definition skeletonOf `{C : Collaborators} (chunk : Chunk) (chunkId : string) : OutputChunk :=
  {| fileName := chunkId;
     isEntry := hasHook (entryModule chunk);
     imports := chunk_getImportIds chunk;
     exports := chunk_getExportNames chunk;
     modules := chunk_renderedModules chunk;
     code := None;
     map := None |}.

(** The bundle holds a chunk entry under the name of [chunk]; the entry
    has its code. *)
Definition namedIn (bundle : OutputBundle) (chunk : Chunk) : Prop :=
  exists outputChunk,
    bundleGet (id chunk) bundle = Some (OutChunk outputChunk) /\
    fileName outputChunk = id chunk.

Definition renderedIn (bundle : OutputBundle) (chunk : Chunk) : Prop :=
  exists outputChunk,
    bundleGet (id chunk) bundle = Some (OutChunk outputChunk) /\
    fileName outputChunk = id chunk /\
    is_Some (code outputChunk).

(** Every chunk entry of [bundle] is still a chunk entry of [bundle'],
    under the same file name, and has not lost its code. *)
Definition keepsChunks (bundle bundle' : OutputBundle) : Prop :=
  forall k outputChunk,
    bundleGet k bundle = Some (OutChunk outputChunk) ->
    exists outputChunk',
      bundleGet k bundle' = Some (OutChunk outputChunk') /\
      fileName outputChunk' = fileName outputChunk /\
      (is_Some (code outputChunk) -> is_Some (code outputChunk')).

(** The files of a bundle in the order of [Object.keys]. *)
Definition bundleFiles (outputBundle : OutputBundle) : list OutputFile :=
  omap (fun fileName => bundleGet fileName outputBundle) (objectKeys outputBundle).

(** Events of a write call: a write handed to the file system, and what
    follows it, the file system reporting or an [onwrite] hook called. *)
Definition isIssue (ev : Event) : Prop :=
  match ev with EvWriteFile _ _ => True | _ => False end.

Definition isProgress (ev : Event) : Prop := isCompletion ev \/ isOnwrite ev.

(** The trace grows by events of one kind. *)
Definition tracedBy (P : Event -> Prop) (b b' : Build) : Prop :=
  exists evs, trace b' = trace b ++ evs /\ Forall P evs.

(** Where [writeOutputFile] writes a file of the bundle. *)
Definition filePath `{C : Collaborators} (outputOptions : JsValue) (file : OutputFile)
    : string :=
  resolve (orElse (get outputOptions "dir") (JsStr (dirname (get outputOptions "file"))))
          (fileNameOf file).

(** A chain waits for the write of its own file, and has seen that write
    succeed once it is past it. *)
Definition taskInvariant `{C : Collaborators} (outputOptions : JsValue)
    (paths : list string) (done : list (nat * option JsError)) (task : WriteTask) : Prop :=
  paths !! task_code task = Some (filePath outputOptions (task_file task)) /\
  match task_stage task with
  | AwaitMap | Finished => resultOf (task_code task) done = Some None
  | AwaitCode | Broken _ => True
  end.

(** The state of the writes of a call that started with the trace
    [base]: every chain is as above, and every write that succeeded has
    been reported since. *)
Definition writesInvariant `{C : Collaborators} (outputOptions : JsValue)
    (base : list Event) (st : Build * Writes) : Prop :=
  Forall (taskInvariant outputOptions (issued (snd st)) (completed (snd st)))
         (tasks (snd st)) /\
  exists evs,
    trace (fst st) = base ++ evs /\
    forall w path, resultOf w (completed (snd st)) = Some None ->
                   issued (snd st) !! w = Some path ->
                   EvWritten path ∈ evs.

(** The chain of an asset. *)
Definition assetTask (task : WriteTask) : Prop := isOutputAsset (task_file task) = true.

(** The options the closures of a handle hold stay as they are; a step is
    idle when it leaves the options and the optimisation latch alone. *)
Definition sameOptions (b b' : Build) : Prop := inputOptions b' = inputOptions b.


(** ** Source maps in a write of many files *)

(** The file is a chunk whose source map goes to a file of its own. *)
Definition mapped (outputOptions : JsValue) (file : OutputFile) : bool :=
  match file with
  | OutChunk chunk =>
      match map chunk with
      | Some _ =>
          truthy (get outputOptions "sourcemap") &&
          negb (strictEqStr (get outputOptions "sourcemap") "inline")
      | None => false
      end
  | OutAsset _ _ => false
  end.

(** A call of [onwrite] for the file named [file]. *)
Definition isOnwriteOf (file : string) (ev : Event) : Prop :=
  match ev with EvOnwrite _ file' => file' = file | _ => False end.

(** The chain of a chunk whose source map goes to a file of its own knows
    the write of that file, and a chain that has finished has seen the
    write of its source map succeed. *)
Definition mapInvariant `{C : Collaborators} (outputOptions : JsValue)
    (paths : list string) (done : list (nat * option JsError)) (task : WriteTask) : Prop :=
  (mapped outputOptions (task_file task) = true ->
   exists w, task_map task = Some w /\
             paths !! w = Some (filePath outputOptions (task_file task) +:+ ".map")) /\
  (task_stage task = Finished ->
   forall w, task_map task = Some w -> resultOf w done = Some None).

(** The file of [files] a call of [onwrite] is made for has been
    reported written among [known], and its source map too when that
    goes to a file of its own. *)
Definition justifiedBy `{C : Collaborators} (outputOptions : JsValue)
    (files : list OutputFile) (known : list Event) (ev : Event) : Prop :=
  forall plugin f, ev = EvOnwrite plugin f ->
    exists file, file ∈ files /\ fileNameOf file = f /\
      EvWritten (filePath outputOptions file) ∈ known /\
      (mapped outputOptions file = true ->
       EvWritten (filePath outputOptions file +:+ ".map") ∈ known).

(** Every call of [onwrite] in [evs] comes after the reports it needs. *)
Definition hooksInvariant `{C : Collaborators} (outputOptions : JsValue)
    (files : list OutputFile) (evs : list Event) : Prop :=
  forall i ev, evs !! i = Some ev -> justifiedBy outputOptions files (take i evs) ev.

(** The state of the writes of [files], in a call that had issued its
    writes with the trace [base]. *)
Definition orderedWrites `{C : Collaborators} (outputOptions : JsValue)
    (files : list OutputFile) (base : list Event) (st : Build * Writes) : Prop :=
  Forall (taskInvariant outputOptions (issued (snd st)) (completed (snd st)))
         (tasks (snd st)) /\
  Forall (mapInvariant outputOptions (issued (snd st)) (completed (snd st)))
         (tasks (snd st)) /\
  task_file <$> tasks (snd st) = files /\
  exists evs,
    trace (fst st) = base ++ evs /\
    (forall w path, resultOf w (completed (snd st)) = Some None ->
                    issued (snd st) !! w = Some path ->
                    EvWritten path ∈ evs) /\
    hooksInvariant outputOptions files evs.

(** Further concrete inputs. *)
Module Cases.
Import Sample.

(** [base] with another [mergeOptions]. *)
Definition withMerge (base : Collaborators)
    (merge : JsValue -> DeprecateConfig -> MergedOptions) : Collaborators :=
  {| mergeOptions := merge;
     ensureArray := @ensureArray base;
     graph_build := @graph_build base;
     graph_getCache := @graph_getCache base;
     createAddons := @createAddons base;
     commondir := @commondir base;
     getExportMode := @getExportMode base;
     optimizeChunks := @optimizeChunks base;
     chunk_generateInternalExports := @chunk_generateInternalExports base;
     chunk_preRender := @chunk_preRender base;
     chunk_getImportIds := @chunk_getImportIds base;
     chunk_getExportNames := @chunk_getExportNames base;
     chunk_renderedModules := @chunk_renderedModules base;
     chunk_generateIdPreserveModules := @chunk_generateIdPreserveModules base;
     chunk_generateId := @chunk_generateId base;
     chunk_render := @chunk_render base;
     basename := @basename base;
     dirname := @dirname base;
     resolve := @resolve base;
     assetFileNameFor := @assetFileNameFor base |}.

(** A [mergeOptions] that finds an unknown option and a renamed one. *)
Definition fussyMerge (config : JsValue) (dc : DeprecateConfig) : MergedOptions :=
  {| merged_inputOptions := ownProps config;
     merged_plugins := PluginsAbsent;
     merged_outputOptions := [get config "output"];
     merged_deprecations := [{| dep_old := "entry"; dep_new := "input" |}];
     merged_optionError := Some "Unknown input option: foo" |}.

Definition fussyEnv : Collaborators := withMerge Inputs.env fussyMerge.

(** A [mergeOptions] that finds a renamed option only. *)
Definition renamingMerge (config : JsValue) (dc : DeprecateConfig) : MergedOptions :=
  {| merged_inputOptions := ownProps config;
     merged_plugins := PluginsAbsent;
     merged_outputOptions := [get config "output"];
     merged_deprecations := [{| dep_old := "dest"; dep_new := "file" |}];
     merged_optionError := None |}.

Definition renamingEnv : Collaborators := withMerge Inputs.env renamingMerge.

(** A plugin whose [options] hook sets [context], and one whose hook adds
    the deprecated [transform] option. *)
Definition contextPlugin : Plugin :=
  {| name := "context"; options := Some (fun props => Some (<["context" := JsStr "window"]> props));
     buildStart := None; buildEnd := None; ongenerate := None; onwrite := None;
     generateBundle := None |}.

Definition legacyPlugin : Plugin :=
  {| name := "legacy";
     options := Some (fun props => Some (<["transform" := JsFun "transform"]> props));
     buildStart := None; buildEnd := None; ongenerate := None; onwrite := None;
     generateBundle := None |}.

Definition hookEnv : Collaborators :=
  collaborators (PluginsMany [contextPlugin; legacyPlugin]) (Resolves [entryChunk "main"]).


Definition esOutput : JsValue := JsObj {[ "format" := JsStr "es" ]}.

Definition startError : JsError := newError "buildStart failed".

(** Plugins with both hooks of the build phase, whose [buildStart] hook
    throws, rejects, fulfils. *)
Definition throwingStart : Plugin :=
  {| name := "throwing"; options := None;
     buildStart := Some (fun assets => (HookThrows startError, assets));
     buildEnd := Some (fun _ assets => (HookDone, assets));
     ongenerate := None; onwrite := None; generateBundle := None |}.


Definition quietStart : Plugin :=
  {| name := "quiet"; options := None;
     buildStart := Some (fun assets => (HookDone, assets));
     buildEnd := Some (fun _ assets => (HookDone, assets));
     ongenerate := None; onwrite := None; generateBundle := None |}.

(** A build whose graph succeeds, with plugins [ps]. *)
Definition buildingEnv (ps : list Plugin) : Collaborators :=
  collaborators (PluginsMany ps) (Resolves [entryChunk "main"]).

Definition perfInput : JsValue :=
  JsObj {[ "input" := JsStr "main.js"; "perf" := JsBool true ]}.

Definition outFile : JsValue := JsObj {[ "format" := JsStr "es"; "file" := JsStr "out.js" ]}.

Definition plainAddons : Addons := {| intro := ""; outro := ""; banner := ""; footer := "" |}.

(** Two chunks with source maps, and a file system that completes the
    writes of the second chunk around those of the first. *)
Definition chunkA : OutputChunk :=
  {| fileName := "a.js"; isEntry := true; imports := []; exports := []; modules := [];
     code := Some "export default 1;";
     map := Some {| map_toString := "{}"; map_toUrl := "data:," |} |}.

Definition chunkB : OutputChunk :=
  {| fileName := "b.js"; isEntry := true; imports := []; exports := []; modules := [];
     code := Some "export default 2;";
     map := Some {| map_toString := "{}"; map_toUrl := "data:," |} |}.

Definition interleaved : list (nat * option JsError) :=
  [(3, None); (1, None); (0, None); (2, None)].

End Cases.

(** * Properties *)

(** ** Running [Eff] programs *)

Lemma run_bind {S A B} (m : Eff S A) (f : A -> Eff S B) (s : S) :
  (m ≫= f) s =
    match m s with
    | (Fulfilled a, s') => f a s'
    | (Failed e, s') => (Failed e, s')
    | (Pending, s') => (Pending, s')
    end.
Proof. reflexivity. Qed.

Lemma run_when_false {S} (m : Eff S unit) (s : S) : when false m s = (Fulfilled tt, s).
Proof. reflexivity. Qed.

Lemma run_when_true {S} (m : Eff S unit) (s : S) : when true m s = m s.
Proof. reflexivity. Qed.

Lemma run_ret {S A} (a : A) (s : S) : (mret a : Eff S A) s = (Fulfilled a, s).
Proof. reflexivity. Qed.

Lemma run_throw {S A} (e : JsError) (s : S) : (throw e : Eff S A) s = (Failed e, s).
Proof. reflexivity. Qed.

Lemma run_gets {S A} (f : S -> A) (s : S) : gets f s = (Fulfilled (f s), s).
Proof. reflexivity. Qed.

Lemma run_modify {S} (f : S -> S) (s : S) : modify f s = (Fulfilled tt, f s).
Proof. reflexivity. Qed.

Lemma run_emit (ev : Event) (b : Build) :
  emit ev b = (Fulfilled tt, setTrace (trace b ++ [ev]) b).
Proof. reflexivity. Qed.

Lemma run_emitT (ev : Event) (t : list Event) : emitT ev t = (Fulfilled tt, t ++ [ev]).
Proof. reflexivity. Qed.

Ltac eff_run :=
  repeat first
    [ rewrite run_bind | rewrite run_ret | rewrite run_throw | rewrite run_gets
    | rewrite run_modify | rewrite run_emit | rewrite run_emitT
    | rewrite run_when_true | rewrite run_when_false
    | progress unfold error | progress cbv beta iota zeta ].

(** ** Option checks *)

Section OptionChecks.
Context `{C : Collaborators}.

Lemma checkInputOptions_legacy {S} (options : InputOptions) (s : S) :
  hasLegacyOption options = true ->
  checkInputOptions options s =
    (Failed (newError
       "The `transform`, `load`, `resolveId` and `resolveExternal` options are deprecated in favour of a unified plugin API. See https://github.com/rollup/rollup/wiki/Plugins for details"), s).
Proof.
  unfold hasLegacyOption, checkInputOptions. intros ->. reflexivity.
Qed.

Lemma checkInputOptions_ok {S} (options : InputOptions) (s : S) :
  hasLegacyOption options = false ->
  checkInputOptions options s = (Fulfilled tt, s).
Proof.
  unfold hasLegacyOption, checkInputOptions. intros ->. reflexivity.
Qed.

(** Every way [checkOutputOptions] fails yields an error without a code. *)
Lemma checkOutputOptions_no_code {S} (options : JsValue) (s s' : S) (e : JsError) :
  checkOutputOptions options s = (Failed e, s') -> err_code e = None.
Proof.
  unfold checkOutputOptions.
  destruct (isNullish options); eff_run; [by intros [= <- _]|].
  destruct (strictEqStr (get options "format") "es6"); eff_run; [by intros [= <- _]|].
  destruct (truthy (get options "format")); cbn [negb]; eff_run; [|by intros [= <- _]].
  destruct (truthy (get options "moduleId")); eff_run; [|discriminate].
  destruct (truthy (get options "amd")); eff_run; [by intros [= <- _]|discriminate].
Qed.

Lemma checkOutputOptions_fails {S} (options : JsValue) (s : S) :
  strictEqStr (get options "format") "es6" = true \/
  truthy (get options "format") = false \/
  (truthy (get options "amd") = true /\ truthy (get options "moduleId") = true) ->
  exists e, checkOutputOptions options s = (Failed e, s).
Proof.
  intros H. unfold checkOutputOptions.
  destruct (isNullish options); eff_run; [eauto|].
  destruct (strictEqStr (get options "format") "es6"); eff_run; [eauto|].
  destruct (truthy (get options "format")); cbn [negb]; eff_run; [|eauto].
  destruct H as [H|[H|[-> ->]]]; [discriminate..|]. eff_run. eauto.
Qed.

Lemma addDeprecations_run (deprecations : list Deprecation) (t : list Event) :
  exists w, addDeprecations deprecations t = (Fulfilled tt, t ++ [EvWarn w]).
Proof. eexists. reflexivity. Qed.

Lemma normalizeOutputOptions_no_code (inputOptions : InputOptions) (raw : JsValue)
    (t t' : list Event) (e : JsError) :
  normalizeOutputOptions inputOptions raw t = (Failed e, t') -> err_code e = None.
Proof.
  unfold normalizeOutputOptions.
  destruct (truthy raw); cbn [negb]; eff_run; [|by intros [= <- _]].
  destruct (truthyStr _); eff_run; [by intros [= <- _]|].
  match goal with |- context [when ?c (addDeprecations ?d)] =>
    destruct c; eff_run; [destruct (addDeprecations_run d t) as [w ->]|]; eff_run end.
  all: match goal with |- context [checkOutputOptions ?o ?s] =>
         destruct (checkOutputOptions o s) as [[?|e'|] s''] eqn:Hc end;
       eff_run; try discriminate; intros [= <- _]; eapply checkOutputOptions_no_code; eauto.
Qed.

Lemma normalizeOutputOptions_fails (inputOptions : InputOptions) (raw : JsValue)
    (t : list Event) :
  let options := mergedOutputOptions inputOptions raw in
  strictEqStr (get options "format") "es6" = true \/
  truthy (get options "format") = false \/
  (truthy (get options "amd") = true /\ truthy (get options "moduleId") = true) ->
  exists e t', normalizeOutputOptions inputOptions raw t = (Failed e, t').
Proof.
  intros options H. unfold normalizeOutputOptions.
  destruct (truthy raw); cbn [negb]; eff_run; [|eauto].
  destruct (truthyStr _); eff_run; [eauto|].
  fold (mergedOutputOptions inputOptions raw). fold options.
  match goal with |- context [when ?c (addDeprecations ?d)] =>
    destruct c; eff_run; [destruct (addDeprecations_run d t) as [w ->]|]; eff_run end.
  all: match goal with |- context [checkOutputOptions ?o ?s] =>
         destruct (checkOutputOptions_fails o s H) as [e ->] end; eauto.
Qed.

End OptionChecks.

(** ** The precedence of the [output] sources (C1) *)

Lemma output_precedence_counterexample :
  let inputOptions :=
    {| io_props := {[ "output" := JsObj {[ "format" := JsStr "es" ]} ]}; io_plugins := [] |} in
  let rawOutputOptions := JsObj {[ "format" := JsStr "cjs" ]} in
  get (get (JsObj (consolidatedOutputOptions inputOptions rawOutputOptions)) "output") "format"
  <> get (JsObj (specOutputPrecedence inputOptions rawOutputOptions)) "format".
Proof. vm_compute. discriminate. Qed.

(** C1 (as amended): in the [output] object [normalizeOutputOptions] hands
    to [mergeOptions], a property of the input-level [output] takes
    precedence over the same property of the nested [.output] of the raw
    output options, which takes precedence over the top-level property of
    the raw output options. *)
Theorem output_precedence (inputOptions : InputOptions) (rawOutputOptions : JsValue) :
  exists merged : gmap string JsValue,
    consolidatedOutputOptions inputOptions rawOutputOptions !! "output" = Some (JsObj merged) /\
    forall k,
      merged !! k =
        match ownProps (opt inputOptions "output") !! k with
        | Some v => Some v
        | None =>
            match ownProps (get rawOutputOptions "output") !! k with
            | Some v => Some v
            | None => ownProps rawOutputOptions !! k
            end
        end.
Proof.
  eexists. split.
  - unfold consolidatedOutputOptions. apply lookup_singleton_eq.
  - intros k. unfold assign. rewrite !lookup_union, lookup_empty.
    destruct (ownProps (opt inputOptions "output") !! k),
      (ownProps (get rawOutputOptions "output") !! k),
      (ownProps rawOutputOptions !! k); reflexivity.
Qed.

(** ** The errors of option validation (C7) *)

Section ValidationErrors.
Context `{C : Collaborators}.

Lemma getInputOptions_legacy (raw : JsValue) (t : list Event) :
  hasLegacyOption (mergedInputOptions raw) = true ->
  failsWithoutCode (fst (getInputOptions raw t)).
Proof.
  intros H. unfold getInputOptions.
  destruct (truthy raw); cbn [negb]; eff_run; [|eexists; split; reflexivity].
  match goal with |- context [when ?c (emitT ?ev)] => destruct c; eff_run end.
  all: match goal with |- context [when ?c (addDeprecations ?d)] =>
         destruct c; unfold addDeprecations; eff_run end.
  all: rewrite (checkInputOptions_legacy (S := list Event)) by exact H;
    eff_run; eexists; split; reflexivity.
Qed.

End ValidationErrors.

Lemma option_validation_counterexample :
  ~ failsWithCode (fst (@getInputOptions Inputs.env Inputs.legacyInput []))
      "UNSUPPORTED_LEGACY_OPTION" /\
  ~ failsWithCode (fst (@normalizeOutputOptions Inputs.env Inputs.noInput Inputs.es6Output []))
      "FORMAT_DEPRECATED" /\
  ~ failsWithCode
      (fst (@normalizeOutputOptions Inputs.env Inputs.noInput Inputs.noFormatOutput []))
      "FORMAT_REQUIRED" /\
  ~ failsWithCode
      (fst (@normalizeOutputOptions Inputs.env Inputs.noInput Inputs.amdModuleIdOutput []))
      "CONFLICTING_OPTION".
Proof.
  repeat split; intros (e & He & Hcode); vm_compute in He;
    injection He as <-; discriminate Hcode.
Qed.

(** C7 (as amended): each of the four validation failures is a failure
    whose error carries no code: normalisation of the input options fails
    when one of [transform], [load], [resolveId], [resolveExternal] is set,
    normalisation of the output options fails when the format is ["es6"],
    when the format is absent, and when [amd] and [moduleId] are both set. *)
Theorem option_validation_failures_carry_no_code `{C : Collaborators}
    (rawInputOptions : JsValue) (inputOptions : InputOptions)
    (rawOutputOptions : JsValue) (t : list Event) :
  let outputOptions := mergedOutputOptions inputOptions rawOutputOptions in
  (hasLegacyOption (mergedInputOptions rawInputOptions) = true ->
   failsWithoutCode (fst (getInputOptions rawInputOptions t))) /\
  (strictEqStr (get outputOptions "format") "es6" = true ->
   failsWithoutCode (fst (normalizeOutputOptions inputOptions rawOutputOptions t))) /\
  (truthy (get outputOptions "format") = false ->
   failsWithoutCode (fst (normalizeOutputOptions inputOptions rawOutputOptions t))) /\
  (truthy (get outputOptions "amd") = true ->
   truthy (get outputOptions "moduleId") = true ->
   failsWithoutCode (fst (normalizeOutputOptions inputOptions rawOutputOptions t))).
Proof.
  intros outputOptions.
  assert (Hout : strictEqStr (get outputOptions "format") "es6" = true \/
                 truthy (get outputOptions "format") = false \/
                 (truthy (get outputOptions "amd") = true /\
                  truthy (get outputOptions "moduleId") = true) ->
                 failsWithoutCode
                   (fst (normalizeOutputOptions inputOptions rawOutputOptions t))).
  { intros H.
    destruct (normalizeOutputOptions_fails inputOptions rawOutputOptions t H)
      as (e & t' & He).
    exists e. rewrite He. split; [reflexivity|].
    eapply normalizeOutputOptions_no_code; eauto. }
  repeat split.
  - apply getInputOptions_legacy.
  - intros H. apply Hout. auto.
  - intros H. apply Hout. auto.
  - intros H1 H2. apply Hout. auto.
Qed.

Lemma option_validation_failures_witness :
  failsWithoutCode (fst (@getInputOptions Inputs.env Inputs.legacyInput [])) /\
  failsWithoutCode (fst (@normalizeOutputOptions Inputs.env Inputs.noInput Inputs.es6Output [])) /\
  failsWithoutCode
    (fst (@normalizeOutputOptions Inputs.env Inputs.noInput Inputs.noFormatOutput [])) /\
  failsWithoutCode
    (fst (@normalizeOutputOptions Inputs.env Inputs.noInput Inputs.amdModuleIdOutput [])).
Proof.
  repeat split.
  - apply (proj1 (@option_validation_failures_carry_no_code Inputs.env
                    Inputs.legacyInput Inputs.noInput Inputs.es6Output [])).
    reflexivity.
  - apply (proj1 (proj2 (@option_validation_failures_carry_no_code Inputs.env
                    Inputs.legacyInput Inputs.noInput Inputs.es6Output []))).
    reflexivity.
  - apply (proj1 (proj2 (proj2 (@option_validation_failures_carry_no_code Inputs.env
                    Inputs.legacyInput Inputs.noInput Inputs.noFormatOutput [])))).
    reflexivity.
  - apply (proj2 (proj2 (proj2 (@option_validation_failures_carry_no_code Inputs.env
                    Inputs.legacyInput Inputs.noInput Inputs.amdModuleIdOutput []))));
      reflexivity.
Defined.

(** ** Options forbidden under [preserveModules] (C4) *)

Section ForbiddenCombinations.
Context `{C : Collaborators}.

Lemma foldl_applyOptionHook_no_hooks (ps : list Plugin) (inputOptions : InputOptions) :
  Forall (fun plugin => options plugin = None) ps ->
  foldl applyOptionHook inputOptions ps = inputOptions.
Proof.
  induction 1 as [|plugin ps Hp _ IH]; [reflexivity|].
  cbn [foldl]. unfold applyOptionHook at 2. rewrite Hp. exact IH.
Qed.

(** What [getInputOptions] does once the options are merged and no plugin
    has an [options] hook. *)
Lemma getInputOptions_checks (raw : JsValue) (t : list Event) :
  let inputOptions := mergedInputOptions raw in
  truthy raw = true ->
  hasLegacyOption inputOptions = false ->
  Forall (fun plugin => options plugin = None) (io_plugins inputOptions) ->
  exists t',
    getInputOptions raw t =
      ((if truthy (opt inputOptions "inlineDynamicImports") then
          when (truthy (opt inputOptions "manualChunks"))
            (error (invalidOption
               (dquote +:+ "manualChunks" +:+ dquote +:+
                " option is not supported for inlineDynamicImports.")));;
          when (truthy (opt inputOptions "optimizeChunks"))
            (error (invalidOption
               (dquote +:+ "optimizeChunks" +:+ dquote +:+
                " option is not supported for inlineDynamicImports.")));;
          multiple ← multipleInputs (opt inputOptions "input");
          when multiple
            (error (invalidOption
               "Multiple inputs are not supported for inlineDynamicImports."))
        else if truthy (opt inputOptions "preserveModules") then
          when (truthy (opt inputOptions "inlineDynamicImports"))
            (error (invalidOption
               "preserveModules does not support the inlineDynamicImports option."));;
          when (truthy (opt inputOptions "manualChunks"))
            (error (invalidOption
               "preserveModules does not support the manualChunks option."));;
          when (truthy (opt inputOptions "optimizeChunks"))
            (error (invalidOption
               "preserveModules does not support the optimizeChunks option."))
        else mret tt);;
       mret inputOptions) t'.
Proof.
  intros inputOptions Hraw Hlegacy Hhooks. unfold getInputOptions.
  rewrite Hraw. cbn [negb]. eff_run.
  set (t1 := snd (when (truthyStr (merged_optionError (mergeOptions raw DeprecateInput)))
                    (emitT (EvWarn {| warn_code := "UNKNOWN_OPTION";
                                      warn_message := default "" (merged_optionError
                                                        (mergeOptions raw DeprecateInput));
                                      warn_deprecations := [] |})) t)).
  set (t2 := snd (when (0 <? length (merged_deprecations (mergeOptions raw DeprecateInput)))
                    (addDeprecations (merged_deprecations
                                        (mergeOptions raw DeprecateInput))) t1)).
  exists t2. subst t2 t1.
  destruct (truthyStr _); eff_run;
    (destruct (0 <? length _); unfold addDeprecations; eff_run);
    (rewrite (checkInputOptions_ok (S := list Event)) by exact Hlegacy); eff_run;
    cbn [io_props io_plugins snd];
    (rewrite foldl_applyOptionHook_no_hooks by exact Hhooks);
    fold (mergedInputOptions raw); fold inputOptions; reflexivity.
Qed.

End ForbiddenCombinations.

(** C4 (the code at the failing input): when [preserveModules] and
    [inlineDynamicImports] are both set, with a single entry and neither
    [manualChunks] nor [optimizeChunks], [getInputOptions] returns the
    options instead of failing with [INVALID_OPTION]: the branch for
    [inlineDynamicImports] is taken and the check under [preserveModules]
    is never reached. *)
Theorem preserveModules_with_inlineDynamicImports_is_accepted `{C : Collaborators}
    (rawInputOptions : JsValue) (t : list Event) :
  let inputOptions := mergedInputOptions rawInputOptions in
  truthy rawInputOptions = true ->
  hasLegacyOption inputOptions = false ->
  Forall (fun plugin => options plugin = None) (io_plugins inputOptions) ->
  truthy (opt inputOptions "preserveModules") = true ->
  truthy (opt inputOptions "inlineDynamicImports") = true ->
  truthy (opt inputOptions "manualChunks") = false ->
  truthy (opt inputOptions "optimizeChunks") = false ->
  typeofString (opt inputOptions "input") = true ->
  exists t', getInputOptions rawInputOptions t = (Fulfilled inputOptions, t').
Proof.
  intros inputOptions Hraw Hlegacy Hhooks _ Hinline Hmanual Hoptimize Hinput.
  destruct (getInputOptions_checks rawInputOptions t Hraw Hlegacy Hhooks) as [t' ->].
  exists t'. fold inputOptions. rewrite Hinline, Hmanual, Hoptimize.
  destruct (opt inputOptions "input"); try discriminate Hinput. reflexivity.
Qed.

Lemma preserveModules_with_inlineDynamicImports_witness :
  exists t',
    @getInputOptions Inputs.env Inputs.preserveInlineInput [] =
      (Fulfilled (@mergedInputOptions Inputs.env Inputs.preserveInlineInput), t').
Proof.
  apply (@preserveModules_with_inlineDynamicImports_is_accepted Inputs.env
           Inputs.preserveInlineInput []); try reflexivity.
  constructor.
Defined.

(** The two other combinations are rejected, whichever branch is taken. *)
Lemma preserveModules_rejects_manualChunks_optimizeChunks `{C : Collaborators}
    (rawInputOptions : JsValue) (t : list Event) :
  let inputOptions := mergedInputOptions rawInputOptions in
  truthy rawInputOptions = true ->
  hasLegacyOption inputOptions = false ->
  Forall (fun plugin => options plugin = None) (io_plugins inputOptions) ->
  truthy (opt inputOptions "preserveModules") = true ->
  truthy (opt inputOptions "manualChunks") || truthy (opt inputOptions "optimizeChunks") = true ->
  failsWithCode (fst (getInputOptions rawInputOptions t)) "INVALID_OPTION".
Proof.
  intros inputOptions Hraw Hlegacy Hhooks Hpreserve Hany.
  destruct (getInputOptions_checks rawInputOptions t Hraw Hlegacy Hhooks) as [t' ->].
  fold inputOptions. rewrite Hpreserve.
  destruct (truthy (opt inputOptions "inlineDynamicImports"));
    destruct (truthy (opt inputOptions "manualChunks"));
    destruct (truthy (opt inputOptions "optimizeChunks"));
    try discriminate Hany; eff_run; eexists; split; reflexivity.
Qed.

(** ** The order of the generate result (C3) *)

(** C3 (the code at the failing input): the comparison function of
    [createOutput] returns nothing for a shared chunk followed by an entry
    chunk, where it returns -1 for the two swapped; sorted with it, a bundle
    that lists a shared chunk before an entry chunk keeps the shared chunk
    first, and so does the [output] of a generate call on a graph that
    yields the shared chunk first. *)
Theorem createOutput_leaves_shared_chunk_before_entry :
  let dep := Inputs.plainChunk "dep.js" false in
  let main := Inputs.plainChunk "main.js" true in
  compareOutput dep main = JsUndefined /\
  compareOutput main dep = JsNum (-1) /\
  output (createOutput Inputs.sharedFirstBundle) =
    [dep; main; OutAsset "assets/logo.png" "PNG"] /\
  exists rb t dep' main' b',
    @rollup Inputs.sharedFirstEnv Inputs.mainInput None = (Fulfilled rb, t) /\
    @build_generate Inputs.sharedFirstEnv Inputs.esDir (state rb) =
      (Fulfilled {| output := [OutChunk dep'; OutChunk main'] |}, b') /\
    isEntry dep' = false /\ isEntry main' = true.
Proof.
  repeat split; try reflexivity.
  do 5 eexists. repeat split; vm_compute; reflexivity.
Qed.

(** ** The checks of [generate] (C8) *)

Lemma run_liftTrace {A} (m : Eff (list Event) A) (b : Build) (o : Outcome A)
    (t : list Event) :
  m (trace b) = (o, t) -> liftTrace m b = (o, setTrace t b).
Proof. unfold liftTrace. intros ->. reflexivity. Qed.

(** C8: once the output options of a generate call are normalised,
    [generate] fails with [INVALID_OPTION] when [file] and [dir] are both
    set, and when the build has more than one chunk and the format is
    [umd] or [iife]; with exactly one chunk, a [umd] or [iife] call that
    does not set both [file] and [dir] passes the two checks and goes on
    with the body of [generate]. *)
Theorem generate_checks `{C : Collaborators} (rawOutputOptions : JsValue)
    (isWrite : bool) (b : Build) (outputOptions : JsValue) (t : list Event) :
  normalizeOutputOptions (inputOptions b) rawOutputOptions (trace b)
    = (Fulfilled outputOptions, t) ->
  (fileAndDir outputOptions = true ->
   failsWithCode (fst (generate rawOutputOptions isWrite b)) "INVALID_OPTION") /\
  (1 < length (chunks b) -> umdOrIife outputOptions = true ->
   failsWithCode (fst (generate rawOutputOptions isWrite b)) "INVALID_OPTION") /\
  (length (chunks b) = 1 -> umdOrIife outputOptions = true ->
   fileAndDir outputOptions = false ->
   generate rawOutputOptions isWrite b
     = generateOutput (inputOptions b) outputOptions isWrite (setTrace t b)).
Proof.
  intros Hnorm. unfold generate, fileAndDir, umdOrIife. eff_run.
  rewrite (run_liftTrace _ _ _ _ Hnorm). eff_run.
  destruct (typeofString (get outputOptions "file") && typeofString (get outputOptions "dir"));
    eff_run; cbn [chunks setTrace].
  - repeat split; try discriminate; intros; eexists; split; reflexivity.
  - repeat split; try discriminate.
    + intros Hlen ->. apply Nat.ltb_lt in Hlen. rewrite Hlen. cbn [andb]. eff_run.
      eexists; split; reflexivity.
    + intros Hlen _ _. rewrite Hlen. cbn [Nat.ltb Nat.leb andb]. eff_run. reflexivity.
Qed.

Lemma generate_checks_witness :
  failsWithCode (fst (@generate Inputs.env Inputs.esFileAndDir false Inputs.oneChunk))
    "INVALID_OPTION" /\
  failsWithCode (fst (@generate Inputs.env Inputs.umdDir false Inputs.twoChunks))
    "INVALID_OPTION" /\
  @generate Inputs.env Inputs.umdFile false Inputs.oneChunk
    = @generateOutput Inputs.env (inputOptions Inputs.oneChunk) Inputs.umdFile false
        Inputs.oneChunk.
Proof.
  split; [|split].
  - apply (proj1 (@generate_checks Inputs.env Inputs.esFileAndDir false Inputs.oneChunk
                    Inputs.esFileAndDir (trace Inputs.oneChunk) eq_refl)).
    reflexivity.
  - apply (proj1 (proj2 (@generate_checks Inputs.env Inputs.umdDir false Inputs.twoChunks
                           Inputs.umdDir (trace Inputs.twoChunks) eq_refl))).
    + cbn. lia.
    + reflexivity.
  - apply (proj2 (proj2 (@generate_checks Inputs.env Inputs.umdFile false Inputs.oneChunk
                           Inputs.umdFile (trace Inputs.oneChunk) eq_refl)));
      reflexivity.
Defined.

(** A single-chunk UMD build generates its bundle. *)
Example generate_single_chunk_umd :
  exists bundle b',
    @generate Inputs.env Inputs.umdFile false Inputs.oneChunk = (Fulfilled bundle, b') /\
    List.map fst bundle = ["out.js"].
Proof. do 2 eexists. split; vm_compute; reflexivity. Qed.

(** ** The single-file checks of [write] (C10) *)

Lemma length_insertIndex (n : N) (k : string) (sorted : list (N * string)) :
  length (insertIndex n k sorted) = S (length sorted).
Proof.
  induction sorted as [|[m k'] rest IH]; [reflexivity|].
  cbn [insertIndex]. destruct (n <? m)%N; cbn [length]; [reflexivity|].
  by rewrite IH.
Qed.

Lemma length_indexKeys_nameKeys (keys : list string) :
  length (indexKeys keys) + length (nameKeys keys) = length keys.
Proof.
  induction keys as [|k rest IH]; [reflexivity|].
  cbn [indexKeys nameKeys]. destruct (arrayIndex k); cbn [length].
  - rewrite length_insertIndex. cbn. by rewrite IH.
  - rewrite <- IH. lia.
Qed.

Lemma length_objectKeys (bundle : OutputBundle) :
  length (objectKeys bundle) = length bundle.
Proof.
  unfold objectKeys.
  rewrite length_app, !length_map.
  rewrite length_indexKeys_nameKeys. apply length_map.
Qed.

Lemma chunkCount_assetCount (bundle : OutputBundle) :
  chunkCount bundle + assetCount bundle = length bundle.
Proof.
  unfold chunkCount, assetCount.
  induction bundle as [|[k file] rest IH]; [reflexivity|].
  cbn [List.filter snd]. destruct (isOutputAsset file); cbn [negb length]; lia.
Qed.

(** C10: the single-file checks of [write] count every entry of the
    bundle.  A write call that gets to [generate] and whose bundle holds
    exactly one chunk and at least one asset fails with [INVALID_OPTION]
    when [file] is set or [sourcemapFile] is set, before anything is
    written. *)
Theorem write_counts_assets_as_files `{C : Collaborators} (outputOptions : JsValue)
    (schedule : list (nat * option JsError)) (b b' : Build) (result : OutputBundle) :
  truthy outputOptions = true ->
  truthy (get outputOptions "dir") || truthy (get outputOptions "file") = true ->
  generate outputOptions true b = (Fulfilled result, b') ->
  chunkCount result = 1 ->
  1 <= assetCount result ->
  typeofString (get outputOptions "file") = true \/
  truthy (get outputOptions "sourcemapFile") = true ->
  failsWithCode (fst (build_write outputOptions schedule b)) "INVALID_OPTION" /\
  snd (build_write outputOptions schedule b) = b'.
Proof.
  intros Hopts Hdest Hgen Hchunk Hasset Hfile.
  unfold build_write. rewrite Hopts.
  apply orb_true_iff in Hdest.
  assert (Hmissing : (negb true || (negb (truthy (get outputOptions "dir")) &&
                      negb (truthy (get outputOptions "file")))) = false).
  { destruct Hdest as [-> | ->]; cbn; [reflexivity|]. apply andb_false_r. }
  rewrite Hmissing. eff_run. rewrite Hgen. eff_run.
  assert (Hlen : (1 <? length (objectKeys result)) = true).
  { apply Nat.ltb_lt. rewrite length_objectKeys.
    pose proof (chunkCount_assetCount result). lia. }
  rewrite Hlen. eff_run.
  destruct (truthy (get outputOptions "sourcemapFile")); eff_run.
  - split; [eexists; split; reflexivity | reflexivity].
  - destruct Hfile as [-> | ?]; [|discriminate]. eff_run.
    split; [eexists; split; reflexivity | reflexivity].
Qed.

Lemma write_counts_assets_witness :
  exists b',
    failsWithCode (fst (@build_write Inputs.env Inputs.esFile [] Inputs.oneChunkOneAsset))
      "INVALID_OPTION" /\
    snd (@build_write Inputs.env Inputs.esFile [] Inputs.oneChunkOneAsset) = b'.
Proof.
  eexists.
  eapply (@write_counts_assets_as_files Inputs.env Inputs.esFile []
            Inputs.oneChunkOneAsset).
  - reflexivity.
  - reflexivity.
  - vm_compute. reflexivity.
  - reflexivity.
  - vm_compute. lia.
  - left. reflexivity.
Defined.

(** ** [buildEnd] after a failed build (C2) *)

Section BuildEnd.
Context `{C : Collaborators}.

Lemma callBuildEnd_plugins (err : option JsError) (plugin : Plugin) (b : Build) :
  plugins (graph (snd (callBuildEnd err plugin b))) = plugins (graph b).
Proof.
  unfold callBuildEnd. destruct (buildEnd plugin) as [hook|]; [|reflexivity].
  destruct (hook err (assetsById (graph b))). reflexivity.
Qed.




End BuildEnd.

Section BuildFailure.
Context `{C : Collaborators}.


End BuildFailure.




(** ** The optimisation latch (C6) *)

Section Respects.
Context {S : Type} (R : S -> S -> Prop).
Hypothesis R_refl : forall s, R s s.
Hypothesis R_trans : forall s1 s2 s3, R s1 s2 -> R s2 s3 -> R s1 s3.

Lemma respects_ret {A} (a : A) : respects R (mret a : Eff S A).
Proof using R_refl. intros s. apply R_refl. Qed.

Lemma respects_throw {A} (e : JsError) : respects R (throw e : Eff S A).
Proof using R_refl. intros s. apply R_refl. Qed.

Lemma respects_error {A} (e : JsError) : respects R (error e : Eff S A).
Proof using R_refl. intros s. apply R_refl. Qed.

Lemma respects_gets {A} (f : S -> A) : respects R (gets f).
Proof using R_refl. intros s. apply R_refl. Qed.

Lemma respects_settle {A} (o : Outcome A) : respects R (settle o : Eff S A).
Proof using R_refl. intros s. apply R_refl. Qed.

Lemma respects_await {A} (p : Settled A) : respects R (await p : Eff S A).
Proof using R_refl. destruct p; intros s; apply R_refl. Qed.

Lemma respects_modify (f : S -> S) : (forall s, R s (f s)) -> respects R (modify f).
Proof. intros H s. apply H. Qed.

(** A bind whose first step is known at the state at hand. *)
Lemma step_bind {A B} (m : Eff S A) (f : A -> Eff S B) (s : S) :
  R s (snd (m s)) -> (forall a, respects R (f a)) -> R s (snd ((m ≫= f) s)).
Proof using R_trans.
  intros Hm Hf. rewrite run_bind.
  destruct (m s) as [[a|e|] s'] eqn:Hms; cbn [snd] in *; [|assumption..].
  eapply R_trans; [exact Hm|]. apply Hf.
Qed.

Lemma respects_bind {A B} (m : Eff S A) (f : A -> Eff S B) :
  respects R m -> (forall a, respects R (f a)) -> respects R (m ≫= f).
Proof using R_trans. intros Hm Hf s. apply step_bind; [apply Hm | exact Hf]. Qed.

Lemma respects_when (c : bool) (m : Eff S unit) :
  respects R m -> respects R (when c m).
Proof using R_refl. intros Hm. destruct c; [exact Hm|]. intros s. apply R_refl. Qed.

Lemma respects_attempt {A} (m : Eff S A) : respects R m -> respects R (attempt m).
Proof.
  intros Hm s. specialize (Hm s). unfold attempt.
  destruct (m s) as [[a|e|] s']; exact Hm.
Qed.

Lemma related_promiseAllFrom (calls : list (S -> HookResult * S))
    (rejected : option JsError) (s : S) :
  Forall (fun call => forall s, R s (snd (call s))) calls ->
  R s (snd (promiseAllFrom calls rejected s)).
Proof using R_refl R_trans.
  intros Hcalls. revert rejected s.
  induction Hcalls as [|call calls Hcall _ IH]; intros rejected s.
  - cbn. apply R_refl.
  - cbn [promiseAllFrom]. specialize (Hcall s).
    destruct (call s) as [[|e|e] s']; cbn [snd] in *;
      [eapply R_trans; [exact Hcall | apply IH] | exact Hcall
      | eapply R_trans; [exact Hcall | apply IH]].
Qed.

Lemma related_promiseAll (calls : list (S -> HookResult * S)) (s : S) :
  Forall (fun call => forall s, R s (snd (call s))) calls ->
  R s (snd (promiseAll calls s)).
Proof using R_refl R_trans. apply related_promiseAllFrom. Qed.

Lemma respects_awaitHooks (fanOut : S -> HookResult * S) :
  (forall s, R s (snd (fanOut s))) -> respects R (awaitHooks fanOut).
Proof.
  intros H s. specialize (H s). unfold awaitHooks.
  destruct (fanOut s) as [[|e|e] s']; exact H.
Qed.

Lemma related_foldl {X} (f : S -> X -> S) (xs : list X) (s : S) :
  (forall s x, R s (f s x)) -> R s (foldl f s xs).
Proof using R_refl R_trans.
  intros Hf. revert s. induction xs as [|x xs IH]; intros s; cbn [foldl].
  - apply R_refl.
  - eapply R_trans; [apply Hf | apply IH].
Qed.

End Respects.

Lemma respects_weaken {S A} (R1 R2 : S -> S -> Prop) (m : Eff S A) :
  (forall s s', R1 s s' -> R2 s s') -> respects R1 m -> respects R2 m.
Proof. intros Hsub Hm s. apply Hsub, Hm. Qed.

Lemma optimizeRuns_app (t t' : list Event) :
  optimizeRuns (t ++ t') = optimizeRuns t + optimizeRuns t'.
Proof. unfold optimizeRuns. by rewrite List.filter_app, length_app. Qed.

Lemma optimizeRuns_snoc (t : list Event) (ev : Event) :
  isOptimizeChunks ev = false -> optimizeRuns (t ++ [ev]) = optimizeRuns t.
Proof.
  intros Hev. rewrite optimizeRuns_app. unfold optimizeRuns at 2. cbn.
  rewrite Hev. cbn. lia.
Qed.

Lemma sameRuns_refl (t : list Event) : sameRuns t t.
Proof. reflexivity. Qed.

Lemma sameRuns_trans (t1 t2 t3 : list Event) :
  sameRuns t1 t2 -> sameRuns t2 t3 -> sameRuns t1 t3.
Proof. unfold sameRuns. congruence. Qed.

Lemma sameLatch_refl (b : Build) : sameLatch b b.
Proof. split; reflexivity. Qed.

Lemma sameLatch_trans (b1 b2 b3 : Build) :
  sameLatch b1 b2 -> sameLatch b2 b3 -> sameLatch b1 b3.
Proof. unfold sameLatch. intros [? ?] [? ?]. split; congruence. Qed.

Lemma keepsLatch_refl (b : Build) : keepsLatch b b.
Proof. intros H. exact H. Qed.

Lemma keepsLatch_trans (b1 b2 b3 : Build) :
  keepsLatch b1 b2 -> keepsLatch b2 b3 -> keepsLatch b1 b3.
Proof. unfold keepsLatch. auto. Qed.

Lemma sameLatch_keepsLatch (b b' : Build) : sameLatch b b' -> keepsLatch b b'.
Proof. unfold sameLatch, keepsLatch, latchInvariant. intros [-> ->]. auto. Qed.

Lemma onBuild_refl {X} (R : Build -> Build -> Prop) :
  (forall b, R b b) -> forall s : Build * X, onBuild R s s.
Proof. intros H s. apply H. Qed.

Lemma onBuild_trans {X} (R : Build -> Build -> Prop) :
  (forall b1 b2 b3, R b1 b2 -> R b2 b3 -> R b1 b3) ->
  forall s1 s2 s3 : Build * X, onBuild R s1 s2 -> onBuild R s2 s3 -> onBuild R s1 s3.
Proof. intros H s1 s2 s3. apply H. Qed.

(** Steps on the trace alone. *)
Ltac quiet_trace :=
  repeat first
    [ apply (respects_bind sameRuns sameRuns_trans)
    | apply (respects_ret sameRuns sameRuns_refl)
    | apply (respects_throw sameRuns sameRuns_refl)
    | apply (respects_error sameRuns sameRuns_refl)
    | apply (respects_when sameRuns sameRuns_refl)
    | match goal with
      | |- forall _, respects _ _ => intro
      | |- respects _ (if ?c then _ else _) => destruct c
      end ].

(** Steps on the state of a build that leave the latch alone. *)
Ltac quiet_build :=
  repeat first
    [ apply (respects_bind sameLatch sameLatch_trans)
    | apply (respects_ret sameLatch sameLatch_refl)
    | apply (respects_throw sameLatch sameLatch_refl)
    | apply (respects_error sameLatch sameLatch_refl)
    | apply (respects_gets sameLatch sameLatch_refl)
    | apply (respects_settle sameLatch sameLatch_refl)
    | apply (respects_await sameLatch sameLatch_refl)
    | apply (respects_when sameLatch sameLatch_refl)
    | match goal with
      | |- forall _, respects _ _ => intro
      | |- respects _ (if ?c then _ else _) => destruct c
      end ].

Section Latch.
Context `{C : Collaborators}.

Lemma emitT_quiet (ev : Event) :
  isOptimizeChunks ev = false -> respects sameRuns (emitT ev).
Proof. intros Hev t. cbn. by apply optimizeRuns_snoc. Qed.

Lemma addDeprecations_quiet (deprecations : list Deprecation) :
  respects sameRuns (addDeprecations deprecations).
Proof. apply emitT_quiet. reflexivity. Qed.

Lemma checkInputOptions_quiet (options : InputOptions) :
  respects sameRuns (checkInputOptions options).
Proof. unfold checkInputOptions. quiet_trace. Qed.

Lemma checkOutputOptions_quiet (options : JsValue) :
  respects sameRuns (checkOutputOptions options).
Proof. unfold checkOutputOptions. quiet_trace. Qed.

Lemma multipleInputs_quiet (input : JsValue) :
  respects sameRuns (multipleInputs input).
Proof. destruct input; cbn [multipleInputs]; quiet_trace. Qed.

Lemma getInputOptions_quiet (raw : JsValue) : respects sameRuns (getInputOptions raw).
Proof.
  unfold getInputOptions. cbv zeta. quiet_trace;
    first [ by apply emitT_quiet | apply addDeprecations_quiet
          | apply checkInputOptions_quiet | apply multipleInputs_quiet ].
Qed.

Lemma normalizeOutputOptions_quiet (inputOptions : InputOptions) (raw : JsValue) :
  respects sameRuns (normalizeOutputOptions inputOptions raw).
Proof.
  unfold normalizeOutputOptions. cbv zeta. quiet_trace;
    first [ apply addDeprecations_quiet | apply checkOutputOptions_quiet ].
Qed.

Lemma emit_quiet (ev : Event) :
  isOptimizeChunks ev = false -> respects sameLatch (emit ev).
Proof. intros Hev b. split; cbn; [by apply optimizeRuns_snoc | reflexivity]. Qed.

Lemma liftTrace_quiet {A} (m : Eff (list Event) A) :
  respects sameRuns m -> respects sameLatch (liftTrace m).
Proof.
  intros Hm b. specialize (Hm (trace b)). unfold liftTrace.
  destruct (m (trace b)) as [o t]. split; [exact Hm | reflexivity].
Qed.

Lemma graph_finaliseAssets_quiet (assetFileNames : JsValue) :
  respects sameLatch (graph_finaliseAssets assetFileNames).
Proof.
  intros b. unfold graph_finaliseAssets.
  destruct (finaliseAll _ _ _). split; reflexivity.
Qed.

Lemma shareAssets_quiet (assets : Assets) (b : Build) : sameLatch b (shareAssets assets b).
Proof. split; reflexivity. Qed.

Lemma callOngenerate_quiet (outputOptions : JsValue) (outputChunk : OutputChunk)
    (plugin : Plugin) (b : Build) :
  sameLatch b (snd (callOngenerate outputOptions outputChunk plugin b)).
Proof.
  unfold callOngenerate. destruct (ongenerate plugin); [|apply sameLatch_refl].
  split; cbn; [by apply optimizeRuns_snoc | reflexivity].
Qed.

Lemma renderChunk_quiet (outputOptions : JsValue) (addons : Addons) (chunk : Chunk)
    (st : Build * OutputBundle) :
  onBuild sameLatch st (snd (renderChunk outputOptions addons chunk st)).
Proof.
  destruct st as [b outputBundle]. unfold renderChunk, onBuild.
  destruct (chunk_render _ _ _) as [rendered|e]; [|apply sameLatch_refl].
  destruct (bundleGet _ _) as [[|outputChunk]|]; try apply sameLatch_refl.
  match goal with |- context [promiseAll ?calls b] =>
    assert (H : sameLatch b (snd (promiseAll calls b)));
    [|destruct (promiseAll calls b) as [[|e|e] b']; exact H] end.
  apply (related_promiseAll sameLatch sameLatch_refl sameLatch_trans).
  apply Forall_fmap, Forall_true. intros plugin s. apply callOngenerate_quiet.
Qed.

Lemma callGenerateBundle_quiet (outputOptions : JsValue) (isWrite : bool)
    (plugin : Plugin) (st : Build * (OutputBundle * Assets)) :
  onBuild sameLatch st (snd (callGenerateBundle outputOptions isWrite plugin st)).
Proof.
  unfold callGenerateBundle, onBuild.
  destruct (generateBundle plugin) as [hook|]; [|apply sameLatch_refl].
  destruct st as [b shared]. destruct (hook _ _ _) as [r shared'].
  split; cbn; [by apply optimizeRuns_snoc | reflexivity].
Qed.

Lemma runGenerateBundle_quiet (outputOptions : JsValue) (isWrite : bool)
    (assetFileNames : JsValue) (outputBundle : OutputBundle) :
  respects sameLatch (runGenerateBundle outputOptions isWrite assetFileNames outputBundle).
Proof.
  unfold runGenerateBundle. quiet_build. intros b.
  match goal with |- context [promiseAll ?calls ?st] =>
    assert (H : onBuild sameLatch st (snd (promiseAll calls st))) end.
  { apply (related_promiseAll _ (onBuild_refl _ sameLatch_refl)
                                 (onBuild_trans _ sameLatch_trans)).
    apply Forall_fmap, Forall_true. intros plugin st.
    apply callGenerateBundle_quiet. }
  unfold onBuild in H. cbn [fst] in H.
  destruct (promiseAll _ _) as [[|e|e] [b' [outputBundle' assets']]]; cbn [fst snd] in *.
  - destruct (finalisePending _ _ _) as [[?|?|] [? ?]]; cbn [snd];
      (eapply sameLatch_trans; [exact H | apply shareAssets_quiet]).
  - eapply sameLatch_trans; [exact H | apply shareAssets_quiet].
  - eapply sameLatch_trans; [exact H | apply shareAssets_quiet].
Qed.

End Latch.

(** Steps that keep the latch in agreement with the trace. *)
Ltac latch_build leaf :=
  repeat lazymatch goal with
    | |- forall _, respects _ _ => intro
    | |- respects _ (_ ≫= _) => apply (respects_bind keepsLatch keepsLatch_trans)
    | |- respects _ (mret _) => apply (respects_ret keepsLatch keepsLatch_refl)
    | |- respects _ (throw _) => apply (respects_throw keepsLatch keepsLatch_refl)
    | |- respects _ (error _) => apply (respects_error keepsLatch keepsLatch_refl)
    | |- respects _ (gets _) => apply (respects_gets keepsLatch keepsLatch_refl)
    | |- respects _ (settle _) => apply (respects_settle keepsLatch keepsLatch_refl)
    | |- respects _ (await _) => apply (respects_await keepsLatch keepsLatch_refl)
    | |- respects _ (when _ _) => apply (respects_when keepsLatch keepsLatch_refl)
    | |- respects _ (if ?c then _ else _) => destruct c
    | |- _ => leaf
    end.

Section LatchInvariant.
Context `{C : Collaborators}.

Lemma quiet_keepsLatch {A} (m : Eff Build A) : respects sameLatch m -> respects keepsLatch m.
Proof. apply respects_weaken. exact sameLatch_keepsLatch. Qed.

Lemma setChunks_quiet (f : Build -> list Chunk) :
  respects sameLatch (modify (fun b => setChunks (f b) b)).
Proof. intros b. split; reflexivity. Qed.

(** The naming and rendering of the chunks, after the optimisation. *)
Lemma render_quiet (inputOptions : InputOptions) (outputOptions : JsValue)
    (inputBase : string) (addons : Addons) (outputBundle : OutputBundle) :
  respects sameLatch
    (pre ← gets chunks;
     let '(named, outputBundle) :=
       foldl (nameChunk inputOptions outputOptions inputBase addons) ([], outputBundle) pre in
     modify (setChunks named);;
     ((fun b =>
        match promiseAll (renderChunk outputOptions addons <$> named) (b, outputBundle) with
        | (HookDone, (b', outputBundle')) => (Fulfilled outputBundle', b')
        | (HookThrows e, (b', _)) => (Failed e, b')
        | (HookRejects e, (b', _)) => (Failed e, b')
        end) : Eff Build OutputBundle)).
Proof.
  quiet_build. destruct (foldl _ _ _) as [named outputBundle']. quiet_build.
  - intros b. split; reflexivity.
  - intros b.
    match goal with |- context [promiseAll ?calls ?st] =>
      assert (H : onBuild sameLatch st (snd (promiseAll calls st))) end.
    { apply (related_promiseAll _ (onBuild_refl _ sameLatch_refl)
                                   (onBuild_trans _ sameLatch_trans)).
      apply Forall_fmap, Forall_true. intros chunk st. apply renderChunk_quiet. }
    unfold onBuild in H. cbn [fst] in H.
    destruct (promiseAll _ _) as [[|e|e] [b' ?]]; exact H.
Qed.

(** The optimisation pass runs only while the latch is open, and closes
    it. *)
Lemma renderBundle_keepsLatch (inputOptions : InputOptions) (outputOptions : JsValue)
    (inputBase : string) (outputBundle : OutputBundle) (addons : Addons) :
  respects keepsLatch (renderBundle inputOptions outputOptions inputBase outputBundle addons).
Proof.
  unfold renderBundle.
  apply (respects_bind keepsLatch keepsLatch_trans);
    [apply quiet_keepsLatch, setChunks_quiet|intros _].
  apply (respects_bind keepsLatch keepsLatch_trans);
    [apply quiet_keepsLatch, setChunks_quiet|intros _].
  intros b. rewrite run_bind, run_gets. cbv beta iota.
  apply (step_bind keepsLatch keepsLatch_trans).
  - destruct (optimized b) eqn:Hopt; cbn [negb andb]; [apply keepsLatch_refl|].
    destruct (truthy (opt inputOptions "optimizeChunks")); [|apply keepsLatch_refl].
    rewrite run_when_true. eff_run. cbn [snd].
    unfold keepsLatch, latchInvariant. rewrite Hopt. cbn.
    intros Hruns. fold (optimizeRuns (trace b ++ [EvOptimizeChunks])).
    rewrite optimizeRuns_app, Hruns. reflexivity.
  - intros _. apply quiet_keepsLatch, render_quiet.
Qed.

Lemma generateOutput_keepsLatch (inputOptions : InputOptions) (outputOptions : JsValue)
    (isWrite : bool) :
  respects keepsLatch (generateOutput inputOptions outputOptions isWrite).
Proof.
  unfold generateOutput. cbv zeta.
  latch_build ltac:(idtac;
    lazymatch goal with
    | |- respects _ (renderBundle _ _ _ _ _) => apply renderBundle_keepsLatch
    | |- respects _ (emit _) => by apply quiet_keepsLatch, emit_quiet
    | |- respects _ (graph_finaliseAssets _) =>
        apply quiet_keepsLatch, graph_finaliseAssets_quiet
    | |- respects _ (runGenerateBundle _ _ _ _) =>
        apply quiet_keepsLatch, runGenerateBundle_quiet
    end).
Qed.

Lemma generate_keepsLatch (rawOutputOptions : JsValue) (isWrite : bool) :
  respects keepsLatch (generate rawOutputOptions isWrite).
Proof.
  unfold generate.
  latch_build ltac:(idtac;
    lazymatch goal with
    | |- respects _ (generateOutput _ _ _) => apply generateOutput_keepsLatch
    | |- respects _ (liftTrace _) =>
        apply quiet_keepsLatch, liftTrace_quiet, normalizeOutputOptions_quiet
    end).
Qed.

Lemma build_generate_keepsLatch (rawOutputOptions : JsValue) :
  respects keepsLatch (build_generate rawOutputOptions).
Proof.
  unfold build_generate.
  latch_build ltac:(idtac;
    lazymatch goal with
    | |- respects _ (generate _ _) => apply generate_keepsLatch
    end).
Qed.

(** Writing the files does not touch the latch. *)
Lemma writeOutputFile_quiet (outputFile : OutputFile) (outputOptions : JsValue)
    (st : Build * list string) :
  onBuild sameLatch st (snd (writeOutputFile outputFile outputOptions st)).
Proof.
  destruct st as [b issued]. unfold writeOutputFile, onBuild.
  destruct outputFile as [? source|chunk]; cbn [writeFile fst snd].
  - split; cbn; [by apply optimizeRuns_snoc | reflexivity].
  - destruct (truthy _), (map chunk); try destruct (strictEqStr _ _);
      cbn [writeFile fst snd]; split; cbn [trace setTrace optimized];
      rewrite ?optimizeRuns_snoc by reflexivity; reflexivity.
Qed.

Lemma callOnwrite_quiet (outputOptions : JsValue) (outputChunk : OutputChunk)
    (plugin : Plugin) (b : Build) :
  sameLatch b (snd (callOnwrite outputOptions outputChunk plugin b)).
Proof.
  unfold callOnwrite. destruct (onwrite plugin); [|apply sameLatch_refl].
  split; cbn; [by apply optimizeRuns_snoc | reflexivity].
Qed.

Lemma runOnwrite_quiet (outputOptions : JsValue) (task : WriteTask) (b : Build) :
  sameLatch b (snd (runOnwrite outputOptions task b)).
Proof.
  unfold runOnwrite. destruct (task_file task) as [|chunk]; [apply sameLatch_refl|].
  match goal with |- context [promiseAll ?calls b] =>
    assert (H : sameLatch b (snd (promiseAll calls b)));
    [|destruct (promiseAll calls b) as [[|e|e] b']; exact H] end.
  apply (related_promiseAll sameLatch sameLatch_refl sameLatch_trans).
  apply Forall_fmap, Forall_true. intros plugin s. apply callOnwrite_quiet.
Qed.

Lemma awaitSourceMap_quiet (outputOptions : JsValue)
    (done : list (nat * option JsError)) (task : WriteTask) (b : Build) :
  sameLatch b (snd (awaitSourceMap outputOptions done task b)).
Proof.
  unfold awaitSourceMap. destruct (task_map task) as [w|]; [|apply runOnwrite_quiet].
  destruct (resultOf w done) as [[e|]|];
    first [apply runOnwrite_quiet | apply sameLatch_refl].
Qed.

Lemma advance_quiet (outputOptions : JsValue)
    (done : list (nat * option JsError)) (task : WriteTask) (b : Build) :
  sameLatch b (snd (advance outputOptions done task b)).
Proof.
  unfold advance. destruct (task_stage task);
    try destruct (resultOf _ _) as [[e|]|];
    first [apply awaitSourceMap_quiet | apply sameLatch_refl].
Qed.

Lemma advanceAll_quiet (outputOptions : JsValue)
    (done : list (nat * option JsError)) (started : list WriteTask) (b : Build) :
  sameLatch b (snd (advanceAll outputOptions done started b)).
Proof.
  revert b. induction started as [|task rest IH]; intros b; [apply sameLatch_refl|].
  cbn [advanceAll]. pose proof (advance_quiet outputOptions done task b) as H1.
  destruct (advance _ _ task b) as [task' b1]. specialize (IH b1).
  destruct (advanceAll _ _ rest b1) as [rest' b2]. cbn [snd] in *.
  eapply sameLatch_trans; eassumption.
Qed.

Lemma complete_quiet (outputOptions : JsValue) (w : nat) (r : option JsError)
    (st : Build * Writes) :
  onBuild sameLatch st (complete outputOptions w r st).
Proof.
  destruct st as [b ws]. unfold complete, onBuild.
  destruct (issued ws !! w) as [path|]; [|apply sameLatch_refl].
  destruct (resultOf w (completed ws)); [apply sameLatch_refl|].
  match goal with |- context [advanceAll ?o ?d ?ts ?b0] =>
    pose proof (advanceAll_quiet o d ts b0) as H;
    destruct (advanceAll o d ts b0) as [moved b1] end.
  cbn [fst snd] in *. eapply sameLatch_trans; [|exact H].
  split; cbn; [|reflexivity]. apply optimizeRuns_snoc. by destruct r.
Qed.

Lemma issue_quiet (outputOptions : JsValue) (files : list OutputFile)
    (started : list WriteTask) (st : Build * list string) :
  onBuild sameLatch st
    (snd (foldl (fun '(started, st) file =>
                   let '(task, st) := writeOutputFile file outputOptions st in
                   (started ++ [task], st))
                (started, st) files)).
Proof.
  revert started st. induction files as [|file rest IH]; intros started st;
    cbn [foldl snd]; [apply sameLatch_refl|].
  pose proof (writeOutputFile_quiet file outputOptions st) as Hw.
  destruct (writeOutputFile file outputOptions st) as [task st1]. cbn [snd] in Hw.
  eapply (onBuild_trans _ sameLatch_trans); [exact Hw | apply IH].
Qed.

Lemma writeFiles_quiet (outputOptions : JsValue) (files : list OutputFile)
    (schedule : list (nat * option JsError)) :
  respects sameLatch (writeFiles outputOptions files schedule).
Proof.
  intros b. unfold writeFiles.
  pose proof (issue_quiet outputOptions files [] (b, [])) as H1.
  destruct (foldl _ ([], (b, [])) files) as [started [b1 paths]].
  unfold onBuild in H1. cbn [fst snd] in H1.
  match goal with |- context [foldl ?f ?st0 schedule] =>
    assert (H2 : onBuild sameLatch st0 (foldl f st0 schedule)) end.
  { apply (related_foldl _ (onBuild_refl _ sameLatch_refl)
                            (onBuild_trans _ sameLatch_trans)).
    intros st [w r]. apply complete_quiet. }
  unfold onBuild in H2. cbn [fst] in H2.
  destruct (foldl _ _ schedule) as [b2 ws]. cbn [fst snd] in *.
  eapply sameLatch_trans; eassumption.
Qed.

Lemma build_write_keepsLatch (outputOptions : JsValue)
    (schedule : list (nat * option JsError)) :
  respects keepsLatch (build_write outputOptions schedule).
Proof.
  unfold build_write.
  latch_build ltac:(idtac;
    lazymatch goal with
    | |- respects _ (generate _ _) => apply generate_keepsLatch
    | |- respects _ (writeFiles _ _ _) => apply quiet_keepsLatch, writeFiles_quiet
    end).
Qed.

Lemma runCalls_latchInvariant (calls : list Call) (b : Build) :
  latchInvariant b -> latchInvariant (runCalls calls b).
Proof.
  unfold runCalls. revert b. induction calls as [|call calls IH]; intros b Hb; [exact Hb|].
  cbn [foldl]. apply IH. destruct call as [raw|outputOptions schedule]; cbn [runCall].
  - by apply build_generate_keepsLatch.
  - by apply build_write_keepsLatch.
Qed.

End LatchInvariant.

Lemma bind_fulfilled {S A B} (m : Eff S A) (f : A -> Eff S B) (s s' : S) (x : B) :
  (m ≫= f) s = (Fulfilled x, s') ->
  exists a s1, m s = (Fulfilled a, s1) /\ f a s1 = (Fulfilled x, s').
Proof.
  rewrite run_bind. destruct (m s) as [[a|e|] s1]; try discriminate. eauto.
Qed.

Lemma sameRunsOf_refl (b : Build) : sameRunsOf b b.
Proof. reflexivity. Qed.

Lemma sameRunsOf_trans (b1 b2 b3 : Build) :
  sameRunsOf b1 b2 -> sameRunsOf b2 b3 -> sameRunsOf b1 b3.
Proof. unfold sameRunsOf. congruence. Qed.

Lemma sameLatch_sameRunsOf (b b' : Build) : sameLatch b b' -> sameRunsOf b b'.
Proof. by intros [? _]. Qed.

Ltac runs_build leaf :=
  repeat first
    [ leaf
    | apply (respects_bind sameRunsOf sameRunsOf_trans)
    | apply (respects_ret sameRunsOf sameRunsOf_refl)
    | apply (respects_throw sameRunsOf sameRunsOf_refl)
    | apply (respects_gets sameRunsOf sameRunsOf_refl)
    | apply (respects_settle sameRunsOf sameRunsOf_refl)
    | apply (respects_attempt sameRunsOf)
    | match goal with
      | |- forall _, respects _ _ => intro
      | |- respects _ (match ?x with _ => _ end) => destruct x
      end ].

Section BuildPhase.
Context `{C : Collaborators}.

Lemma callBuildStart_quiet (plugin : Plugin) (b : Build) :
  sameLatch b (snd (callBuildStart plugin b)).
Proof.
  unfold callBuildStart. destruct (buildStart plugin) as [hook|]; [|apply sameLatch_refl].
  destruct (hook _) as [r assets]. split; cbn; [by apply optimizeRuns_snoc | reflexivity].
Qed.

Lemma callBuildEnd_quiet (err : option JsError) (plugin : Plugin) (b : Build) :
  sameLatch b (snd (callBuildEnd err plugin b)).
Proof.
  unfold callBuildEnd. destruct (buildEnd plugin) as [hook|]; [|apply sameLatch_refl].
  destruct (hook _ _) as [r assets]. split; cbn; [by apply optimizeRuns_snoc | reflexivity].
Qed.

Lemma applyBuildStartHook_quiet (b : Build) : sameLatch b (snd (applyBuildStartHook b)).
Proof.
  apply (related_promiseAll sameLatch sameLatch_refl sameLatch_trans).
  apply Forall_fmap, Forall_true. intros plugin s. apply callBuildStart_quiet.
Qed.

Lemma applyBuildEndHook_quiet (err : option JsError) (b : Build) :
  sameLatch b (snd (applyBuildEndHook err b)).
Proof.
  apply (related_promiseAll sameLatch sameLatch_refl sameLatch_trans).
  apply Forall_fmap, Forall_true. intros plugin s. apply callBuildEnd_quiet.
Qed.

Lemma graphBuild_quiet (input manualChunks inlineDynamicImports preserveModules : JsValue) :
  respects sameLatch (graphBuild input manualChunks inlineDynamicImports preserveModules).
Proof.
  intros b. unfold graphBuild. destruct (graph_build _ _ _ _ _) as [[cs|e] g];
    split; cbn [await snd trace setTrace setGraph optimized mret Eff_ret throw];
    rewrite ?optimizeRuns_snoc by reflexivity; reflexivity.
Qed.

Lemma runBuild_sameRuns : respects sameRunsOf runBuild.
Proof.
  unfold runBuild.
  runs_build ltac:(
    first [ apply (respects_weaken sameLatch sameRunsOf _ sameLatch_sameRunsOf);
            first [ by apply emit_quiet | apply graphBuild_quiet
                  | apply (respects_awaitHooks sameLatch), applyBuildEndHook_quiet ]
          | apply respects_modify; intros b; reflexivity ]).
  intros b. pose proof (applyBuildStartHook_quiet b) as [H _].
  destruct (applyBuildStartHook b) as [[|e|e] b']; exact H.
Qed.

(** The handle of a build that succeeds holds the final state, with the
    latch open. *)
Lemma runBuild_fulfilled (b bf : Build) (rb : RollupBuild) :
  runBuild b = (Fulfilled rb, bf) -> state rb = bf /\ optimized bf = false.
Proof.
  unfold runBuild. intros H.
  do 6 (apply bind_fulfilled in H as (? & ? & _ & H)).
  apply bind_fulfilled in H as (? & s1 & Hmod & H).
  rewrite run_modify in Hmod. injection Hmod as _ <-.
  eff_run. cbn in H. injection H as <- <-. split; reflexivity.
Qed.

Lemma rollup_latchInvariant (raw : JsValue) (curWatcher : option string)
    (rb : RollupBuild) (t : list Event) :
  rollup raw curWatcher = (Fulfilled rb, t) -> latchInvariant (state rb).
Proof.
  unfold rollup. intros H.
  pose proof (getInputOptions_quiet raw []) as Hquiet.
  destruct (getInputOptions raw []) as [[inputOptions|e|] t0]; try discriminate.
  match type of H with context [runBuild ?b0] =>
    pose proof (runBuild_sameRuns b0) as Hruns;
    destruct (runBuild b0) as [o bf] eqn:Hrun end.
  injection H as -> _.
  apply runBuild_fulfilled in Hrun as [-> Hopt].
  unfold latchInvariant. rewrite Hopt.
  unfold sameRunsOf in Hruns. cbn [snd trace] in Hruns. rewrite Hruns. exact Hquiet.
Qed.

End BuildPhase.

(** C6: over the lifetime of a build handle, whatever [generate] and
    [write] calls are made on it, the chunk-optimisation pass is run at
    most once. *)
Theorem chunk_optimization_runs_at_most_once `{C : Collaborators}
    (rawInputOptions : JsValue) (curWatcher : option string) (rb : RollupBuild)
    (t : list Event) (calls : list Call) :
  rollup rawInputOptions curWatcher = (Fulfilled rb, t) ->
  optimizeRuns (trace (runCalls calls (state rb))) <= 1.
Proof.
  intros Hbuild. apply rollup_latchInvariant in Hbuild.
  apply (runCalls_latchInvariant calls) in Hbuild.
  unfold latchInvariant in Hbuild. rewrite Hbuild.
  destruct (optimized _); lia.
Qed.

Lemma chunk_optimization_witness :
  exists rb t,
    @rollup Inputs.env Inputs.optimizingInput None = (Fulfilled rb, t) /\
    optimizeRuns (trace (@runCalls Inputs.env Inputs.threeCalls (state rb))) <= 1.
Proof.
  do 2 eexists. split; [reflexivity|].
  eapply (@chunk_optimization_runs_at_most_once Inputs.env Inputs.optimizingInput None).
  reflexivity.
Defined.

(** With [optimizeChunks] set, the pass runs in the first call and in no
    later one. *)
Example chunk_optimization_runs_once :
  exists rb t,
    @rollup Inputs.env Inputs.optimizingInput None = (Fulfilled rb, t) /\
    optimizeRuns (trace (@runCalls Inputs.env [CallGenerate Inputs.esDir] (state rb))) = 1 /\
    optimizeRuns (trace (@runCalls Inputs.env Inputs.threeCalls (state rb))) = 1.
Proof. do 2 eexists. split; [reflexivity|]. split; vm_compute; reflexivity. Qed.

(** ** Assets without a source (C5) *)

(** C5 (the code at the failing input): a plugin emits an asset without a
    source while the build runs and no plugin has a [generateBundle] hook.
    The generate call returns before the loop that finalises the pending
    assets: it fulfils, and the asset leaves it with neither a source nor a
    file name.  With a plugin that has a [generateBundle] hook, even one
    that does nothing, the same call fails with [ASSET_SOURCE_MISSING]. *)
Theorem generate_skips_pending_assets_without_generateBundle :
  (exists rb t bundle b',
     @rollup (Inputs.pluginEnv [Inputs.emitter]) Inputs.mainInput None = (Fulfilled rb, t) /\
     assetsById (graph (state rb)) = [("asset0", Inputs.pending)] /\
     @generate (Inputs.pluginEnv [Inputs.emitter]) Inputs.esDir false (state rb)
       = (Fulfilled bundle, b') /\
     List.map fst bundle = ["main.js"] /\
     assetsById (graph b') = [("asset0", Inputs.pending)]) /\
  (exists rb t,
     @rollup (Inputs.pluginEnv [Inputs.emitter; Inputs.bundler]) Inputs.mainInput None
       = (Fulfilled rb, t) /\
     failsWithCode
       (fst (@generate (Inputs.pluginEnv [Inputs.emitter; Inputs.bundler])
               Inputs.esDir false (state rb)))
       "ASSET_SOURCE_MISSING").
Proof.
  split.
  - do 4 eexists. split; [reflexivity|]. split; [reflexivity|].
    split; [vm_compute; reflexivity|]. split; reflexivity.
  - do 2 eexists. split; [reflexivity|].
    eexists. split; [vm_compute; reflexivity | reflexivity].
Qed.

(** ** Source maps and the completion of a chunk (C9) *)

Lemma source_map_counterexample :
  ~ onlyAfter (EvWritten "dist/main.js.map") (EvWritten "dist/main.js")
      (trace (snd (@writeFiles Inputs.env Inputs.esDirSourcemap
                     [OutChunk Inputs.mappedChunk] Inputs.codeFirst Inputs.observed))).
Proof.
  intros H.
  specialize (H [EvTimeStart "BUILD"; EvGraphBuild; EvTimeEnd "BUILD";
                 EvWriteFile "dist/main.js.map" "{}";
                 EvWriteFile "dist/main.js"
                   ("export default 1;//# sourceMappingURL=main.js.map" +:+ newline)]
                [EvWritten "dist/main.js.map"; EvOnwrite "observer" "main.js"]
                eq_refl).
  apply list_elem_of_In in H. cbn in H. intuition discriminate.
Qed.

Section SourceMaps.
Context `{C : Collaborators}.

Lemma promiseAllFrom_onwrite_trace (outputOptions : JsValue) (chunk : OutputChunk)
    (ps : list Plugin) (rejected : option JsError) (b : Build) :
  exists hooks,
    trace (snd (promiseAllFrom (callOnwrite outputOptions chunk <$> ps) rejected b))
      = trace b ++ hooks /\
    Forall isOnwrite hooks.
Proof.
  revert rejected b. induction ps as [|plugin ps IH]; intros rejected b.
  - exists []. cbn. destruct rejected; cbn; by rewrite app_nil_r.
  - cbn [fmap list_fmap promiseAllFrom]. unfold callOnwrite at 1.
    destruct (onwrite plugin) as [hook|]; [|apply IH].
    destruct (hook outputOptions chunk) as [|e|e].
    + edestruct IH as (hooks & -> & Hhooks). cbn [trace setTrace].
      exists (EvOnwrite (name plugin) (fileName chunk) :: hooks).
      split; [by rewrite <- app_assoc | by constructor].
    + exists [EvOnwrite (name plugin) (fileName chunk)]. split; [reflexivity|].
      by repeat constructor.
    + edestruct IH as (hooks & -> & Hhooks). cbn [trace setTrace].
      exists (EvOnwrite (name plugin) (fileName chunk) :: hooks).
      split; [by rewrite <- app_assoc | by constructor].
Qed.

(** [runOnwrite] ends the chain of the file, after calling the hooks. *)
Lemma runOnwrite_chunk (outputOptions : JsValue) (task : WriteTask) (chunk : OutputChunk)
    (b : Build) :
  task_file task = OutChunk chunk ->
  exists hooks stage b',
    runOnwrite outputOptions task b = (setStage stage task, b') /\
    trace b' = trace b ++ hooks /\
    Forall isOnwrite hooks /\
    (stage = Finished \/ exists e, stage = Broken e).
Proof.
  intros Hfile. unfold runOnwrite. rewrite Hfile.
  destruct (promiseAllFrom_onwrite_trace outputOptions chunk
              (List.filter (fun plugin => hasHook (onwrite plugin)) (plugins (graph b)))
              None b) as (hooks & Htrace & Hhooks).
  unfold promiseAll.
  destruct (promiseAllFrom _ None b) as [[|e|e] b']; cbn [snd] in Htrace;
    exists hooks; do 2 eexists; (split; [reflexivity|]); eauto.
Qed.

Lemma elem_of_snoc_l {A} (x y : A) (l : list A) : x ∈ l -> x ∈ l ++ [y].
Proof. intros H. apply elem_of_app. by left. Qed.

Lemma elem_of_snoc_r {A} (x : A) (l : list A) : x ∈ l ++ [x].
Proof. apply elem_of_app. right. apply list_elem_of_here. Qed.

Lemma completion_event (path : string) (r : option JsError) :
  isCompletion (match r with None => EvWritten path | Some _ => EvWriteFailed path end).
Proof. by destruct r. Qed.

(** Closing the side conditions of the invariant. *)
Ltac chain_side :=
  first
    [ assumption
    | reflexivity
    | discriminate
    | by rewrite <- ?app_assoc
    | apply Forall_app; split; [assumption | by constructor]
    | intros [= ->]; rewrite ?app_assoc; apply elem_of_snoc_r
    | intros; rewrite ?app_assoc; apply elem_of_snoc_r
    | intros; rewrite ?app_assoc; apply elem_of_snoc_l; rewrite ?app_nil_r in *; by auto
    | intros Hne; by destruct Hne
    | congruence ].

(** One completion keeps the invariant of the chain. *)
Lemma complete_chainInvariant (outputOptions : JsValue) (mapFile codeFile : string)
    (chunk : OutputChunk) (base : list Event) (w : nat) (r : option JsError)
    (st : Build * Writes) :
  chainInvariant mapFile codeFile (OutChunk chunk) base st ->
  chainInvariant mapFile codeFile (OutChunk chunk) base (complete outputOptions w r st).
Proof.
  destruct st as [b ws].
  intros (completions & hooks & completions' & task & Htrace & Hc & Hh & Hc' & Hissued &
          Htasks & Hfile & Hcode & Hmap & Hw0 & Hw1 & Hstage).
  cbn [fst snd] in *. unfold complete. rewrite Hissued.
  assert (Hkeep : chainInvariant mapFile codeFile (OutChunk chunk) base (b, ws)).
  { exists completions, hooks, completions', task. cbn [fst snd]. repeat split; assumption. }
  destruct w as [|[|w]]; cbn [lookup list_lookup]; [| |exact Hkeep].
  - (* the write of the source map *)
    destruct (resultOf 0 (completed ws)) as [r0|] eqn:Hr0; [exact Hkeep|].
    rewrite Htasks. cbn [advanceAll]. unfold advance.
    set (ev := match r with None => EvWritten mapFile | Some _ => EvWriteFailed mapFile end).
    assert (Hev : isCompletion ev) by apply completion_event.
    assert (Hwritten : r = None -> ev = EvWritten mapFile) by (by intros ->).
    destruct (task_stage task) as [| | |e] eqn:Hst.
    + (* the code is not written yet *)
      destruct Hstage as (-> & -> & Hr1). rewrite Hcode. cbn [resultOf Nat.eqb].
      rewrite Hr1. cbn [fst snd].
      exists (completions ++ [ev]), [], [], task. cbn [fst snd trace setTrace completed].
      rewrite Htrace, Hst, !app_nil_r. cbn [resultOf Nat.eqb]. rewrite Hr1.
      repeat split; chain_side.
    + (* the chain waits for the source map *)
      destruct Hstage as (-> & -> & Hr1 & _). unfold awaitSourceMap. rewrite Hmap.
      cbn [resultOf Nat.eqb]. rewrite app_nil_r in Hw1.
      destruct r as [e|].
      * exists (completions ++ [ev]), [], [], (setStage (Broken e) task).
        cbn [fst snd trace setTrace completed task_stage task_file task_code task_map
             setStage tasks issued].
        rewrite Htrace, !app_nil_r. cbn [resultOf Nat.eqb].
        repeat split; chain_side.
      * edestruct (runOnwrite_chunk outputOptions task chunk
                     (setTrace (trace b ++ [ev]) b) Hfile)
          as (hooks & stage & b2 & Hrun & Hrtrace & Hhooks & Hended).
        rewrite Hrun. cbn [fst snd].
        exists (completions ++ [ev]), hooks, [], (setStage stage task).
        cbn [fst snd trace setTrace completed task_stage task_file task_code task_map
             setStage tasks issued] in *.
        rewrite Hrtrace, Htrace, !app_nil_r. cbn [resultOf Nat.eqb].
        assert (Hboth : EvWritten mapFile ∈ completions ++ [ev] /\
                        EvWritten codeFile ∈ completions ++ [ev]).
        { split; [apply elem_of_snoc_r | apply elem_of_snoc_l; auto]. }
        repeat split; try chain_side; try (intros _; apply Hboth).
        destruct Hended as [-> | [e ->]]; [exact Hboth | intros _; exact Hboth].
    + (* the chain has finished *)
      cbn [fst snd].
      exists completions, hooks, (completions' ++ [ev]), task.
      cbn [fst snd trace setTrace completed tasks issued]. rewrite Htrace, Hst.
      cbn [resultOf Nat.eqb].
      repeat split; first [chain_side | apply Hstage].
    + (* the chain has broken *)
      cbn [fst snd].
      exists completions, hooks, (completions' ++ [ev]), task.
      cbn [fst snd trace setTrace completed tasks issued]. rewrite Htrace, Hst.
      cbn [resultOf Nat.eqb].
      repeat split; first [chain_side | by apply Hstage].
  - (* the write of the code *)
    destruct (resultOf 1 (completed ws)) as [r1|] eqn:Hr1; [exact Hkeep|].
    rewrite Htasks. cbn [advanceAll]. unfold advance.
    set (ev := match r with None => EvWritten codeFile | Some _ => EvWriteFailed codeFile end).
    assert (Hev : isCompletion ev) by apply completion_event.
    assert (Hwritten : r = None -> ev = EvWritten codeFile) by (by intros ->).
    destruct (task_stage task) as [| | |e] eqn:Hst.
    + destruct Hstage as (-> & -> & _). rewrite Hcode. cbn [resultOf Nat.eqb].
      rewrite app_nil_r in Hw0.
      destruct r as [e|].
      * exists (completions ++ [ev]), [], [], (setStage (Broken e) task).
        cbn [fst snd trace setTrace completed task_stage task_file task_code task_map
             setStage tasks issued].
        rewrite Htrace, !app_nil_r. cbn [resultOf Nat.eqb].
        repeat split; chain_side.
      * unfold awaitSourceMap. rewrite Hmap. cbn [resultOf Nat.eqb].
        destruct (resultOf 0 (completed ws)) as [[e|]|] eqn:Hr0.
        -- exists (completions ++ [ev]), [], [], (setStage (Broken e) task).
           cbn [fst snd trace setTrace completed task_stage task_file task_code task_map
                setStage tasks issued].
           rewrite Htrace, !app_nil_r. cbn [resultOf Nat.eqb]. rewrite Hr0.
           repeat split; chain_side.
        -- edestruct (runOnwrite_chunk outputOptions task chunk
                        (setTrace (trace b ++ [ev]) b) Hfile)
             as (hooks & stage & b2 & Hrun & Hrtrace & Hhooks & Hended).
           rewrite Hrun. cbn [fst snd].
           exists (completions ++ [ev]), hooks, [], (setStage stage task).
           cbn [fst snd trace setTrace completed task_stage task_file task_code task_map
                setStage tasks issued] in *.
           rewrite Hrtrace, Htrace, !app_nil_r. cbn [resultOf Nat.eqb]. rewrite Hr0.
           assert (Hboth : EvWritten mapFile ∈ completions ++ [ev] /\
                           EvWritten codeFile ∈ completions ++ [ev]).
           { split; [apply elem_of_snoc_l; auto | apply elem_of_snoc_r]. }
           repeat split; try chain_side; try (intros _; apply Hboth).
           destruct Hended as [-> | [e ->]]; [exact Hboth | intros _; exact Hboth].
        -- exists (completions ++ [ev]), [], [], (setStage AwaitMap task).
           cbn [fst snd trace setTrace completed task_stage task_file task_code task_map
                setStage tasks issued].
           rewrite Htrace, !app_nil_r. cbn [resultOf Nat.eqb]. rewrite Hr0.
           repeat split; chain_side.
    + (* the chain waits for the source map: the code is written already *)
      destruct Hstage as (_ & _ & Hdone & _). congruence.
    + cbn [fst snd].
      exists completions, hooks, (completions' ++ [ev]), task.
      cbn [fst snd trace setTrace completed tasks issued]. rewrite Htrace, Hst.
      cbn [resultOf Nat.eqb].
      repeat split; first [chain_side | apply Hstage].
    + cbn [fst snd].
      exists completions, hooks, (completions' ++ [ev]), task.
      cbn [fst snd trace setTrace completed tasks issued]. rewrite Htrace, Hst.
      cbn [resultOf Nat.eqb].
      repeat split; first [chain_side | by apply Hstage].
Qed.

End SourceMaps.

Lemma foldl_invariant {S X} (P : S -> Prop) (f : S -> X -> S) (xs : list X) (s : S) :
  (forall s x, P s -> P (f s x)) -> P s -> P (foldl f s xs).
Proof.
  intros Hf. revert s. induction xs as [|x xs IH]; intros s Hs; [exact Hs|].
  cbn [foldl]. apply IH, Hf, Hs.
Qed.

(** A write of one chunk alone: the two writes are issued, the file
    system reports, the [onwrite] hooks are called in one go, and the file
    system may report again; the hooks are called, and the write fulfils,
    only after both writes have completed. *)
Lemma single_chunk_write_trace `{C : Collaborators} (b : Build)
    (chunk : OutputChunk) (sourceMap : SourceMap) (outputOptions : JsValue)
    (schedule : list (nat * option JsError)) :
  map chunk = Some sourceMap ->
  truthy (get outputOptions "sourcemap") = true ->
  strictEqStr (get outputOptions "sourcemap") "inline" = false ->
  let codeFile := codePath outputOptions chunk in
  let mapFile := codeFile +:+ ".map" in
  let run := writeFiles outputOptions [OutChunk chunk] schedule b in
  exists completions hooks completions',
    trace (snd run) =
      trace b ++ [EvWriteFile mapFile (map_toString sourceMap);
                  EvWriteFile codeFile (codeWithUrl chunk)] ++
      completions ++ hooks ++ completions' /\
    Forall isCompletion completions /\ Forall isOnwrite hooks /\
    Forall isCompletion completions' /\
    (hooks <> [] \/ fst run = Fulfilled tt ->
     EvWritten mapFile ∈ completions /\ EvWritten codeFile ∈ completions).
Proof.
  intros Hmap Hsm Hinline codeFile mapFile run. subst run.
  unfold writeFiles. cbn [foldl]. unfold writeOutputFile.
  rewrite Hmap, Hsm, Hinline. cbn [writeFile fileNameOf length app].
  fold (codePath outputOptions chunk). fold codeFile. fold mapFile.
  fold (codeWithUrl chunk).
  set (base := (trace b ++ [EvWriteFile mapFile (map_toString sourceMap)]) ++
               [EvWriteFile codeFile (codeWithUrl chunk)]).
  match goal with |- context [foldl ?f ?init schedule] =>
    set (st0 := init); set (step := f) end.
  assert (Hinit : chainInvariant mapFile codeFile (OutChunk chunk) base st0).
  { eexists [], [], [], _. subst st0 base. cbn [fst snd trace setTrace issued tasks completed].
    rewrite !app_nil_r.
    repeat split; try constructor; try discriminate; reflexivity. }
  apply (foldl_invariant _ step schedule) in Hinit;
    [|intros st [w r]; apply complete_chainInvariant].
  destruct (foldl step st0 schedule) as [b1 ws1].
  destruct Hinit as (completions & hooks & completions' & task1 & Htrace & Hc & Hh & Hc' &
                     _ & Htasks & _ & _ & _ & _ & _ & Hstage).
  cbn [fst snd] in *.
  exists completions, hooks, completions'. subst base.
  split; [by rewrite Htrace, <- !app_assoc|]. do 3 (split; [assumption|]).
  intros [Hhooks | Hdone].
  - destruct (task_stage task1).
    + destruct Hstage as (-> & _). by destruct Hhooks.
    + destruct Hstage as (-> & _). by destruct Hhooks.
    + exact Hstage.
    + by apply Hstage.
  - rewrite Htasks in Hdone. cbn [forallb] in Hdone. unfold isFinished in Hdone.
    destruct (rejection ws1); [discriminate|].
    destruct (task_stage task1); try discriminate. exact Hstage.
Qed.

(** A run in which the code is written before the source map, and the
    hook is called after both. *)
Example source_map_code_first :
  @writeFiles Inputs.env Inputs.esDirSourcemap [OutChunk Inputs.mappedChunk]
     Inputs.codeFirst Inputs.observed
  = (Fulfilled tt,
     setTrace (trace Inputs.observed ++
               [EvWriteFile "dist/main.js.map" "{}";
                EvWriteFile "dist/main.js"
                  ("export default 1;//# sourceMappingURL=main.js.map" +:+ newline);
                EvWritten "dist/main.js"; EvWritten "dist/main.js.map";
                EvOnwrite "observer" "main.js"])
              Inputs.observed).
Proof. reflexivity. Qed.

(** * Further properties of the code *)

(** ** What [getInputOptions] returns and reports *)

Section InputOptions.
Context `{C : Collaborators}.

Lemma addDeprecations_warning (deprecations : list Deprecation) (t : list Event) :
  addDeprecations deprecations t = (Fulfilled tt, t ++ [EvWarn (deprecationWarning deprecations)]).
Proof. reflexivity. Qed.

Lemma when_addDeprecations (deprecations : list Deprecation) (t : list Event) :
  when (0 <? length deprecations) (addDeprecations deprecations) t
    = (Fulfilled tt, t ++ deprecationWarnings deprecations).
Proof.
  unfold deprecationWarnings. destruct (0 <? length deprecations).
  - apply addDeprecations_warning.
  - rewrite run_when_false, app_nil_r. reflexivity.
Qed.

Lemma opt_props (props : gmap string JsValue) (ps qs : list Plugin) (k : string) :
  opt {| io_props := props; io_plugins := ps |} k
    = opt {| io_props := props; io_plugins := qs |} k.
Proof. reflexivity. Qed.

(** [getInputOptions] up to its checks on the chunking options: the
    warnings are out, the deprecated options are checked on the merged
    options, and the hooks have been applied. *)
Lemma getInputOptions_after_hooks (raw : JsValue) (t : list Event) :
  let inputOptions := hookedInputOptions raw in
  truthy raw = true ->
  hasLegacyOption (mergedInputOptions raw) = false ->
  getInputOptions raw t =
    ((if truthy (opt inputOptions "inlineDynamicImports") then
        when (truthy (opt inputOptions "manualChunks"))
          (error (invalidOption
             (dquote +:+ "manualChunks" +:+ dquote +:+
              " option is not supported for inlineDynamicImports.")));;
        when (truthy (opt inputOptions "optimizeChunks"))
          (error (invalidOption
             (dquote +:+ "optimizeChunks" +:+ dquote +:+
              " option is not supported for inlineDynamicImports.")));;
        multiple ← multipleInputs (opt inputOptions "input");
        when multiple
          (error (invalidOption
             "Multiple inputs are not supported for inlineDynamicImports."))
      else if truthy (opt inputOptions "preserveModules") then
        when (truthy (opt inputOptions "inlineDynamicImports"))
          (error (invalidOption
             "preserveModules does not support the inlineDynamicImports option."));;
        when (truthy (opt inputOptions "manualChunks"))
          (error (invalidOption
             "preserveModules does not support the manualChunks option."));;
        when (truthy (opt inputOptions "optimizeChunks"))
          (error (invalidOption
             "preserveModules does not support the optimizeChunks option."))
      else mret tt);;
     mret inputOptions) (t ++ inputWarnings raw).
Proof.
  intros inputOptions Hraw Hlegacy. subst inputOptions.
  unfold getInputOptions, inputWarnings, deprecationWarnings, unknownOptionWarning,
    hookedInputOptions.
  rewrite Hraw. cbn [negb]. cbv zeta.
  destruct (truthyStr _); destruct (0 <? length _); unfold addDeprecations; eff_run;
    (rewrite (checkInputOptions_ok (S := list Event)) by exact Hlegacy); eff_run;
    cbn [io_props io_plugins app]; fold (mergedInputOptions raw);
    rewrite <- ?app_assoc, ?app_nil_r; reflexivity.
Qed.

End InputOptions.

(** Checks that only read their argument leave the trace as it is. *)
Ltac pure_eff :=
  repeat lazymatch goal with
    | |- forall _, respects _ _ => intro
    | |- respects _ (_ ≫= _) => apply (respects_bind eq (@eq_trans _))
    | |- respects _ (mret _) => apply (respects_ret eq (@eq_refl _))
    | |- respects _ (throw _) => apply (respects_throw eq (@eq_refl _))
    | |- respects _ (error _) => apply (respects_error eq (@eq_refl _))
    | |- respects _ (when _ _) => apply (respects_when eq (@eq_refl _))
    | |- respects _ (if ?c then _ else _) => destruct c
    | |- respects _ (multipleInputs ?i) => destruct i; cbn [multipleInputs]
    end.

Section InputOutcome.
Context `{C : Collaborators}.

Lemma multipleInputs_run {S} (input : JsValue) (s : S) :
  match input with JsNull => False | _ => True end ->
  multipleInputs input s = (Fulfilled (multipleEntries input), s).
Proof. destruct input; cbn; intros H; try reflexivity. destruct H. Qed.

End InputOutcome.

(** X1: [getInputOptions] returns the merged options with the [options]
    hook of every plugin applied in the order of the plugins, and the
    warnings are out, when
    - the raw options are given,
    - the merged options hold none of the deprecated [transform], [load],
      [resolveId], [resolveExternal],
    - the options after the hooks show no conflict of chunking options,
      and
    - the input is not [null] when [inlineDynamicImports] is set: counting
      the entries of [null] throws a [TypeError].
    An [options] hook here returns, with new options or with nothing: a
    hook that throws is not covered.  The deprecated options are looked
    for before the hooks run: what a hook adds is not checked. *)
Theorem getInputOptions_returns_hooked_options `{C : Collaborators}
    (rawInputOptions : JsValue) (t : list Event) :
  truthy rawInputOptions = true ->
  hasLegacyOption (mergedInputOptions rawInputOptions) = false ->
  chunkingConflict (hookedInputOptions rawInputOptions) = false ->
  countsNullInput (hookedInputOptions rawInputOptions) = false ->
  getInputOptions rawInputOptions t
    = (Fulfilled (hookedInputOptions rawInputOptions), t ++ inputWarnings rawInputOptions).
Proof.
  intros Hraw Hlegacy Hconflict Hnull.
  rewrite (getInputOptions_after_hooks rawInputOptions t Hraw Hlegacy). cbv zeta.
  unfold chunkingConflict, countsNullInput in *.
  set (inputOptions := hookedInputOptions rawInputOptions) in *.
  destruct (truthy (opt inputOptions "inlineDynamicImports")).
  - apply orb_false_iff in Hconflict as [Hconflict Hmultiple].
    apply orb_false_iff in Hconflict as [-> ->]. eff_run.
    rewrite multipleInputs_run by (destruct (opt inputOptions "input"); try exact I;
                                   discriminate Hnull).
    rewrite Hmultiple. eff_run. reflexivity.
  - destruct (truthy (opt inputOptions "preserveModules")); [|reflexivity].
    apply orb_false_iff in Hconflict as [-> ->]. eff_run. reflexivity.
Qed.

Lemma getInputOptions_returns_hooked_options_witness :
  @getInputOptions Cases.hookEnv Inputs.mainInput []
    = (Fulfilled (@hookedInputOptions Cases.hookEnv Inputs.mainInput), []) /\
  opt (@hookedInputOptions Cases.hookEnv Inputs.mainInput) "context" = JsStr "window" /\
  hasLegacyOption (@hookedInputOptions Cases.hookEnv Inputs.mainInput) = true.
Proof.
  split; [|split; reflexivity].
  apply (@getInputOptions_returns_hooked_options Cases.hookEnv Inputs.mainInput []);
    reflexivity.
Defined.



Section Warnings.
Context `{C : Collaborators}.

Lemma chunking_checks_pure (inputOptions : InputOptions) :
  respects (@eq (list Event))
    ((if truthy (opt inputOptions "inlineDynamicImports") then
        when (truthy (opt inputOptions "manualChunks"))
          (error (invalidOption
             (dquote +:+ "manualChunks" +:+ dquote +:+
              " option is not supported for inlineDynamicImports.")));;
        when (truthy (opt inputOptions "optimizeChunks"))
          (error (invalidOption
             (dquote +:+ "optimizeChunks" +:+ dquote +:+
              " option is not supported for inlineDynamicImports.")));;
        multiple ← multipleInputs (opt inputOptions "input");
        when multiple
          (error (invalidOption "Multiple inputs are not supported for inlineDynamicImports."))
      else if truthy (opt inputOptions "preserveModules") then
        when (truthy (opt inputOptions "inlineDynamicImports"))
          (error (invalidOption
             "preserveModules does not support the inlineDynamicImports option."));;
        when (truthy (opt inputOptions "manualChunks"))
          (error (invalidOption "preserveModules does not support the manualChunks option."));;
        when (truthy (opt inputOptions "optimizeChunks"))
          (error (invalidOption "preserveModules does not support the optimizeChunks option."))
      else mret tt);;
     mret inputOptions).
Proof. pure_eff. Qed.

Lemma checkOutputOptions_pure {S} (options : JsValue) :
  respects (@eq S) (checkOutputOptions options).
Proof. unfold checkOutputOptions. pure_eff. Qed.

Lemma checkOutputOptions_valid {S} (options : JsValue) (s : S) :
  validOutputOptions options = true ->
  checkOutputOptions options s = (Fulfilled tt, s).
Proof.
  unfold validOutputOptions, checkOutputOptions. intros H.
  apply andb_true_iff in H as [H Hamd]. apply andb_true_iff in H as [Hformat Hes6].
  assert (isNullish options = false) as -> by (destruct options; try reflexivity; discriminate).
  rewrite Hformat. apply negb_true_iff in Hes6 as ->. eff_run.
  apply negb_true_iff in Hamd.
  destruct (truthy (get options "moduleId")); eff_run; [|reflexivity].
  cbn [andb] in Hamd. rewrite Hamd. reflexivity.
Qed.

Lemma checkOutputOptions_invalid {S} (options : JsValue) (s : S) :
  validOutputOptions options = false ->
  exists e, checkOutputOptions options s = (Failed e, s) /\ err_code e = None.
Proof.
  intros H. pose proof (checkOutputOptions_pure (S := S) options s) as Hs.
  destruct (checkOutputOptions options s) as [o s'] eqn:Hrun. cbn in Hs. subst s'.
  destruct o as [[]|e|].
  - exfalso. revert Hrun H. unfold validOutputOptions, checkOutputOptions.
    destruct (isNullish options); eff_run; [discriminate|].
    destruct (strictEqStr (get options "format") "es6"); eff_run; [discriminate|].
    destruct (truthy (get options "format")); eff_run; [|discriminate].
    destruct (truthy (get options "moduleId")); eff_run; [|discriminate].
    destruct (truthy (get options "amd")); eff_run; discriminate.
  - exists e. split; [reflexivity|]. exact (checkOutputOptions_no_code options s s e Hrun).
  - exfalso. revert Hrun. unfold checkOutputOptions.
    destruct (isNullish options); eff_run; [discriminate|].
    destruct (strictEqStr (get options "format") "es6"); eff_run; [discriminate|].
    destruct (truthy (get options "format")); eff_run; [|discriminate].
    destruct (truthy (get options "moduleId")); eff_run; [|discriminate].
    destruct (truthy (get options "amd")); eff_run; discriminate.
Qed.

End Warnings.

(** X3: whatever [getInputOptions] then decides, the warnings of
    [mergeOptions] have been handed to [onwarn], the unknown options
    first, then the renamed ones, and nothing else has: the deprecated
    plugin options and the chunking options are checked after the
    warnings. *)
Theorem getInputOptions_warns_before_checking `{C : Collaborators}
    (rawInputOptions : JsValue) (t : list Event) :
  truthy rawInputOptions = true ->
  snd (getInputOptions rawInputOptions t) = t ++ inputWarnings rawInputOptions.
Proof.
  intros Hraw.
  destruct (hasLegacyOption (mergedInputOptions rawInputOptions)) eqn:Hlegacy.
  - unfold getInputOptions, inputWarnings, deprecationWarnings, unknownOptionWarning.
    rewrite Hraw. cbn [negb]. cbv zeta.
    destruct (truthyStr _); destruct (0 <? length _); unfold addDeprecations; eff_run;
      (rewrite (checkInputOptions_legacy (S := list Event)) by exact Hlegacy); eff_run;
      cbn [snd app]; rewrite <- ?app_assoc, ?app_nil_r; reflexivity.
  - rewrite (getInputOptions_after_hooks rawInputOptions t Hraw Hlegacy). cbv zeta.
    symmetry. apply (chunking_checks_pure (hookedInputOptions rawInputOptions)).
Qed.

Lemma getInputOptions_warns_before_checking_witness :
  snd (@getInputOptions Cases.fussyEnv Inputs.legacyInput [])
    = [EvWarn (unknownOptionWarning (Some "Unknown input option: foo"));
       EvWarn (deprecationWarning [{| dep_old := "entry"; dep_new := "input" |}])] /\
  (exists e, fst (@getInputOptions Cases.fussyEnv Inputs.legacyInput []) = Failed e).
Proof.
  split; [|eexists; reflexivity].
  apply (@getInputOptions_warns_before_checking Cases.fussyEnv Inputs.legacyInput []).
  reflexivity.
Defined.

(** X4: the three ways [normalizeOutputOptions] ends for given raw
    options.  An unknown option is an error here, not a warning, and is
    thrown before any warning; otherwise the renamed options are warned
    about, also when the check of the options then fails; the options
    returned are the first of the merged output options, and an error of
    the check carries no code. *)
Theorem normalizeOutputOptions_outcome `{C : Collaborators}
    (inputOptions : InputOptions) (rawOutputOptions : JsValue) (t : list Event) :
  truthy rawOutputOptions = true ->
  let merged := mergedForOutput inputOptions rawOutputOptions in
  let outputOptions := mergedOutputOptions inputOptions rawOutputOptions in
  let warned := t ++ deprecationWarnings (merged_deprecations merged) in
  if truthyStr (merged_optionError merged) then
    normalizeOutputOptions inputOptions rawOutputOptions t
      = (Failed (newError (default "" (merged_optionError merged))), t)
  else if validOutputOptions outputOptions then
    normalizeOutputOptions inputOptions rawOutputOptions t = (Fulfilled outputOptions, warned)
  else
    exists e, normalizeOutputOptions inputOptions rawOutputOptions t = (Failed e, warned) /\
              err_code e = None.
Proof.
  intros Hraw merged outputOptions warned. subst merged outputOptions warned.
  unfold normalizeOutputOptions, mergedForOutput, mergedOutputOptions, deprecationWarnings.
  rewrite Hraw. cbn [negb]. cbv zeta.
  set (merged := mergeOptions _ DeprecateOutput).
  destruct (truthyStr (merged_optionError merged)); eff_run; [reflexivity|].
  set (outputOptions := default JsUndefined (head (merged_outputOptions merged))).
  destruct (validOutputOptions outputOptions) eqn:Hvalid.
  - destruct (0 <? length _); unfold addDeprecations; eff_run;
      rewrite (checkOutputOptions_valid outputOptions) by exact Hvalid; eff_run;
      rewrite ?app_nil_r; reflexivity.
  - destruct (0 <? length _); unfold addDeprecations, deprecationWarning; eff_run;
      lazymatch goal with
      | |- context [checkOutputOptions outputOptions ?s] =>
          destruct (checkOutputOptions_invalid outputOptions s Hvalid) as [e [Hrun He]]
      end;
      exists e; rewrite Hrun; eff_run; rewrite ?app_nil_r; (split; [reflexivity|exact He]).
Qed.

Lemma normalizeOutputOptions_outcome_witness :
  @normalizeOutputOptions Cases.renamingEnv Inputs.noInput Cases.esOutput []
    = (Fulfilled Cases.esOutput,
       [EvWarn (deprecationWarning [{| dep_old := "dest"; dep_new := "file" |}])]).
Proof.
  exact (@normalizeOutputOptions_outcome Cases.renamingEnv Inputs.noInput
           Cases.esOutput [] eq_refl).
Defined.

(** ** The build phase *)

Section BuildPhaseSteps.
Context `{C : Collaborators}.

Lemma hooksOnly_refl (P : Event -> Prop) (b : Build) : hooksOnly P b b.
Proof.
  split; [|by repeat split]. exists []. split; [by rewrite app_nil_r | constructor].
Qed.

Lemma hooksOnly_trans (P : Event -> Prop) (b1 b2 b3 : Build) :
  hooksOnly P b1 b2 -> hooksOnly P b2 b3 -> hooksOnly P b1 b3.
Proof.
  intros [[evs [Ht Hevs]] (Hp & Hi & Hc & Ho)] [[evs' [Ht' Hevs']] (Hp' & Hi' & Hc' & Ho')].
  split; [|repeat split; congruence].
  exists (evs ++ evs'). split; [by rewrite Ht', Ht, app_assoc | by apply Forall_app].
Qed.

Lemma callBuildStart_hooksOnly (plugin : Plugin) (b : Build) :
  hooksOnly isBuildStartCall b (snd (callBuildStart plugin b)).
Proof.
  unfold callBuildStart. destruct (buildStart plugin) as [hook|]; [|apply hooksOnly_refl].
  destruct (hook (assetsById (graph b))) as [r assets]. split; [|by repeat split].
  exists [EvBuildStart (name plugin)]. split; [reflexivity|]. by repeat constructor.
Qed.

Lemma callBuildEnd_hooksOnly (err : option JsError) (plugin : Plugin) (b : Build) :
  hooksOnly (isBuildEndCall err) b (snd (callBuildEnd err plugin b)).
Proof.
  unfold callBuildEnd. destruct (buildEnd plugin) as [hook|]; [|apply hooksOnly_refl].
  destruct (hook err (assetsById (graph b))) as [r assets]. split; [|by repeat split].
  exists [EvBuildEnd (name plugin) err]. split; [reflexivity|]. by repeat constructor.
Qed.

Lemma applyBuildStartHook_hooksOnly (b : Build) :
  hooksOnly isBuildStartCall b (snd (applyBuildStartHook b)).
Proof.
  apply (related_promiseAll _ (hooksOnly_refl _) (hooksOnly_trans _)).
  apply Forall_fmap, Forall_true. intros plugin s. apply callBuildStart_hooksOnly.
Qed.

Lemma applyBuildEndHook_hooksOnly (err : option JsError) (b : Build) :
  hooksOnly (isBuildEndCall err) b (snd (applyBuildEndHook err b)).
Proof.
  apply (related_promiseAll _ (hooksOnly_refl _) (hooksOnly_trans _)).
  apply Forall_fmap, Forall_true. intros plugin s. apply callBuildEnd_hooksOnly.
Qed.


(** [runBuild], step by step. *)
Lemma runBuild_steps (b : Build) :
  let io := inputOptions b in
  match applyBuildStartHook (setTrace (trace b ++ [EvTimeStart "BUILD"]) b) with
  | (HookThrows e, b1) => runBuild b = (Failed e, b1)
  | (HookRejects e, b1) =>
      runBuild b = (Failed (rejectionAfter (fst (applyBuildEndHook (Some e) b1)) e),
                    snd (applyBuildEndHook (Some e) b1))
  | (HookDone, b1) =>
      match graph_build (graph b1) (opt io "input") (opt io "manualChunks")
                        (opt io "inlineDynamicImports") (opt io "preserveModules") with
      | (Rejects e, g) =>
          let b2 := setGraph g (setTrace (trace b1 ++ [EvGraphBuild]) b1) in
          runBuild b = (Failed (rejectionAfter (fst (applyBuildEndHook (Some e) b2)) e),
                        snd (applyBuildEndHook (Some e) b2))
      | (Resolves cs, g) =>
          let b2 := setGraph g (setTrace (trace b1 ++ [EvGraphBuild]) b1) in
          match applyBuildEndHook None b2 with
          | (HookDone, b3) =>
              let b4 := setOptimized false
                          (setChunks cs (setTrace (trace b3 ++ [EvTimeEnd "BUILD"]) b3)) in
              runBuild b = (Fulfilled {| cache := graph_getCache (graph b3);
                                         getTimings := strictEqTrue (opt io "perf");
                                         state := b4 |}, b4)
          | (HookThrows e, b3) | (HookRejects e, b3) => runBuild b = (Failed e, b3)
          end
      end
  end.
Proof.
  intros io. subst io. unfold runBuild. eff_run. cbn [inputOptions setTrace].
  destruct (applyBuildStartHook (setTrace (trace b ++ [EvTimeStart "BUILD"]) b))
    as [[|e|e] b1] eqn:Hb1; eff_run.
  - unfold attempt, graphBuild.
    destruct (graph_build (graph b1) _ _ _ _) as [[cs|e] g]; cbn [await]; eff_run;
      cbv zeta; unfold awaitHooks.
    + destruct (applyBuildEndHook None _) as [[|e|e] b3]; eff_run; reflexivity.
    + destruct (applyBuildEndHook (Some e) _) as [[|e'|e'] b3]; eff_run; reflexivity.
  - reflexivity.
  - unfold attempt. eff_run. unfold awaitHooks.
    destruct (applyBuildEndHook (Some e) b1) as [[|e'|e'] b3]; eff_run; reflexivity.
Qed.

(** A fan-out of [buildStart] that throws has called the hooks up to the
    one that threw, and no hook after it. *)
Lemma promiseAllFrom_buildStart_throw (ps : list Plugin) (rejected : option JsError)
    (b b1 : Build) (e : JsError) :
  promiseAllFrom (callBuildStart <$> ps) rejected b = (HookThrows e, b1) ->
  exists before thrower after,
    ps = before ++ thrower :: after /\
    buildStartThrows thrower e /\
    trace b1 = trace b ++ buildStartCalls (before ++ [thrower]).
Proof.
  revert rejected b. induction ps as [|plugin rest IH]; intros rejected b.
  - cbn. by destruct rejected.
  - cbn [fmap list_fmap promiseAllFrom]. unfold callBuildStart at 1.
    destruct (buildStart plugin) as [hook|] eqn:Hhook.
    + destruct (hook (assetsById (graph b))) as [[|e'|e'] assets] eqn:Hcall.
      * intros H. apply IH in H as (before & thrower & after & -> & Hthrows & Htrace).
        exists (plugin :: before), thrower, after. split; [reflexivity|].
        split; [exact Hthrows|]. rewrite Htrace. cbn [trace setTrace setAssets setGraph].
        unfold buildStartCalls. cbn [app omap list_omap]. rewrite Hhook. cbn [hasHook].
        by rewrite <- app_assoc.
      * intros [= -> <-]. exists [], plugin, rest. split; [reflexivity|]. split.
        -- exists hook, (assetsById (graph b)). by rewrite Hcall.
        -- unfold buildStartCalls. cbn. by rewrite Hhook.
      * intros H. apply IH in H as (before & thrower & after & -> & Hthrows & Htrace).
        exists (plugin :: before), thrower, after. split; [reflexivity|].
        split; [exact Hthrows|]. rewrite Htrace. cbn [trace setTrace setAssets setGraph].
        unfold buildStartCalls. cbn [app omap list_omap]. rewrite Hhook. cbn [hasHook].
        by rewrite <- app_assoc.
    + intros H. apply IH in H as (before & thrower & after & -> & Hthrows & Htrace).
      exists (plugin :: before), thrower, after. split; [reflexivity|].
      split; [exact Hthrows|]. rewrite Htrace.
      unfold buildStartCalls. cbn [app omap list_omap]. by rewrite Hhook.
Qed.

(** A fan-out of [buildStart] that does not throw has called every hook. *)
Lemma promiseAllFrom_buildStart_calls (ps : list Plugin) (rejected : option JsError)
    (b : Build) :
  (forall e, fst (promiseAllFrom (callBuildStart <$> ps) rejected b) <> HookThrows e) ->
  trace (snd (promiseAllFrom (callBuildStart <$> ps) rejected b))
    = trace b ++ buildStartCalls ps.
Proof.
  revert rejected b. induction ps as [|plugin rest IH]; intros rejected b.
  - intros _. cbn. by rewrite app_nil_r.
  - cbn [fmap list_fmap promiseAllFrom]. unfold buildStartCalls. cbn [omap list_omap].
    fold (buildStartCalls rest).
    destruct (callBuildStart plugin b) as [r b'] eqn:Hcall. unfold callBuildStart in Hcall.
    destruct (buildStart plugin) as [hook|]; cbn [hasHook].
    + destruct (hook (assetsById (graph b))) as [r0 assets]. injection Hcall as <- <-.
      destruct r0 as [|e'|e']; intros H.
      * rewrite (IH _ _ H). cbn [trace setTrace setAssets setGraph].
        by rewrite <- app_assoc.
      * by destruct (H e').
      * rewrite (IH _ _ H). cbn [trace setTrace setAssets setGraph].
        by rewrite <- app_assoc.
    + injection Hcall as <- <-. apply IH.
Qed.

(** A fan-out of [buildEnd] that does not throw has called every hook;
    one that throws has called the hooks up to the one that threw. *)
Lemma promiseAllFrom_buildEnd_calls (err : option JsError) (ps : list Plugin)
    (rejected : option JsError) (b : Build) :
  (forall e, fst (promiseAllFrom (callBuildEnd err <$> ps) rejected b) <> HookThrows e) ->
  trace (snd (promiseAllFrom (callBuildEnd err <$> ps) rejected b))
    = trace b ++ buildEndCalls err ps.
Proof.
  revert rejected b. induction ps as [|plugin rest IH]; intros rejected b.
  - intros _. cbn. by rewrite app_nil_r.
  - cbn [fmap list_fmap promiseAllFrom]. unfold buildEndCalls. cbn [omap list_omap].
    fold (buildEndCalls err rest).
    destruct (callBuildEnd err plugin b) as [r b'] eqn:Hcall. unfold callBuildEnd in Hcall.
    destruct (buildEnd plugin) as [hook|]; cbn [hasHook].
    + destruct (hook err (assetsById (graph b))) as [r0 assets]. injection Hcall as <- <-.
      destruct r0 as [|e'|e']; intros H.
      * rewrite (IH _ _ H). cbn [trace setTrace setAssets setGraph].
        by rewrite <- app_assoc.
      * by destruct (H e').
      * rewrite (IH _ _ H). cbn [trace setTrace setAssets setGraph].
        by rewrite <- app_assoc.
    + injection Hcall as <- <-. apply IH.
Qed.



Lemma rollup_runBuild (rawInputOptions : JsValue) (curWatcher : option string)
    (inputOptions : InputOptions) (t : list Event) :
  getInputOptions rawInputOptions [] = (Fulfilled inputOptions, t) ->
  rollup rawInputOptions curWatcher
    = (fst (runBuild (startOfBuild inputOptions curWatcher t)),
       trace (snd (runBuild (startOfBuild inputOptions curWatcher t)))).
Proof.
  intros Hoptions. unfold rollup. rewrite Hoptions. unfold startOfBuild.
  destruct (runBuild _) as [o b]. reflexivity.
Qed.

End BuildPhaseSteps.

(** X5: when a [buildStart] hook throws synchronously, [rollup] rejects
    with that error at once: the [buildStart] hooks of the plugins before
    the one that threw have been called, and its own; the hooks of the
    plugins after it, [graph.build] and the [buildEnd] hooks are not
    called, and the [BUILD] timer is not stopped. *)
Theorem buildStart_throw_rejects_at_once `{C : Collaborators} (rawInputOptions : JsValue)
    (curWatcher : option string) (inputOptions : InputOptions) (t : list Event)
    (e : JsError) (b1 : Build) :
  getInputOptions rawInputOptions [] = (Fulfilled inputOptions, t) ->
  let b := startOfBuild inputOptions curWatcher t in
  applyBuildStartHook (setTrace (trace b ++ [EvTimeStart "BUILD"]) b) = (HookThrows e, b1) ->
  exists before thrower after,
    io_plugins inputOptions = before ++ thrower :: after /\
    buildStartThrows thrower e /\
    rollup rawInputOptions curWatcher
      = (Failed e, t ++ EvTimeStart "BUILD" :: buildStartCalls (before ++ [thrower])).
Proof.
  intros Hoptions b Hstart.
  rewrite (rollup_runBuild _ curWatcher _ _ Hoptions). fold b.
  pose proof (runBuild_steps b) as Hsteps. cbv zeta in Hsteps.
  rewrite Hstart in Hsteps. rewrite Hsteps. cbn [fst snd].
  apply promiseAllFrom_buildStart_throw in Hstart
    as (before & thrower & after & Hplugins & Hthrows & Htrace).
  exists before, thrower, after. split; [exact Hplugins|]. split; [exact Hthrows|].
  rewrite Htrace. cbn [trace setTrace b startOfBuild]. by rewrite <- app_assoc.
Qed.

Lemma buildStart_throw_rejects_at_once_witness :
  exists before thrower after,
    [Cases.quietStart; Cases.throwingStart; Cases.quietStart] = before ++ thrower :: after /\
    buildStartThrows thrower Cases.startError /\
    @rollup (Cases.buildingEnv [Cases.quietStart; Cases.throwingStart; Cases.quietStart])
        Inputs.mainInput None
      = (Failed Cases.startError,
         [] ++ EvTimeStart "BUILD" :: buildStartCalls (before ++ [thrower])).
Proof.
  eapply (@buildStart_throw_rejects_at_once
            (Cases.buildingEnv [Cases.quietStart; Cases.throwingStart; Cases.quietStart])
            Inputs.mainInput None
            (@hookedInputOptions
               (Cases.buildingEnv [Cases.quietStart; Cases.throwingStart; Cases.quietStart])
               Inputs.mainInput)
            [] Cases.startError); reflexivity.
Defined.



(** X7: the order of a build that succeeds: the warnings of the options,
    the start of the [BUILD] timer, the [buildStart] hook of every plugin
    in the order of the plugins, one call of [graph.build], the
    [buildEnd] hook of every plugin of the graph in the order of the
    plugins, called without an error, and the end of the [BUILD]
    timer. *)
Theorem rollup_order_of_a_successful_build `{C : Collaborators} (rawInputOptions : JsValue)
    (curWatcher : option string) (inputOptions : InputOptions) (t0 : list Event)
    (rb : RollupBuild) :
  getInputOptions rawInputOptions [] = (Fulfilled inputOptions, t0) ->
  fst (rollup rawInputOptions curWatcher) = Fulfilled rb ->
  exists cs g,
    graph_build (graph (afterBuildStart (startOfBuild inputOptions curWatcher t0)))
                (opt inputOptions "input") (opt inputOptions "manualChunks")
                (opt inputOptions "inlineDynamicImports")
                (opt inputOptions "preserveModules") = (Resolves cs, g) /\
    snd (rollup rawInputOptions curWatcher)
      = t0 ++ EvTimeStart "BUILD" :: buildStartCalls (io_plugins inputOptions) ++
        EvGraphBuild :: buildEndCalls None (plugins g) ++ [EvTimeEnd "BUILD"].
Proof.
  intros Hoptions. rewrite (rollup_runBuild _ curWatcher _ _ Hoptions).
  unfold afterBuildStart.
  set (b := startOfBuild inputOptions curWatcher t0).
  pose proof (runBuild_steps b) as Hsteps. cbv zeta in Hsteps.
  pose proof (promiseAllFrom_buildStart_calls (io_plugins inputOptions) None
                (setTrace (trace b ++ [EvTimeStart "BUILD"]) b)) as Htrace.
  unfold applyBuildStartHook, promiseAll in *.
  cbn [graph setTrace b startOfBuild newGraph plugins] in *.
  destruct (promiseAllFrom _ None _) as [[|e|e] b1];
    [|rewrite Hsteps; discriminate..].
  cbn [fst snd] in *. specialize (Htrace ltac:(discriminate)).
  destruct (graph_build (graph b1) _ _ _ _) as [[cs|e] g];
    [|rewrite Hsteps; discriminate].
  match type of Hsteps with context [applyBuildEndHook None ?b2] =>
    pose proof (promiseAllFrom_buildEnd_calls None (plugins (graph b2)) None b2)
      as Htrace' end.
  unfold applyBuildEndHook, promiseAll in *.
  destruct (promiseAllFrom (callBuildEnd None <$> _) None _) as [[|e|e] b3];
    [|rewrite Hsteps; discriminate..].
  cbn [fst snd] in Htrace'. specialize (Htrace' ltac:(discriminate)).
  rewrite Hsteps. cbn [fst snd]. intros _.
  exists cs, g. split; [reflexivity|].
  cbn [trace graph plugins setOptimized setChunks setTrace setGraph] in *.
  rewrite Htrace', Htrace. cbn [trace b startOfBuild].
  rewrite <- !app_assoc. reflexivity.
Qed.

Lemma rollup_order_of_a_successful_build_witness :
  snd (@rollup (Cases.buildingEnv [Cases.quietStart; Inputs.quietEnd]) Inputs.mainInput None)
    = [EvTimeStart "BUILD"; EvBuildStart "quiet"; EvGraphBuild;
       EvBuildEnd "quiet" None; EvBuildEnd "quiet" None; EvTimeEnd "BUILD"].
Proof.
  edestruct (@rollup_order_of_a_successful_build
               (Cases.buildingEnv [Cases.quietStart; Inputs.quietEnd]) Inputs.mainInput None
               (@hookedInputOptions (Cases.buildingEnv [Cases.quietStart; Inputs.quietEnd])
                  Inputs.mainInput))
    as (cs & g & Hbuild & Htrace); [reflexivity | reflexivity |].
  rewrite Htrace. injection Hbuild as _ <-. reflexivity.
Defined.

(** X8: the handle of a build that succeeds: its closures hold the
    options [getInputOptions] returned, the chunks [graph.build] resolved
    with and the optimisation latch, open; its cache is read from the
    graph after the [buildEnd] hooks; [getTimings] is there exactly when
    the [perf] option is [true] itself. *)
Theorem rollup_handle `{C : Collaborators} (rawInputOptions : JsValue)
    (curWatcher : option string) (hooked : InputOptions) (t0 : list Event)
    (rb : RollupBuild) :
  getInputOptions rawInputOptions [] = (Fulfilled hooked, t0) ->
  fst (rollup rawInputOptions curWatcher) = Fulfilled rb ->
  inputOptions (state rb) = hooked /\
  (exists g g', graph_build g (opt hooked "input") (opt hooked "manualChunks")
                  (opt hooked "inlineDynamicImports")
                  (opt hooked "preserveModules") = (Resolves (chunks (state rb)), g')) /\
  cache rb = graph_getCache (graph (state rb)) /\
  optimized (state rb) = false /\
  getTimings rb = strictEqTrue (opt hooked "perf") /\
  trace (state rb) = snd (rollup rawInputOptions curWatcher).
Proof.
  intros Hoptions. rewrite (rollup_runBuild _ curWatcher _ _ Hoptions).
  set (b := startOfBuild hooked curWatcher t0).
  pose proof (runBuild_steps b) as Hsteps. cbv zeta in Hsteps.
  pose proof (applyBuildStartHook_hooksOnly (setTrace (trace b ++ [EvTimeStart "BUILD"]) b))
    as (_ & Hplugins & Hio & _).
  destruct (applyBuildStartHook _) as [[|e|e] b1];
    [|rewrite Hsteps; discriminate..].
  cbn [snd] in Hplugins, Hio.
  destruct (graph_build (graph b1) _ _ _ _) as [[cs|e] g] eqn:Hbuild;
    [|rewrite Hsteps; discriminate].
  match type of Hsteps with context [applyBuildEndHook None ?b2] =>
    pose proof (applyBuildEndHook_hooksOnly None b2) as (_ & Hplugins' & Hio' & _) end.
  destruct (applyBuildEndHook None _) as [[|e|e] b3];
    [|rewrite Hsteps; discriminate..].
  cbn [snd] in Hplugins', Hio'. rewrite Hsteps. cbn [fst snd]. intros [= <-].
  cbn [state cache getTimings inputOptions graph chunks optimized trace
       setOptimized setChunks setTrace setGraph] in *.
  rewrite Hio', Hio. cbn [inputOptions b startOfBuild] in *.
  split; [reflexivity|]. split; [by exists (graph b1), g|]. by repeat split.
Qed.

Lemma rollup_handle_witness :
  exists rb,
    fst (@rollup Inputs.env Cases.perfInput None) = Fulfilled rb /\
    getTimings rb = true /\
    optimized (state rb) = false /\
    chunks (state rb) = [Sample.entryChunk "main"].
Proof.
  eexists. split; [reflexivity|].
  edestruct (@rollup_handle Inputs.env Cases.perfInput None) as (_ & Hchunks & _ & Hlatch & Htimings & _);
    [reflexivity | reflexivity |].
  split; [exact Htimings|]. split; [exact Hlatch|].
  destruct Hchunks as (g & g' & Hchunks). by injection Hchunks.
Defined.

(** ** The naming and the rendering of the chunks *)

Section Bundle.

Lemma bundleGet_bundleSet (k : string) (v : OutputFile) (bundle : OutputBundle) :
  bundleGet k (bundleSet k v bundle) = Some v.
Proof.
  induction bundle as [|[k' v'] rest IH]; cbn [bundleSet bundleGet].
  - by rewrite String.eqb_refl.
  - destruct (String.eqb k' k) eqn:Hk; cbn [bundleGet].
    + by rewrite String.eqb_refl.
    + by rewrite Hk.
Qed.

Lemma bundleGet_bundleSet_other (k k' : string) (v : OutputFile) (bundle : OutputBundle) :
  k <> k' -> bundleGet k' (bundleSet k v bundle) = bundleGet k' bundle.
Proof.
  intros Hne. induction bundle as [|[k0 v0] rest IH]; cbn [bundleSet bundleGet].
  - apply String.eqb_neq in Hne. by rewrite Hne.
  - destruct (String.eqb k0 k) eqn:Hk; cbn [bundleGet].
    + apply String.eqb_eq in Hk as ->. apply String.eqb_neq in Hne. by rewrite Hne.
    + destruct (String.eqb k0 k'); [reflexivity | exact IH].
Qed.

Lemma bundleSet_bundleSet (k : string) (v v' : OutputFile) (bundle : OutputBundle) :
  bundleSet k v' (bundleSet k v bundle) = bundleSet k v' bundle.
Proof.
  induction bundle as [|[k0 v0] rest IH]; cbn [bundleSet].
  - by rewrite String.eqb_refl.
  - destruct (String.eqb k0 k) eqn:Hk; cbn [bundleSet].
    + by rewrite String.eqb_refl.
    + by rewrite Hk, IH.
Qed.

Lemma keepsChunks_refl (bundle : OutputBundle) : keepsChunks bundle bundle.
Proof. intros k oc H. exists oc. by repeat split. Qed.

Lemma keepsChunks_trans (b1 b2 b3 : OutputBundle) :
  keepsChunks b1 b2 -> keepsChunks b2 b3 -> keepsChunks b1 b3.
Proof.
  intros H12 H23 k oc H. destruct (H12 k oc H) as (oc' & H' & Hname & Hcode).
  destruct (H23 k oc' H') as (oc'' & H'' & Hname' & Hcode').
  exists oc''. split; [exact H''|]. split; [congruence | auto].
Qed.

Lemma keepsChunks_set (k : string) (outputChunk outputChunk' : OutputChunk)
    (bundle : OutputBundle) :
  bundleGet k bundle = Some (OutChunk outputChunk) ->
  fileName outputChunk' = fileName outputChunk ->
  is_Some (code outputChunk') ->
  keepsChunks bundle (bundleSet k (OutChunk outputChunk') bundle).
Proof.
  intros Hget Hname Hcode k0 oc H0. destruct (decide (k = k0)) as [<-|Hne].
  - exists outputChunk'. rewrite bundleGet_bundleSet. split; [reflexivity|].
    rewrite Hget in H0. injection H0 as <-. by split.
  - exists oc. rewrite bundleGet_bundleSet_other by exact Hne. by repeat split.
Qed.

End Bundle.

Section Naming.
Context `{C : Collaborators}.

Lemma nameChunk_single_file (inputOptions : InputOptions) (outputOptions : JsValue)
    (inputBase : string) (addons : Addons) (named : list Chunk) (bundle : OutputBundle)
    (chunk : Chunk) :
  truthy (get outputOptions "file") = true ->
  let file := basename (get outputOptions "file") in
  nameChunk inputOptions outputOptions inputBase addons (named, bundle) chunk
    = (named ++ [setId file chunk], bundleSet file (OutChunk (skeletonOf chunk file)) bundle).
Proof. intros Hfile file. unfold nameChunk. rewrite Hfile. reflexivity. Qed.

Lemma nameChunk_namedIn (inputOptions : InputOptions) (outputOptions : JsValue)
    (inputBase : string) (addons : Addons) (acc : list Chunk * OutputBundle) (chunk : Chunk) :
  Forall (namedIn (snd acc)) (fst acc) ->
  let acc' := nameChunk inputOptions outputOptions inputBase addons acc chunk in
  Forall (namedIn (snd acc')) (fst acc').
Proof.
  destruct acc as [named bundle]. cbn [fst snd]. intros Hnamed. unfold nameChunk.
  match goal with |- context [bundleSet (id ?c) (OutChunk ?oc) bundle] =>
    set (chunk' := c); set (entry := oc) end.
  cbn [fst snd]. apply Forall_app. split.
  - eapply Forall_impl; [exact Hnamed|]. intros c (oc & Hget & Hname).
    destruct (decide (id chunk' = id c)) as [Heq|Hne].
    + exists entry. rewrite <- Heq, bundleGet_bundleSet. by split.
    + exists oc. rewrite bundleGet_bundleSet_other by exact Hne. by split.
  - constructor; [|constructor]. exists entry. rewrite bundleGet_bundleSet. by split.
Qed.

End Naming.

(** X9: with [output.file] set, the naming loop gives every chunk the
    base name of that file, and stores every entry under that one name:
    the bundle gains one entry, the one of the last chunk. *)
Theorem single_file_names_every_chunk_alike `{C : Collaborators}
    (inputOptions : InputOptions) (outputOptions : JsValue) (inputBase : string)
    (addons : Addons) (bundle : OutputBundle) (cs : list Chunk) :
  truthy (get outputOptions "file") = true ->
  let file := basename (get outputOptions "file") in
  foldl (nameChunk inputOptions outputOptions inputBase addons) ([], bundle) cs
    = (setId file <$> cs,
       match last cs with
       | Some chunk => bundleSet file (OutChunk (skeletonOf chunk file)) bundle
       | None => bundle
       end).
Proof.
  intros Hfile file.
  enough (H : forall named,
            foldl (nameChunk inputOptions outputOptions inputBase addons) (named, bundle) cs
              = (named ++ (setId file <$> cs),
                 match last cs with
                 | Some chunk => bundleSet file (OutChunk (skeletonOf chunk file)) bundle
                 | None => bundle
                 end)) by apply (H []).
  revert bundle. induction cs as [|chunk rest IH]; intros bundle named.
  - cbn. by rewrite app_nil_r.
  - cbn [foldl]. rewrite (nameChunk_single_file _ _ _ _ _ _ _ Hfile). fold file.
    rewrite IH. cbn [fmap list_fmap]. rewrite <- app_assoc. cbn [app]. f_equal.
    destruct rest as [|chunk' rest]; [reflexivity|].
    rewrite last_cons_cons. clear IH.
    destruct (last (chunk' :: rest)) eqn:Hlast; [apply bundleSet_bundleSet|].
    by apply last_None in Hlast.
Qed.

Lemma single_file_names_every_chunk_alike_witness :
  foldl (@nameChunk Inputs.env Inputs.noInput Cases.outFile "" Cases.plainAddons)
        ([], []) [Sample.entryChunk "main"; Sample.sharedChunk "shared"]
    = (setId "out.js" <$> [Sample.entryChunk "main"; Sample.sharedChunk "shared"],
       [("out.js", OutChunk (@skeletonOf Inputs.env (Sample.sharedChunk "shared") "out.js"))]).
Proof.
  exact (@single_file_names_every_chunk_alike Inputs.env Inputs.noInput Cases.outFile ""
           Cases.plainAddons [] [Sample.entryChunk "main"; Sample.sharedChunk "shared"]
           eq_refl).
Defined.

Section Rendering.
Context `{C : Collaborators}.

Lemma naming_namedIn (inputOptions : InputOptions) (outputOptions : JsValue)
    (inputBase : string) (addons : Addons) (bundle : OutputBundle) (cs : list Chunk) :
  let acc := foldl (nameChunk inputOptions outputOptions inputBase addons) ([], bundle) cs in
  Forall (namedIn (snd acc)) (fst acc).
Proof.
  apply (foldl_invariant (fun acc => Forall (namedIn (snd acc)) (fst acc))).
  - intros acc chunk. apply nameChunk_namedIn.
  - constructor.
Qed.

Lemma promiseAllFrom_done {S} (calls : list (S -> HookResult * S))
    (rejected : option JsError) (s : S) :
  fst (promiseAllFrom calls rejected s) = HookDone -> rejected = None.
Proof.
  revert rejected s. induction calls as [|call rest IH]; intros rejected s.
  - cbn. by destruct rejected.
  - cbn [promiseAllFrom]. destruct (call s) as [[|e|e] s1]; [apply IH|discriminate|].
    intros H. by apply IH in H.
Qed.

Lemma renderChunk_chunks (outputOptions : JsValue) (addons : Addons) (chunk : Chunk)
    (st : Build * OutputBundle) :
  onBuild (fun b b' => chunks b' = chunks b) st
          (snd (renderChunk outputOptions addons chunk st)).
Proof.
  destruct st as [b bundle]. unfold renderChunk, onBuild.
  destruct (chunk_render _ _ _) as [rendered|e]; [|reflexivity].
  destruct (bundleGet _ _) as [[|outputChunk]|]; try reflexivity.
  match goal with |- context [promiseAll ?calls b] =>
    assert (H : chunks (snd (promiseAll calls b)) = chunks b);
    [|destruct (promiseAll calls b) as [[|e|e] b']; exact H] end.
  apply (related_promiseAll (fun b b' => chunks b' = chunks b)); [done|congruence|].
  apply Forall_fmap, Forall_true. intros plugin s. unfold callOngenerate.
  by destruct (ongenerate plugin).
Qed.

Lemma renderChunk_keepsChunks (outputOptions : JsValue) (addons : Addons) (chunk : Chunk)
    (st : Build * OutputBundle) :
  keepsChunks (snd st) (snd (snd (renderChunk outputOptions addons chunk st))).
Proof.
  destruct st as [b bundle]. unfold renderChunk.
  destruct (chunk_render _ _ _) as [rendered|e]; [|apply keepsChunks_refl].
  destruct (bundleGet _ _) as [[|outputChunk]|] eqn:Hget; try apply keepsChunks_refl.
  assert (keepsChunks bundle
            (bundleSet (id chunk) (OutChunk (setRendered rendered outputChunk)) bundle)).
  { apply (keepsChunks_set _ outputChunk); [exact Hget | reflexivity | by eexists]. }
  destruct (promiseAll _ _) as [[|e|e] b']; assumption.
Qed.

Lemma renderChunk_done (outputOptions : JsValue) (addons : Addons) (chunk : Chunk)
    (st : Build * OutputBundle) :
  fst (renderChunk outputOptions addons chunk st) = HookDone ->
  exists outputChunk,
    bundleGet (id chunk) (snd (snd (renderChunk outputOptions addons chunk st)))
      = Some (OutChunk outputChunk) /\
    is_Some (code outputChunk).
Proof.
  destruct st as [b bundle]. unfold renderChunk.
  destruct (chunk_render _ _ _) as [rendered|e]; [|discriminate].
  destruct (bundleGet _ _) as [[|outputChunk]|] eqn:Hget; try discriminate.
  destruct (promiseAll _ _) as [[|e|e] b']; try discriminate. intros _.
  exists (setRendered rendered outputChunk). cbn [snd].
  rewrite bundleGet_bundleSet. split; [reflexivity | by eexists].
Qed.

Lemma renderAll_done (outputOptions : JsValue) (addons : Addons) (cs : list Chunk)
    (rejected : option JsError) (st : Build * OutputBundle) :
  let run := promiseAllFrom (renderChunk outputOptions addons <$> cs) rejected st in
  fst run = HookDone ->
  keepsChunks (snd st) (snd (snd run)) /\
  Forall (fun chunk => exists outputChunk,
            bundleGet (id chunk) (snd (snd run)) = Some (OutChunk outputChunk) /\
            is_Some (code outputChunk)) cs.
Proof.
  revert rejected st. induction cs as [|chunk rest IH]; intros rejected st run Hdone;
    subst run.
  - cbn. split; [apply keepsChunks_refl | constructor].
  - cbn [fmap list_fmap promiseAllFrom] in *.
    pose proof (renderChunk_keepsChunks outputOptions addons chunk st) as Hkeep.
    pose proof (renderChunk_done outputOptions addons chunk st) as Hone.
    destruct (renderChunk outputOptions addons chunk st) as [[|e|e] st1];
      cbn [fst snd] in *; [|discriminate|by apply promiseAllFrom_done in Hdone].
    destruct (IH rejected st1 Hdone) as [Hkeep' Hrest].
    split; [eapply keepsChunks_trans; eassumption|].
    constructor; [|exact Hrest].
    destruct (Hone eq_refl) as (oc & Hget & Hcode).
    destruct (Hkeep' _ _ Hget) as (oc' & Hget' & _ & Hcode'). eauto.
Qed.

End Rendering.

(** X10: when the rendering of a generate call succeeds, the bundle holds,
    for every chunk of the build, a chunk entry under the [id] the naming
    loop gave the chunk, with that [id] as its file name and with its
    code filled in. *)
Theorem renderBundle_renders_every_chunk `{C : Collaborators}
    (inputOptions : InputOptions) (outputOptions : JsValue) (inputBase : string)
    (outputBundle : OutputBundle) (addons : Addons) (b b' : Build)
    (rendered : OutputBundle) :
  renderBundle inputOptions outputOptions inputBase outputBundle addons b
    = (Fulfilled rendered, b') ->
  Forall (renderedIn rendered) (chunks b').
Proof.
  unfold renderBundle. intros H.
  do 4 (apply bind_fulfilled in H as (? & ? & _ & H)).
  apply bind_fulfilled in H as (pre & s & _ & H).
  pose proof (naming_namedIn inputOptions outputOptions inputBase addons outputBundle pre)
    as Hnamed. cbv zeta in Hnamed.
  destruct (foldl _ _ pre) as [named bundle]. cbn [fst snd] in Hnamed.
  apply bind_fulfilled in H as ([] & s' & Hset & H).
  rewrite run_modify in Hset. injection Hset as <-.
  pose proof (renderAll_done outputOptions addons named None (setChunks named s, bundle))
    as Hall.
  pose proof (related_promiseAll _
                (onBuild_refl (fun b b' => chunks b' = chunks b) (fun _ => eq_refl))
                (onBuild_trans (fun b b' => chunks b' = chunks b)
                   (fun b1 b2 b3 H12 H23 => eq_trans H23 H12))
                (renderChunk outputOptions addons <$> named) (setChunks named s, bundle))
    as Hchunks.
  unfold promiseAll in *. cbv zeta in Hall.
  destruct (promiseAllFrom _ None _) as [[|e|e] [b1 out]]; try discriminate.
  injection H as <- <-. cbn [fst snd] in *.
  destruct (Hall eq_refl) as [Hkeep Hcode].
  unfold onBuild in Hchunks. cbn [fst chunks setChunks] in Hchunks. rewrite Hchunks.
  - apply Forall_forall. intros chunk Hin.
    rewrite Forall_forall in Hnamed, Hcode.
    destruct (Hnamed chunk Hin) as (oc & Hget & Hname).
    destruct (Hcode chunk Hin) as (oc' & Hget' & Hsome).
    destruct (Hkeep _ _ Hget) as (oc'' & Hget'' & Hname' & _).
    exists oc'. split; [exact Hget'|]. split; [|exact Hsome]. congruence.
  - apply Forall_fmap, Forall_true. intros chunk st. apply renderChunk_chunks.
Qed.

Lemma renderBundle_renders_every_chunk_witness :
  exists rendered b',
    @renderBundle Inputs.env Inputs.noInput Inputs.esDir "" [] Cases.plainAddons
        Inputs.twoChunks = (Fulfilled rendered, b') /\
    chunks b' <> [] /\
    Forall (renderedIn rendered) (chunks b').
Proof.
  do 2 eexists. split; [reflexivity|]. split; [discriminate|].
  eapply (@renderBundle_renders_every_chunk Inputs.env Inputs.noInput Inputs.esDir ""
            [] Cases.plainAddons Inputs.twoChunks).
  reflexivity.
Defined.

(** ** Writing the files *)

Section WritePhase.
Context `{C : Collaborators}.

Lemma tracedBy_refl (P : Event -> Prop) (b : Build) : tracedBy P b b.
Proof. exists []. split; [by rewrite app_nil_r | constructor]. Qed.

Lemma tracedBy_trans (P : Event -> Prop) (b1 b2 b3 : Build) :
  tracedBy P b1 b2 -> tracedBy P b2 b3 -> tracedBy P b1 b3.
Proof.
  intros (evs & Ht & Hevs) (evs' & Ht' & Hevs').
  exists (evs ++ evs'). split; [by rewrite Ht', Ht, app_assoc | by apply Forall_app].
Qed.

Lemma tracedBy_elem (P : Event -> Prop) (b b' : Build) (ev : Event) :
  tracedBy P b b' -> ev ∈ trace b -> ev ∈ trace b'.
Proof. intros (evs & -> & _) Hin. apply elem_of_app. by left. Qed.

Lemma runOnwrite_progress (outputOptions : JsValue) (task : WriteTask) (b : Build) :
  tracedBy isProgress b (snd (runOnwrite outputOptions task b)).
Proof.
  destruct (task_file task) as [name source|chunk] eqn:Hfile.
  - unfold runOnwrite. rewrite Hfile. apply tracedBy_refl.
  - destruct (runOnwrite_chunk outputOptions task chunk b Hfile)
      as (hooks & stage & b' & -> & Htrace & Hhooks & _).
    exists hooks. split; [exact Htrace|].
    eapply Forall_impl; [exact Hhooks|]. intros ev Hev. by right.
Qed.

Lemma runOnwrite_task (outputOptions : JsValue) (task : WriteTask) (b : Build) :
  exists stage, fst (runOnwrite outputOptions task b) = setStage stage task /\
                (stage = Finished \/ exists e, stage = Broken e).
Proof.
  unfold runOnwrite. destruct (task_file task) as [name source|chunk]; [by eauto|].
  destruct (promiseAll _ b) as [[|e|e] b']; cbn [fst]; eauto.
Qed.

Lemma awaitSourceMap_progress (outputOptions : JsValue)
    (done : list (nat * option JsError)) (task : WriteTask) (b : Build) :
  tracedBy isProgress b (snd (awaitSourceMap outputOptions done task b)).
Proof.
  unfold awaitSourceMap. destruct (task_map task) as [w|]; [|apply runOnwrite_progress].
  destruct (resultOf w done) as [[e|]|];
    first [apply runOnwrite_progress | apply tracedBy_refl].
Qed.

Lemma advance_progress (outputOptions : JsValue)
    (done : list (nat * option JsError)) (task : WriteTask) (b : Build) :
  tracedBy isProgress b (snd (advance outputOptions done task b)).
Proof.
  unfold advance. destruct (task_stage task);
    try destruct (resultOf _ _) as [[e|]|];
    first [apply awaitSourceMap_progress | apply tracedBy_refl].
Qed.

Lemma advanceAll_progress (outputOptions : JsValue)
    (done : list (nat * option JsError)) (started : list WriteTask) (b : Build) :
  tracedBy isProgress b (snd (advanceAll outputOptions done started b)).
Proof.
  revert b. induction started as [|task rest IH]; intros b; [apply tracedBy_refl|].
  cbn [advanceAll]. pose proof (advance_progress outputOptions done task b) as H1.
  destruct (advance _ _ task b) as [task' b1]. specialize (IH b1).
  destruct (advanceAll _ _ rest b1) as [rest' b2]. cbn [snd] in *.
  eapply tracedBy_trans; eassumption.
Qed.

Lemma complete_progress (outputOptions : JsValue) (w : nat) (r : option JsError)
    (st : Build * Writes) :
  onBuild (tracedBy isProgress) st (complete outputOptions w r st).
Proof.
  destruct st as [b ws]. unfold complete, onBuild.
  destruct (issued ws !! w) as [path|]; [|apply tracedBy_refl].
  destruct (resultOf w (completed ws)); [apply tracedBy_refl|].
  match goal with |- context [advanceAll ?o ?d ?ts ?b0] =>
    pose proof (advanceAll_progress o d ts b0) as H;
    destruct (advanceAll o d ts b0) as [moved b1] end.
  cbn [fst snd] in *. eapply tracedBy_trans; [|exact H].
  eexists. split; [reflexivity|]. constructor; [|constructor]. left. by destruct r.
Qed.

Lemma schedule_progress (outputOptions : JsValue) (schedule : list (nat * option JsError))
    (st : Build * Writes) :
  onBuild (tracedBy isProgress) st
    (foldl (fun st '(w, r) => complete outputOptions w r st) st schedule).
Proof.
  apply (related_foldl _ (onBuild_refl _ (tracedBy_refl _))
                          (onBuild_trans _ (tracedBy_trans _))).
  intros st' [w r]. apply complete_progress.
Qed.

(** The writes [writeOutputFile] issues for a file: one, or two when the
    source map of a chunk goes to a file of its own. *)
Lemma writeOutputFile_issues (outputFile : OutputFile) (outputOptions : JsValue)
    (st : Build * list string) :
  exists evs,
    trace (fst (snd (writeOutputFile outputFile outputOptions st)))
      = trace (fst st) ++ evs /\
    Forall isIssue evs /\ 1 <= length evs <= 2.
Proof.
  destruct st as [b paths]. unfold writeOutputFile.
  destruct outputFile as [name source|chunk]; cbn [writeFile fst snd trace setTrace].
  - eexists. split; [reflexivity|]. split; [by repeat constructor | cbn; lia].
  - destruct (truthy _), (map chunk); try destruct (strictEqStr _ _);
      cbn [writeFile fst snd trace setTrace]; rewrite <- ?app_assoc;
      (eexists; split; [reflexivity|]; split; [by repeat constructor | cbn; lia]).
Qed.

Lemma issue_issues (outputOptions : JsValue) (files : list OutputFile)
    (started : list WriteTask) (st : Build * list string) :
  exists evs,
    trace (fst (snd (foldl (fun '(started, st) file =>
                              let '(task, st) := writeOutputFile file outputOptions st in
                              (started ++ [task], st))
                           (started, st) files)))
      = trace (fst st) ++ evs /\
    Forall isIssue evs /\ length files <= length evs <= 2 * length files.
Proof.
  revert started st. induction files as [|file rest IH]; intros started st; cbn [foldl].
  - exists []. split; [by rewrite app_nil_r|]. split; [constructor | cbn; lia].
  - destruct (writeOutputFile_issues file outputOptions st) as (evs & Ht & Hevs & Hlen).
    destruct (writeOutputFile file outputOptions st) as [task st1]. cbn [snd] in Ht.
    destruct (IH (started ++ [task]) st1) as (evs' & Ht' & Hevs' & Hlen').
    exists (evs ++ evs'). rewrite Ht', Ht, app_assoc. split; [reflexivity|].
    split; [by apply Forall_app|]. rewrite length_app. cbn [length]. lia.
Qed.

End WritePhase.

(** X12: [write] hands every write of every file to the file system
    before any of them completes and before any [onwrite] hook is called;
    in all there are at least as many writes as files, and at most twice
    as many.  The writes issued do not depend on the order in which the
    file system completes them. *)
Theorem writeFiles_issues_every_write_first `{C : Collaborators} (outputOptions : JsValue)
    (files : list OutputFile) (b : Build) :
  exists issues,
    Forall isIssue issues /\
    length files <= length issues <= 2 * length files /\
    forall schedule, exists rest,
      trace (snd (writeFiles outputOptions files schedule b)) = trace b ++ issues ++ rest /\
      Forall isProgress rest.
Proof.
  destruct (issue_issues outputOptions files [] (b, [])) as (issues & Ht & Hissues & Hlen).
  exists issues. split; [exact Hissues|]. split; [exact Hlen|]. intros schedule.
  unfold writeFiles.
  destruct (foldl _ ([], (b, [])) files) as [started [b1 paths]]. cbn [fst snd] in Ht.
  match goal with |- context [foldl ?f ?st0 schedule] =>
    pose proof (schedule_progress outputOptions schedule st0) as (rest & Ht' & Hrest) end.
  destruct (foldl _ _ schedule) as [b2 ws]. cbn [fst snd] in *.
  exists rest. split; [|exact Hrest]. by rewrite Ht', Ht, app_assoc.
Qed.

Section WritesInvariant.
Context `{C : Collaborators}.

Lemma writeOutputFile_task (outputFile : OutputFile) (outputOptions : JsValue)
    (st : Build * list string) :
  let run := writeOutputFile outputFile outputOptions st in
  task_file (fst run) = outputFile /\
  task_stage (fst run) = AwaitCode /\
  (exists extra, snd (snd run) = snd st ++ extra) /\
  snd (snd run) !! task_code (fst run) = Some (filePath outputOptions outputFile).
Proof.
  destruct st as [b paths]. unfold writeOutputFile, filePath.
  destruct outputFile as [name source|chunk]; cbn [writeFile fst snd fileNameOf].
  - repeat split; [by eexists|]. by rewrite lookup_app_r, Nat.sub_diag.
  - destruct (truthy _), (map chunk); try destruct (strictEqStr _ _);
      cbn [writeFile fst snd task_file task_stage task_code];
      (split; [reflexivity|]; split; [reflexivity|]; split;
       [rewrite <- ?app_assoc; by eexists|]);
      rewrite lookup_app_r by lia; rewrite ?length_app; cbn [length];
      try (replace (length paths + 1 - (length paths + 1)) with 0 by lia);
      try (replace (length paths - length paths) with 0 by lia); reflexivity.
Qed.

Lemma issue_tasks (outputOptions : JsValue) (files : list OutputFile)
    (started : list WriteTask) (st : Build * list string) :
  Forall (taskInvariant outputOptions (snd st) []) started ->
  let run := foldl (fun '(started, st) file =>
                      let '(task, st) := writeOutputFile file outputOptions st in
                      (started ++ [task], st))
                   (started, st) files in
  Forall (taskInvariant outputOptions (snd (snd run)) []) (fst run) /\
  task_file <$> fst run = (task_file <$> started) ++ files.
Proof.
  revert started st. induction files as [|file rest IH]; intros started st Hstarted;
    cbn [foldl].
  - cbn [fst snd]. split; [exact Hstarted | by rewrite app_nil_r].
  - pose proof (writeOutputFile_task file outputOptions st)
      as (Hfile & Hstage & [extra Hpaths] & Hcode).
    destruct (writeOutputFile file outputOptions st) as [task st1]. cbn [fst snd] in *.
    destruct (IH (started ++ [task]) st1) as [Htasks Hfiles].
    + apply Forall_app. split.
      * eapply Forall_impl; [exact Hstarted|]. intros task0 [Hlookup Hstage0].
        split; [|exact Hstage0]. rewrite Hpaths. by apply lookup_app_l_Some.
      * constructor; [|constructor]. split; [by rewrite Hfile|]. by rewrite Hstage.
    + split; [exact Htasks|]. rewrite Hfiles, fmap_app, <- app_assoc. cbn. by rewrite Hfile.
Qed.

Lemma resultOf_later (w w' : nat) (r : option JsError) (x : option JsError)
    (done : list (nat * option JsError)) :
  resultOf w done = None -> resultOf w' done = Some x ->
  resultOf w' ((w, r) :: done) = Some x.
Proof.
  intros Hw Hw'. cbn [resultOf]. destruct (Nat.eqb w w') eqn:Heq; [|exact Hw'].
  apply Nat.eqb_eq in Heq as ->. congruence.
Qed.

Lemma awaitSourceMap_task (outputOptions : JsValue)
    (done : list (nat * option JsError)) (task : WriteTask) (b : Build) :
  exists stage, fst (awaitSourceMap outputOptions done task b) = setStage stage task /\
                stage <> AwaitCode.
Proof.
  unfold awaitSourceMap.
  assert (Hrun : exists stage, fst (runOnwrite outputOptions task b) = setStage stage task /\
                               stage <> AwaitCode).
  { destruct (runOnwrite_task outputOptions task b) as (stage & -> & [->|[e ->]]);
      eexists; split; try reflexivity; discriminate. }
  destruct (task_map task) as [w|]; [|exact Hrun].
  destruct (resultOf w done) as [[e|]|]; [| exact Hrun|];
    eexists; split; try reflexivity; discriminate.
Qed.

Lemma advance_task (outputOptions : JsValue) (paths : list string) (w : nat)
    (r : option JsError) (done : list (nat * option JsError)) (task : WriteTask) (b : Build) :
  resultOf w done = None ->
  taskInvariant outputOptions paths done task ->
  let task' := fst (advance outputOptions ((w, r) :: done) task b) in
  taskInvariant outputOptions paths ((w, r) :: done) task' /\
  task_file task' = task_file task.
Proof.
  intros Hw [Hpath Hstage]. unfold advance, taskInvariant.
  destruct (task_stage task) eqn:Hs.
  - destruct (resultOf (task_code task) ((w, r) :: done)) as [[e|]|] eqn:Hcode;
      cbn [fst]; [by rewrite ?Hs | | by rewrite Hs].
    destruct (awaitSourceMap_task outputOptions ((w, r) :: done) task b)
      as (stage & -> & Hne). cbn [setStage task_code task_file task_stage].
    split; [|reflexivity]. split; [exact Hpath|]. by destruct stage.
  - destruct (awaitSourceMap_task outputOptions ((w, r) :: done) task b)
      as (stage & -> & Hne). cbn [setStage task_code task_file task_stage].
    split; [|reflexivity]. split; [exact Hpath|].
    destruct stage; try done; by apply resultOf_later.
  - cbn [fst]. rewrite Hs. split; [|reflexivity]. split; [exact Hpath|].
    by apply resultOf_later.
  - cbn [fst]. by rewrite Hs.
Qed.

Lemma advanceAll_tasks (outputOptions : JsValue) (paths : list string) (w : nat)
    (r : option JsError) (done : list (nat * option JsError)) (started : list WriteTask)
    (b : Build) :
  resultOf w done = None ->
  Forall (taskInvariant outputOptions paths done) started ->
  let moved := fst (advanceAll outputOptions ((w, r) :: done) started b) in
  Forall (taskInvariant outputOptions paths ((w, r) :: done)) moved /\
  task_file <$> moved = task_file <$> started.
Proof.
  intros Hw Hstarted. revert b. induction Hstarted as [|task rest Htask _ IH]; intros b.
  - cbn. split; [constructor | reflexivity].
  - cbn [advanceAll].
    pose proof (advance_task outputOptions paths w r done task b Hw Htask) as [Hone Hfile].
    destruct (advance _ _ task b) as [task' b1]. specialize (IH b1).
    destruct (advanceAll _ _ rest b1) as [rest' b2]. cbn [fst] in *.
    destruct IH as [Hrest Hfiles]. split; [by constructor|].
    cbn [fmap list_fmap]. by rewrite Hfile, <- Hfiles.
Qed.

Lemma complete_writesInvariant (outputOptions : JsValue) (base : list Event) (w : nat)
    (r : option JsError) (st : Build * Writes) :
  writesInvariant outputOptions base st ->
  writesInvariant outputOptions base (complete outputOptions w r st) /\
  task_file <$> tasks (snd (complete outputOptions w r st)) = task_file <$> tasks (snd st).
Proof.
  destruct st as [b ws]. intros [Htasks (evs & Htrace & Hwritten)]. cbn [fst snd] in *.
  unfold complete.
  destruct (issued ws !! w) as [path|] eqn:Hpath;
    [|split; [split; [exact Htasks | by exists evs] | reflexivity]].
  destruct (resultOf w (completed ws)) eqn:Hw;
    [split; [split; [exact Htasks | by exists evs] | reflexivity]|].
  set (ev := match r with None => EvWritten path | Some _ => EvWriteFailed path end).
  pose proof (advanceAll_tasks outputOptions (issued ws) w r (completed ws) (tasks ws)
                (setTrace (trace b ++ [ev]) b) Hw Htasks) as [Hmoved Hfiles].
  pose proof (advanceAll_progress outputOptions ((w, r) :: completed ws) (tasks ws)
                (setTrace (trace b ++ [ev]) b)) as (hooks & Htrace' & _).
  destruct (advanceAll _ _ _ _) as [moved b1]. cbn [fst snd trace setTrace] in *.
  split; [|exact Hfiles]. split; [exact Hmoved|].
  exists (evs ++ [ev] ++ hooks). cbn [fst snd issued completed].
  split; [by rewrite Htrace', Htrace, <- !app_assoc|].
  intros w' path' Hdone Hissued. cbn [resultOf] in Hdone.
  destruct (Nat.eqb w w') eqn:Heq.
  - apply Nat.eqb_eq in Heq as <-. injection Hdone as ->.
    rewrite Hpath in Hissued. injection Hissued as <-.
    apply elem_of_app. right. apply list_elem_of_here.
  - apply elem_of_app. left. by apply (Hwritten w').
Qed.

Lemma schedule_writesInvariant (outputOptions : JsValue) (base : list Event)
    (schedule : list (nat * option JsError)) (st : Build * Writes) :
  writesInvariant outputOptions base st ->
  let st' := foldl (fun st '(w, r) => complete outputOptions w r st) st schedule in
  writesInvariant outputOptions base st' /\
  task_file <$> tasks (snd st') = task_file <$> tasks (snd st).
Proof.
  revert st. induction schedule as [|[w r] rest IH]; intros st Hst; cbn [foldl].
  - by split.
  - destruct (complete_writesInvariant outputOptions base w r st Hst) as [Hst' Hfiles].
    destruct (IH _ Hst') as [Hend Hfiles']. split; [exact Hend | congruence].
Qed.

End WritesInvariant.

(** When the writes fulfil, every file has been written. *)
Lemma writeFiles_written `{C : Collaborators}
    (outputOptions : JsValue) (files : list OutputFile)
    (schedule : list (nat * option JsError)) (b b' : Build) :
  writeFiles outputOptions files schedule b = (Fulfilled tt, b') ->
  exists evs,
    trace b' = trace b ++ evs /\
    Forall (fun file => EvWritten (filePath outputOptions file) ∈ evs) files.
Proof.
  unfold writeFiles. intros Hrun.
  pose proof (issue_tasks outputOptions files [] (b, []) (Forall_nil_2 _)) as [Htasks Hfiles].
  pose proof (issue_issues outputOptions files [] (b, [])) as (issues & Hissues & _).
  destruct (foldl _ ([], (b, [])) files) as [started [b1 paths]]. cbn [fst snd] in *.
  match type of Hrun with context [foldl ?f ?st0 schedule] =>
    pose proof (schedule_writesInvariant outputOptions (trace b1) schedule st0) as Hend end.
  cbv zeta in Hend. destruct (foldl _ _ schedule) as [b2 ws].
  destruct Hend as [[Hmoved (evs & Htrace & Hwritten)] Hfiles'].
  { split; [exact Htasks|]. exists []. split; [by rewrite app_nil_r | discriminate]. }
  cbn [fst snd tasks] in *.
  destruct (rejection ws); [discriminate|].
  destruct (forallb isFinished (tasks ws)) eqn:Hfinished; [|discriminate].
  injection Hrun as <-. exists (issues ++ evs).
  split; [by rewrite Htrace, Hissues, app_assoc|].
  cbn [fmap list_fmap app] in Hfiles. rewrite <- Hfiles, <- Hfiles'.
  apply Forall_fmap, Forall_forall. intros task Hin.
  rewrite Forall_forall in Hmoved. destruct (Hmoved task Hin) as [Hpath Hstage].
  apply forallb_forall with (x := task) in Hfinished; [|by apply list_elem_of_In].
  unfold isFinished in Hfinished. destruct (task_stage task); try discriminate.
  cbn. apply elem_of_app. right. by apply (Hwritten (task_code task)).
Qed.

(** X13: when a [write] call fulfils, [file] or [dir] was given, the
    call has generated the bundle and resolves to the output
    [createOutput] makes of it, and since the bundle was generated the
    file system has reported the successful write of every file of the
    bundle, each at the path made of [dir], or the directory of [file],
    and the name of the file. *)
Theorem write_resolves_after_every_file_is_written `{C : Collaborators}
    (outputOptions : JsValue) (schedule : list (nat * option JsError)) (b b' : Build)
    (written : RollupOutput) :
  build_write outputOptions schedule b = (Fulfilled written, b') ->
  (truthy (get outputOptions "dir") || truthy (get outputOptions "file")) = true /\
  exists result generated evs,
    generate outputOptions true b = (Fulfilled result, generated) /\
    written = createOutput result /\
    trace b' = trace generated ++ evs /\
    Forall (fun file => EvWritten (filePath outputOptions file) ∈ evs) (bundleFiles result).
Proof.
  unfold build_write. intros H.
  apply bind_fulfilled in H as ([] & s0 & Hguard & H).
  assert (Hgiven : (truthy (get outputOptions "dir") || truthy (get outputOptions "file"))
                   = true /\ s0 = b).
  { revert Hguard. destruct (truthy outputOptions); cbn [negb orb]; [|discriminate].
    destruct (truthy (get outputOptions "dir")), (truthy (get outputOptions "file"));
      cbn [negb andb orb]; eff_run; intros [= <-]; by split. }
  destruct Hgiven as [Hgiven ->]. split; [exact Hgiven|].
  apply bind_fulfilled in H as (result & generated & Hgenerate & H).
  apply bind_fulfilled in H as (inputOptions & s1 & Hgets & H).
  rewrite run_gets in Hgets. injection Hgets as _ <-.
  apply bind_fulfilled in H as ([] & s2 & Hchecks & H).
  assert (s2 = generated) as ->.
  { revert Hchecks. destruct (1 <? length (objectKeys result)); eff_run;
      [|by intros [= <-]].
    destruct (truthy (get outputOptions "sourcemapFile")); eff_run; [discriminate|].
    destruct (typeofString (get outputOptions "file")); eff_run; [discriminate|].
    by intros [= <-]. }
  apply bind_fulfilled in H as ([] & s3 & Hwrite & H).
  rewrite run_ret in H. injection H as <- <-.
  destruct (writeFiles_written _ _ _ _ _ Hwrite) as (evs & Htrace & Hfiles).
  exists result, generated, evs. by repeat split.
Qed.

Lemma write_resolves_after_every_file_is_written_witness :
  exists result generated evs,
    @generate Inputs.env Inputs.esDir true Inputs.oneChunk = (Fulfilled result, generated) /\
    fst (@build_write Inputs.env Inputs.esDir [(0, None)] Inputs.oneChunk)
      = Fulfilled (createOutput result) /\
    trace (snd (@build_write Inputs.env Inputs.esDir [(0, None)] Inputs.oneChunk))
      = trace generated ++ evs /\
    Forall (fun file => EvWritten (@filePath Inputs.env Inputs.esDir file) ∈ evs)
           (bundleFiles result).
Proof.
  destruct (@write_resolves_after_every_file_is_written Inputs.env Inputs.esDir
              [(0, None)] Inputs.oneChunk
              (snd (@build_write Inputs.env Inputs.esDir [(0, None)] Inputs.oneChunk))
              (createOutput (default [] (match fst (@generate Inputs.env Inputs.esDir true
                                                      Inputs.oneChunk) with
                                         | Fulfilled result => Some result
                                         | _ => None
                                         end)))
              eq_refl) as [_ (result & generated & evs & Hgenerate & Hwritten & Htrace & Hfiles)].
  exists result, generated, evs. split; [exact Hgenerate|]. split; [|by split].
  rewrite <- Hwritten. reflexivity.
Defined.

Section Assets.
Context `{C : Collaborators}.

Lemma advance_asset (outputOptions : JsValue) (done : list (nat * option JsError))
    (task : WriteTask) (b : Build) :
  assetTask task ->
  snd (advance outputOptions done task b) = b /\
  assetTask (fst (advance outputOptions done task b)).
Proof.
  unfold assetTask. intros Hasset.
  assert (Hrun : snd (runOnwrite outputOptions task b) = b /\
                 isOutputAsset (task_file (fst (runOnwrite outputOptions task b))) = true).
  { unfold runOnwrite. destruct (task_file task) eqn:Hfile; [|discriminate].
    cbn. by rewrite Hfile. }
  assert (Hmap : snd (awaitSourceMap outputOptions done task b) = b /\
                 isOutputAsset (task_file (fst (awaitSourceMap outputOptions done task b)))
                   = true).
  { unfold awaitSourceMap. destruct (task_map task) as [w|]; [|exact Hrun].
    destruct (resultOf w done) as [[e|]|]; [by split | exact Hrun | by split]. }
  unfold advance. destruct (task_stage task);
    try destruct (resultOf _ _) as [[e|]|]; first [exact Hmap | by split].
Qed.

Lemma advanceAll_assets (outputOptions : JsValue) (done : list (nat * option JsError))
    (started : list WriteTask) (b : Build) :
  Forall assetTask started ->
  snd (advanceAll outputOptions done started b) = b /\
  Forall assetTask (fst (advanceAll outputOptions done started b)).
Proof.
  induction 1 as [|task rest Htask _ IH]; [by split|].
  cbn [advanceAll]. destruct (advance_asset outputOptions done task b Htask) as [Hb Hfile].
  destruct (advance _ _ task b) as [task' b1]. cbn [fst snd] in *. subst b1.
  destruct (advanceAll _ _ rest b) as [rest' b2]. cbn [fst snd] in *.
  destruct IH as [-> Hrest]. split; [reflexivity | by constructor].
Qed.

Lemma complete_assets (outputOptions : JsValue) (w : nat) (r : option JsError)
    (st : Build * Writes) :
  Forall assetTask (tasks (snd st)) ->
  onBuild (tracedBy isCompletion) st (complete outputOptions w r st) /\
  Forall assetTask (tasks (snd (complete outputOptions w r st))).
Proof.
  destruct st as [b ws]. cbn [snd]. intros Hassets. unfold complete, onBuild.
  destruct (issued ws !! w) as [path|]; [|split; [apply tracedBy_refl | exact Hassets]].
  destruct (resultOf w (completed ws)); [split; [apply tracedBy_refl | exact Hassets]|].
  match goal with |- context [advanceAll ?o ?d ?ts ?b0] =>
    destruct (advanceAll_assets o d ts b0 Hassets) as [Hb Hmoved];
    destruct (advanceAll o d ts b0) as [moved b1] end.
  cbn [fst snd tasks] in *. subst b1. split; [|exact Hmoved].
  eexists. split; [reflexivity|]. constructor; [by destruct r | constructor].
Qed.

Lemma schedule_assets (outputOptions : JsValue) (schedule : list (nat * option JsError))
    (st : Build * Writes) :
  Forall assetTask (tasks (snd st)) ->
  onBuild (tracedBy isCompletion) st
    (foldl (fun st '(w, r) => complete outputOptions w r st) st schedule).
Proof.
  revert st. induction schedule as [|[w r] rest IH]; intros st Hassets; cbn [foldl].
  - apply tracedBy_refl.
  - destruct (complete_assets outputOptions w r st Hassets) as [Hstep Hassets'].
    eapply (onBuild_trans _ (tracedBy_trans _)); [exact Hstep | by apply IH].
Qed.

Lemma issue_assets (outputOptions : JsValue) (files : list OutputFile)
    (started : list WriteTask) (st : Build * list string) :
  Forall (fun file => isOutputAsset file = true) files ->
  exists evs,
    trace (fst (snd (foldl (fun '(started, st) file =>
                              let '(task, st) := writeOutputFile file outputOptions st in
                              (started ++ [task], st))
                           (started, st) files)))
      = trace (fst st) ++ evs /\
    Forall isIssue evs /\ length evs = length files.
Proof.
  intros Hfiles. revert started st.
  induction Hfiles as [|file rest Hfile _ IH]; intros started st; cbn [foldl].
  - exists []. split; [by rewrite app_nil_r|]. by split.
  - destruct file as [name source|]; [|discriminate]. destruct st as [b paths].
    cbn [writeOutputFile writeFile].
    edestruct IH as (evs & -> & Hevs & Hlen). cbn [fst trace setTrace].
    eexists (_ :: evs). rewrite <- app_assoc. split; [reflexivity|].
    split; [by constructor | cbn [length]; by rewrite Hlen].
Qed.

End Assets.

(** X14: a bundle of assets is written with one write for every asset,
    and no [onwrite] hook is called for an asset: after the writes are
    issued, the trace holds only what the file system reports. *)
Theorem writeFiles_calls_no_hook_for_assets `{C : Collaborators} (outputOptions : JsValue)
    (files : list OutputFile) (b : Build) :
  Forall (fun file => isOutputAsset file = true) files ->
  exists issues,
    Forall isIssue issues /\
    length issues = length files /\
    forall schedule, exists completions,
      trace (snd (writeFiles outputOptions files schedule b))
        = trace b ++ issues ++ completions /\
      Forall isCompletion completions.
Proof.
  intros Hfiles.
  destruct (issue_assets outputOptions files [] (b, []) Hfiles) as (issues & Ht & Hissues & Hlen).
  pose proof (issue_tasks outputOptions files [] (b, []) (Forall_nil_2 _)) as [_ Htasks].
  exists issues. split; [exact Hissues|]. split; [exact Hlen|]. intros schedule.
  unfold writeFiles.
  destruct (foldl _ ([], (b, [])) files) as [started [b1 paths]]. cbn [fst snd] in *.
  match goal with |- context [foldl ?f ?st0 schedule] =>
    pose proof (schedule_assets outputOptions schedule st0) as (rest & Ht' & Hrest) end.
  { cbn [snd tasks]. apply Forall_forall. intros task Hin.
    rewrite Forall_forall in Hfiles. apply Hfiles.
    cbn [fmap list_fmap app] in Htasks. rewrite <- Htasks.
    by apply list_elem_of_fmap_2. }
  destruct (foldl _ _ schedule) as [b2 ws]. cbn [fst snd] in *.
  exists rest. split; [|exact Hrest]. by rewrite Ht', Ht, app_assoc.
Qed.

Lemma writeFiles_calls_no_hook_for_assets_witness :
  exists issues,
    Forall isIssue issues /\
    length issues = 1 /\
    forall schedule, exists completions,
      trace (snd (@writeFiles Inputs.env Inputs.esDir [OutAsset "assets/logo.svg" "<svg/>"]
                    schedule Inputs.observed))
        = trace Inputs.observed ++ issues ++ completions /\
      Forall isCompletion completions.
Proof.
  apply (@writeFiles_calls_no_hook_for_assets Inputs.env Inputs.esDir
           [OutAsset "assets/logo.svg" "<svg/>"] Inputs.observed).
  by repeat constructor.
Defined.

(** ** Builds without the optimisation pass *)

Lemma sameOptions_refl (b : Build) : sameOptions b b.
Proof. reflexivity. Qed.

Lemma sameOptions_trans (b1 b2 b3 : Build) :
  sameOptions b1 b2 -> sameOptions b2 b3 -> sameOptions b1 b3.
Proof. unfold sameOptions. congruence. Qed.




(** Steps that leave the options alone. *)
Ltac options_build leaf :=
  repeat lazymatch goal with
    | |- forall _, respects _ _ => intro
    | |- respects _ (_ ≫= _) => apply (respects_bind sameOptions sameOptions_trans)
    | |- respects _ (mret _) => apply (respects_ret sameOptions sameOptions_refl)
    | |- respects _ (throw _) => apply (respects_throw sameOptions sameOptions_refl)
    | |- respects _ (error _) => apply (respects_error sameOptions sameOptions_refl)
    | |- respects _ (gets _) => apply (respects_gets sameOptions sameOptions_refl)
    | |- respects _ (settle _) => apply (respects_settle sameOptions sameOptions_refl)
    | |- respects _ (await _) => apply (respects_await sameOptions sameOptions_refl)
    | |- respects _ (when _ _) => apply (respects_when sameOptions sameOptions_refl)
    | |- respects _ (emit _) => intros ?; reflexivity
    | |- respects _ (modify _) => intros ?; reflexivity
    | |- respects _ (if ?c then _ else _) => destruct c
    | |- _ => leaf
    end.


Section SameOptions.
Context `{C : Collaborators}.

Lemma liftTrace_sameOptions {A} (m : Eff (list Event) A) : respects sameOptions (liftTrace m).
Proof. intros b. unfold liftTrace. by destruct (m (trace b)). Qed.

Lemma graph_finaliseAssets_sameOptions (assetFileNames : JsValue) :
  respects sameOptions (graph_finaliseAssets assetFileNames).
Proof. intros b. unfold graph_finaliseAssets. by destruct (finaliseAll _ _ _). Qed.

Lemma renderChunk_sameOptions (outputOptions : JsValue) (addons : Addons) (chunk : Chunk)
    (st : Build * OutputBundle) :
  onBuild sameOptions st (snd (renderChunk outputOptions addons chunk st)).
Proof.
  destruct st as [b outputBundle]. unfold renderChunk, onBuild.
  destruct (chunk_render _ _ _) as [rendered|e]; [|reflexivity].
  destruct (bundleGet _ _) as [[|outputChunk]|]; try reflexivity.
  match goal with |- context [promiseAll ?calls b] =>
    assert (H : sameOptions b (snd (promiseAll calls b)));
    [|destruct (promiseAll calls b) as [[|e|e] b']; exact H] end.
  apply (related_promiseAll sameOptions sameOptions_refl sameOptions_trans).
  apply Forall_fmap, Forall_true. intros plugin s. unfold callOngenerate.
  by destruct (ongenerate plugin).
Qed.

Lemma renderBundle_sameOptions (inputOptions : InputOptions) (outputOptions : JsValue)
    (inputBase : string) (outputBundle : OutputBundle) (addons : Addons) :
  respects sameOptions
    (renderBundle inputOptions outputOptions inputBase outputBundle addons).
Proof.
  unfold renderBundle. options_build idtac.
  destruct (foldl _ _ _) as [named outputBundle']. options_build idtac.
  intros b.
  match goal with |- context [promiseAll ?calls ?st] =>
    assert (H : onBuild sameOptions st (snd (promiseAll calls st))) end.
  { apply (related_promiseAll _ (onBuild_refl _ sameOptions_refl)
                                 (onBuild_trans _ sameOptions_trans)).
    apply Forall_fmap, Forall_true. intros chunk st. apply renderChunk_sameOptions. }
  unfold onBuild in H. cbn [fst] in H.
  destruct (promiseAll _ _) as [[|e|e] [b' ?]]; exact H.
Qed.

Lemma runGenerateBundle_sameOptions (outputOptions : JsValue) (isWrite : bool)
    (assetFileNames : JsValue) (outputBundle : OutputBundle) :
  respects sameOptions (runGenerateBundle outputOptions isWrite assetFileNames outputBundle).
Proof.
  unfold runGenerateBundle. options_build idtac. intros b.
  match goal with |- context [promiseAll ?calls ?st] =>
    assert (H : onBuild sameOptions st (snd (promiseAll calls st))) end.
  { apply (related_promiseAll _ (onBuild_refl _ sameOptions_refl)
                                 (onBuild_trans _ sameOptions_trans)).
    apply Forall_fmap, Forall_true. intros plugin [b0 shared].
    unfold callGenerateBundle, onBuild.
    destruct (generateBundle plugin) as [hook|]; [|reflexivity].
    by destruct (hook _ _ _). }
  unfold onBuild in H. cbn [fst] in H.
  destruct (promiseAll _ _) as [[|e|e] [b' [outputBundle' assets']]]; cbn [fst snd] in *;
    try destruct (finalisePending _ _ _) as [[?|?|] [? ?]]; exact H.
Qed.

Lemma generateOutput_sameOptions (inputOptions : InputOptions) (outputOptions : JsValue)
    (isWrite : bool) :
  respects sameOptions (generateOutput inputOptions outputOptions isWrite).
Proof.
  unfold generateOutput. cbv zeta.
  options_build ltac:(idtac;
    lazymatch goal with
    | |- respects _ (renderBundle _ _ _ _ _) => apply renderBundle_sameOptions
    | |- respects _ (graph_finaliseAssets _) => apply graph_finaliseAssets_sameOptions
    | |- respects _ (runGenerateBundle _ _ _ _) => apply runGenerateBundle_sameOptions
    end).
Qed.

Lemma generate_sameOptions (rawOutputOptions : JsValue) (isWrite : bool) :
  respects sameOptions (generate rawOutputOptions isWrite).
Proof.
  unfold generate.
  options_build ltac:(idtac;
    lazymatch goal with
    | |- respects _ (generateOutput _ _ _) => apply generateOutput_sameOptions
    | |- respects _ (liftTrace _) => apply liftTrace_sameOptions
    end).
Qed.












End SameOptions.



(** ** Source maps in a write of many files (C9) *)

Section MappedChunks.
Context `{C : Collaborators}.

Lemma justifiedBy_known (outputOptions : JsValue) (files : list OutputFile)
    (known known' : list Event) (ev : Event) :
  (forall ev', ev' ∈ known -> ev' ∈ known') ->
  justifiedBy outputOptions files known ev -> justifiedBy outputOptions files known' ev.
Proof.
  intros Hsub Hev plugin f Heq. destruct (Hev plugin f Heq) as (file & ? & ? & ? & ?).
  exists file. repeat split; auto.
Qed.

Lemma hooksInvariant_nil (outputOptions : JsValue) (files : list OutputFile) :
  hooksInvariant outputOptions files [].
Proof. intros i ev Hi. by rewrite lookup_nil in Hi. Qed.

(** Events that come later may rely on everything before them. *)
Lemma hooksInvariant_app (outputOptions : JsValue) (files : list OutputFile)
    (evs new : list Event) :
  hooksInvariant outputOptions files evs ->
  Forall (justifiedBy outputOptions files evs) new ->
  hooksInvariant outputOptions files (evs ++ new).
Proof.
  intros Hevs Hnew i ev Hi. destruct (decide (i < length evs)) as [Hlt|Hge].
  - rewrite lookup_app_l in Hi by exact Hlt.
    rewrite take_app_le by lia. by apply Hevs.
  - rewrite lookup_app_r in Hi by lia.
    rewrite take_app_ge by lia.
    apply (justifiedBy_known _ _ evs); [intros ev' ?; apply elem_of_app; by left|].
    rewrite Forall_forall in Hnew. apply Hnew. by eapply list_elem_of_lookup_2.
Qed.

Lemma promiseAllFrom_onwrite_named (outputOptions : JsValue) (chunk : OutputChunk)
    (ps : list Plugin) (rejected : option JsError) (b : Build) :
  exists hooks,
    trace (snd (promiseAllFrom (callOnwrite outputOptions chunk <$> ps) rejected b))
      = trace b ++ hooks /\
    Forall (isOnwriteOf (fileName chunk)) hooks.
Proof.
  revert rejected b. induction ps as [|plugin ps IH]; intros rejected b.
  - exists []. cbn. destruct rejected; cbn; by rewrite app_nil_r.
  - cbn [fmap list_fmap promiseAllFrom]. unfold callOnwrite at 1.
    destruct (onwrite plugin) as [hook|]; [|apply IH].
    destruct (hook outputOptions chunk) as [|e|e].
    + edestruct IH as (hooks & -> & Hhooks). cbn [trace setTrace].
      exists (EvOnwrite (name plugin) (fileName chunk) :: hooks).
      split; [by rewrite <- app_assoc | by constructor].
    + exists [EvOnwrite (name plugin) (fileName chunk)]. split; [reflexivity|].
      by repeat constructor.
    + edestruct IH as (hooks & -> & Hhooks). cbn [trace setTrace].
      exists (EvOnwrite (name plugin) (fileName chunk) :: hooks).
      split; [by rewrite <- app_assoc | by constructor].
Qed.

(** [runOnwrite] ends the chain, after calling the hooks for its file. *)
Lemma runOnwrite_named (outputOptions : JsValue) (task : WriteTask) (b : Build) :
  exists stage hooks,
    fst (runOnwrite outputOptions task b) = setStage stage task /\
    (stage = Finished \/ exists e, stage = Broken e) /\
    trace (snd (runOnwrite outputOptions task b)) = trace b ++ hooks /\
    Forall (isOnwriteOf (fileNameOf (task_file task))) hooks.
Proof.
  unfold runOnwrite. destruct (task_file task) as [name source|chunk].
  - exists Finished, []. cbn. rewrite app_nil_r. repeat split; auto.
  - destruct (promiseAllFrom_onwrite_named outputOptions chunk
                (List.filter (fun plugin => hasHook (onwrite plugin)) (plugins (graph b)))
                None b) as (hooks & Htrace & Hhooks).
    unfold promiseAll.
    destruct (promiseAllFrom _ None b) as [[|e|e] b']; cbn [fst snd fileNameOf] in *;
      eexists _, hooks; (split; [reflexivity|]); eauto.
Qed.

Lemma awaitSourceMap_named (outputOptions : JsValue)
    (done : list (nat * option JsError)) (task : WriteTask) (b : Build) :
  exists stage hooks,
    fst (awaitSourceMap outputOptions done task b) = setStage stage task /\
    stage <> AwaitCode /\
    trace (snd (awaitSourceMap outputOptions done task b)) = trace b ++ hooks /\
    Forall (isOnwriteOf (fileNameOf (task_file task))) hooks /\
    (stage = Finished \/ hooks <> [] ->
     forall w, task_map task = Some w -> resultOf w done = Some None).
Proof.
  unfold awaitSourceMap.
  destruct (runOnwrite_named outputOptions task b)
    as (stage & hooks & Htask & Hstage & Htrace & Hhooks).
  destruct (task_map task) as [wm|].
  - destruct (resultOf wm done) as [[e|]|] eqn:Hwm.
    + exists (Broken e), []. cbn [fst snd]. rewrite app_nil_r.
      repeat split; try done. by intros [|].
    + exists stage, hooks. repeat split; try done.
      * destruct Hstage as [->|[e ->]]; discriminate.
      * by intros _ w [= <-].
    + exists AwaitMap, []. cbn [fst snd]. rewrite app_nil_r.
      repeat split; try done. by intros [|].
  - exists stage, hooks. repeat split; try done.
    destruct Hstage as [->|[e ->]]; discriminate.
Qed.

(** One step of a chain: the hooks it calls are those of its own file,
    and it calls them only when it has seen its writes succeed. *)
Lemma advance_named (outputOptions : JsValue) (paths : list string) (w : nat)
    (r : option JsError) (done : list (nat * option JsError)) (task : WriteTask) (b : Build) :
  resultOf w done = None ->
  taskInvariant outputOptions paths done task ->
  mapInvariant outputOptions paths done task ->
  mapInvariant outputOptions paths ((w, r) :: done)
               (fst (advance outputOptions ((w, r) :: done) task b)) /\
  exists hooks,
    trace (snd (advance outputOptions ((w, r) :: done) task b)) = trace b ++ hooks /\
    Forall (isOnwriteOf (fileNameOf (task_file task))) hooks /\
    (hooks <> [] ->
     resultOf (task_code task) ((w, r) :: done) = Some None /\
     forall wm, task_map task = Some wm -> resultOf wm ((w, r) :: done) = Some None).
Proof.
  intros Hw [Hpath Hstage] [Hmapped Hfinished]. unfold advance, mapInvariant.
  destruct (awaitSourceMap_named outputOptions ((w, r) :: done) task b)
    as (stage & hooks & Htask & Hne & Htrace & Hhooks & Hseen).
  assert (Hquiet : forall task' : WriteTask,
            task' = task ->
            (task_stage task = Finished ->
             forall wm, task_map task = Some wm -> resultOf wm ((w, r) :: done) = Some None) ->
            ((mapped outputOptions (task_file task') = true ->
              exists w0, task_map task' = Some w0 /\
                paths !! w0 = Some (filePath outputOptions (task_file task') +:+ ".map")) /\
             (task_stage task' = Finished ->
              forall w0, task_map task' = Some w0 ->
                         resultOf w0 ((w, r) :: done) = Some None)) /\
            exists hooks0,
              trace b = trace b ++ hooks0 /\
              Forall (isOnwriteOf (fileNameOf (task_file task))) hooks0 /\
              (hooks0 <> [] ->
               resultOf (task_code task) ((w, r) :: done) = Some None /\
               forall wm, task_map task = Some wm ->
                          resultOf wm ((w, r) :: done) = Some None)).
  { intros task' -> Hfin. split; [by split|].
    exists []. rewrite app_nil_r. by repeat split. }
  assert (Hmoved : resultOf (task_code task) ((w, r) :: done) = Some None ->
            ((mapped outputOptions
                (task_file (fst (awaitSourceMap outputOptions ((w, r) :: done) task b))) = true ->
              exists w0,
                task_map (fst (awaitSourceMap outputOptions ((w, r) :: done) task b)) = Some w0 /\
                paths !! w0
                  = Some (filePath outputOptions
                            (task_file (fst (awaitSourceMap outputOptions ((w, r) :: done)
                                               task b))) +:+ ".map")) /\
             (task_stage (fst (awaitSourceMap outputOptions ((w, r) :: done) task b)) = Finished ->
              forall w0,
                task_map (fst (awaitSourceMap outputOptions ((w, r) :: done) task b)) = Some w0 ->
                resultOf w0 ((w, r) :: done) = Some None)) /\
            exists hooks0,
              trace (snd (awaitSourceMap outputOptions ((w, r) :: done) task b))
                = trace b ++ hooks0 /\
              Forall (isOnwriteOf (fileNameOf (task_file task))) hooks0 /\
              (hooks0 <> [] ->
               resultOf (task_code task) ((w, r) :: done) = Some None /\
               forall wm, task_map task = Some wm ->
                          resultOf wm ((w, r) :: done) = Some None)).
  { intros Hcode. rewrite Htask. cbn [setStage task_file task_map task_stage]. split.
    - split; [exact Hmapped|]. intros ->. apply Hseen. by left.
    - exists hooks. split; [exact Htrace|]. split; [exact Hhooks|].
      intros Hnonempty. split; [exact Hcode|]. apply Hseen. by right. }
  destruct (task_stage task) eqn:Hs.
  - destruct (resultOf (task_code task) ((w, r) :: done)) as [[e|]|] eqn:Hcode; cbn [fst snd].
    + cbn [setStage task_file task_map task_stage]. split; [by split|].
      exists []. rewrite app_nil_r. by repeat split.
    + by apply Hmoved.
    + apply Hquiet; [reflexivity|]. try rewrite Hs. discriminate.
  - apply Hmoved. by apply resultOf_later.
  - cbn [fst snd]. apply Hquiet; [reflexivity|]. intros _ wm Hwm.
    apply resultOf_later; [exact Hw|]. by apply Hfinished.
  - cbn [fst snd]. apply Hquiet; [reflexivity|]. discriminate.
Qed.


(** The hooks a chain calls rely on reports already on the trace. *)
Lemma advance_justified (outputOptions : JsValue) (files : list OutputFile)
    (paths : list string) (known : list Event) (w : nat) (r : option JsError)
    (done : list (nat * option JsError)) (task : WriteTask) (b : Build) :
  resultOf w done = None ->
  (forall w' path, resultOf w' ((w, r) :: done) = Some None -> paths !! w' = Some path ->
                   EvWritten path ∈ known) ->
  task_file task ∈ files ->
  taskInvariant outputOptions paths done task ->
  mapInvariant outputOptions paths done task ->
  mapInvariant outputOptions paths ((w, r) :: done)
               (fst (advance outputOptions ((w, r) :: done) task b)) /\
  exists hooks,
    trace (snd (advance outputOptions ((w, r) :: done) task b)) = trace b ++ hooks /\
    Forall (justifiedBy outputOptions files known) hooks.
Proof.
  intros Hw Hknown Hfile Htask Hmap.
  destruct (advance_named outputOptions paths w r done task b Hw Htask Hmap)
    as [Hmap' (hooks & Htrace & Hnamed & Hseen)].
  split; [exact Hmap'|]. exists hooks. split; [exact Htrace|].
  destruct hooks as [|ev hooks]; [constructor|].
  destruct (Hseen ltac:(discriminate)) as [Hcode Hsource].
  destruct Htask as [Hpath _]. destruct Hmap as [Hmapped _].
  eapply Forall_impl; [exact Hnamed|]. intros ev' Hev' plugin f ->. cbn in Hev'. subst f.
  exists (task_file task). split; [exact Hfile|]. split; [reflexivity|]. split.
  - by apply (Hknown (task_code task)).
  - intros Hyes. destruct (Hmapped Hyes) as (wm & Hwm & Hmpath).
    apply (Hknown wm); [by apply Hsource | exact Hmpath].
Qed.

Lemma advanceAll_justified (outputOptions : JsValue) (files : list OutputFile)
    (paths : list string) (known : list Event) (w : nat) (r : option JsError)
    (done : list (nat * option JsError)) (started : list WriteTask) (b : Build) :
  resultOf w done = None ->
  (forall w' path, resultOf w' ((w, r) :: done) = Some None -> paths !! w' = Some path ->
                   EvWritten path ∈ known) ->
  Forall (fun task => task_file task ∈ files) started ->
  Forall (taskInvariant outputOptions paths done) started ->
  Forall (mapInvariant outputOptions paths done) started ->
  Forall (mapInvariant outputOptions paths ((w, r) :: done))
         (fst (advanceAll outputOptions ((w, r) :: done) started b)) /\
  exists hooks,
    trace (snd (advanceAll outputOptions ((w, r) :: done) started b)) = trace b ++ hooks /\
    Forall (justifiedBy outputOptions files known) hooks.
Proof.
  intros Hw Hknown Hfiles. revert b.
  induction Hfiles as [|task rest Hfile _ IH]; intros b Htasks Hmaps.
  - cbn. split; [constructor|]. exists []. by rewrite app_nil_r.
  - apply Forall_cons in Htasks as [Htask Htasks].
    apply Forall_cons in Hmaps as [Hmap Hmaps]. cbn [advanceAll].
    destruct (advance_justified outputOptions files paths known w r done task b
                Hw Hknown Hfile Htask Hmap) as [Hmap' (hooks & Htrace & Hhooks)].
    destruct (advance _ _ task b) as [task' b1]. cbn [fst snd] in *.
    destruct (IH b1 Htasks Hmaps) as [Hmaps' (hooks' & Htrace' & Hhooks')].
    destruct (advanceAll _ _ rest b1) as [rest' b2]. cbn [fst snd] in *.
    split; [by constructor|]. exists (hooks ++ hooks').
    split; [by rewrite Htrace', Htrace, app_assoc | by apply Forall_app].
Qed.

Lemma complete_orderedWrites (outputOptions : JsValue) (files : list OutputFile)
    (base : list Event) (w : nat) (r : option JsError) (st : Build * Writes) :
  orderedWrites outputOptions files base st ->
  orderedWrites outputOptions files base (complete outputOptions w r st).
Proof.
  destruct st as [b ws].
  intros (Htasks & Hmaps & Hfiles & evs & Htrace & Hwritten & Hhooks). cbn [fst snd] in *.
  assert (Hkeep : orderedWrites outputOptions files base (b, ws)).
  { split; [exact Htasks|]. split; [exact Hmaps|]. split; [exact Hfiles|]. by exists evs. }
  unfold complete.
  destruct (issued ws !! w) as [path|] eqn:Hpath; [|exact Hkeep].
  destruct (resultOf w (completed ws)) eqn:Hw; [exact Hkeep|]. clear Hkeep.
  set (ev := match r with None => EvWritten path | Some _ => EvWriteFailed path end).
  assert (Hknown : forall w' path', resultOf w' ((w, r) :: completed ws) = Some None ->
                     issued ws !! w' = Some path' -> EvWritten path' ∈ evs ++ [ev]).
  { intros w' path' Hdone Hissued. cbn [resultOf] in Hdone.
    destruct (Nat.eqb w w') eqn:Heq.
    - apply Nat.eqb_eq in Heq as <-. injection Hdone as ->.
      rewrite Hpath in Hissued. injection Hissued as <-.
      apply elem_of_app. right. apply list_elem_of_here.
    - apply elem_of_app. left. by apply (Hwritten w'). }
  assert (Hin : Forall (fun task => task_file task ∈ files) (tasks ws)).
  { apply Forall_forall. intros task Htask. rewrite <- Hfiles.
    by apply list_elem_of_fmap_2. }
  pose proof (advanceAll_tasks outputOptions (issued ws) w r (completed ws) (tasks ws)
                (setTrace (trace b ++ [ev]) b) Hw Htasks) as [Htasks' Hfiles'].
  pose proof (advanceAll_justified outputOptions files (issued ws) (evs ++ [ev]) w r
                (completed ws) (tasks ws) (setTrace (trace b ++ [ev]) b)
                Hw Hknown Hin Htasks Hmaps) as [Hmaps' (hooks & Htrace' & Hjustified)].
  destruct (advanceAll _ _ _ _) as [moved b1]. cbn [fst snd trace setTrace] in *.
  split; [exact Htasks'|]. split; [exact Hmaps'|].
  split; [cbn [fst snd tasks]; by rewrite Hfiles'|].
  exists ((evs ++ [ev]) ++ hooks). cbn [fst snd issued completed].
  split; [by rewrite Htrace', Htrace, <- !app_assoc|]. split.
  - intros w' path' Hdone Hissued. apply elem_of_app. left. by apply (Hknown w').
  - apply hooksInvariant_app; [|exact Hjustified].
    apply hooksInvariant_app; [exact Hhooks|].
    constructor; [|constructor]. intros plugin f Hev. subst ev. by destruct r.
Qed.

(** The source map of a chunk is written under the number its chain
    holds. *)
Lemma writeOutputFile_mapped (outputFile : OutputFile) (outputOptions : JsValue)
    (st : Build * list string) :
  mapped outputOptions outputFile = true ->
  exists w,
    task_map (fst (writeOutputFile outputFile outputOptions st)) = Some w /\
    snd (snd (writeOutputFile outputFile outputOptions st)) !! w
      = Some (filePath outputOptions outputFile +:+ ".map").
Proof.
  destruct st as [b paths]. unfold writeOutputFile, filePath, mapped.
  destruct outputFile as [name source|chunk]; [discriminate|].
  destruct (map chunk) as [sourceMap|]; [|discriminate].
  intros [-> Hinline%negb_true_iff]%andb_true_iff. rewrite Hinline.
  cbn [writeFile fst snd task_map fileNameOf]. exists (length paths). split; [reflexivity|].
  rewrite <- app_assoc. by rewrite lookup_app_r, Nat.sub_diag.
Qed.

Lemma issue_mapped (outputOptions : JsValue) (files : list OutputFile)
    (started : list WriteTask) (st : Build * list string) :
  Forall (fun task => mapInvariant outputOptions (snd st) [] task /\
                      task_stage task = AwaitCode) started ->
  let run := foldl (fun '(started, st) file =>
                      let '(task, st) := writeOutputFile file outputOptions st in
                      (started ++ [task], st))
                   (started, st) files in
  Forall (fun task => mapInvariant outputOptions (snd (snd run)) [] task /\
                      task_stage task = AwaitCode) (fst run).
Proof.
  revert started st. induction files as [|file rest IH]; intros started st Hstarted;
    cbn [foldl]; [exact Hstarted|].
  pose proof (writeOutputFile_task file outputOptions st)
    as (Hfile & Hstage & [extra Hpaths] & _).
  pose proof (writeOutputFile_mapped file outputOptions st) as Hmapped.
  destruct (writeOutputFile file outputOptions st) as [task st1]. cbn [fst snd] in *.
  apply IH. apply Forall_app. split.
  - eapply Forall_impl; [exact Hstarted|]. intros task0 [[Hyes Hfin] Hstage0].
    split; [|exact Hstage0]. split; [|exact Hfin].
    intros Hm. destruct (Hyes Hm) as (w & Hw & Hlookup). exists w. split; [exact Hw|].
    rewrite Hpaths. by apply lookup_app_l_Some.
  - constructor; [|constructor]. split; [|exact Hstage]. split.
    + rewrite Hfile. exact Hmapped.
    + rewrite Hstage. discriminate.
Qed.

(** The writes of a chunk whose source map goes to a file of its own. *)
Lemma writeOutputFile_mapped_issues (chunk : OutputChunk) (sourceMap : SourceMap)
    (outputOptions : JsValue) (st : Build * list string) :
  map chunk = Some sourceMap ->
  truthy (get outputOptions "sourcemap") = true ->
  strictEqStr (get outputOptions "sourcemap") "inline" = false ->
  trace (fst (snd (writeOutputFile (OutChunk chunk) outputOptions st)))
    = trace (fst st) ++
      [EvWriteFile (codePath outputOptions chunk +:+ ".map") (map_toString sourceMap);
       EvWriteFile (codePath outputOptions chunk) (codeWithUrl chunk)].
Proof.
  intros Hmap Hsm Hinline. destruct st as [b paths]. unfold writeOutputFile.
  rewrite Hmap, Hsm, Hinline. cbn [writeFile fst snd trace setTrace fileNameOf].
  by rewrite <- app_assoc.
Qed.

Lemma issue_mapped_issues (chunk : OutputChunk) (sourceMap : SourceMap)
    (outputOptions : JsValue) (before after : list OutputFile) (b : Build) :
  map chunk = Some sourceMap ->
  truthy (get outputOptions "sourcemap") = true ->
  strictEqStr (get outputOptions "sourcemap") "inline" = false ->
  exists evs evs',
    trace (fst (snd (foldl (fun '(started, st) file =>
                              let '(task, st) := writeOutputFile file outputOptions st in
                              (started ++ [task], st))
                           ([], (b, [])) (before ++ OutChunk chunk :: after))))
      = trace b ++
        (evs ++
         [EvWriteFile (codePath outputOptions chunk +:+ ".map") (map_toString sourceMap);
          EvWriteFile (codePath outputOptions chunk) (codeWithUrl chunk)] ++ evs') /\
    Forall isIssue evs /\ Forall isIssue evs'.
Proof.
  intros Hmap Hsm Hinline. rewrite foldl_app. cbn [foldl].
  destruct (issue_issues outputOptions before [] (b, [])) as (evs & Htrace & Hevs & _).
  destruct (foldl _ ([], (b, [])) before) as [started st1]. cbn [fst snd] in Htrace.
  pose proof (writeOutputFile_mapped_issues chunk sourceMap outputOptions st1
                Hmap Hsm Hinline) as Htrace1.
  destruct (writeOutputFile (OutChunk chunk) outputOptions st1) as [task st2].
  cbn [fst snd] in Htrace1.
  destruct (issue_issues outputOptions after (started ++ [task]) st2)
    as (evs' & Htrace2 & Hevs' & _).
  exists evs, evs'. split; [|by split].
  by rewrite Htrace2, Htrace1, Htrace, <- !app_assoc.
Qed.

Lemma named_once (files : list OutputFile) (file file' : OutputFile) :
  NoDup (fileNameOf <$> files) ->
  file ∈ files -> file' ∈ files -> fileNameOf file = fileNameOf file' -> file = file'.
Proof.
  induction files as [|file0 rest IH]; [by intros _ ?%elem_of_nil|].
  cbn [fmap list_fmap]. intros [Hnotin Hrest]%NoDup_cons Hin Hin' Hname.
  apply elem_of_cons in Hin as [->|Hin]; apply elem_of_cons in Hin' as [->|Hin'].
  - reflexivity.
  - destruct Hnotin. rewrite Hname. by apply list_elem_of_fmap_2.
  - destruct Hnotin. rewrite <- Hname. by apply list_elem_of_fmap_2.
  - by apply IH.
Qed.

End MappedChunks.

(** C9 (as amended): in a write of the files of a bundle, which are named
    apart, take any chunk whose source map goes to a file of its own.
    The write of its source map is issued first and the write of its code
    right after it, among the writes of the other files and before the
    file system reports on any write; the file system may complete the
    two in either order; every [onwrite] hook of the chunk is called only
    after the file system has reported both the source map and the code
    written, and the write call fulfils only after both. *)
Theorem source_map_written_before_chunk_completes `{C : Collaborators} (b : Build)
    (files : list OutputFile) (chunk : OutputChunk) (sourceMap : SourceMap)
    (outputOptions : JsValue) (schedule : list (nat * option JsError)) :
  NoDup (fileNameOf <$> files) ->
  OutChunk chunk ∈ files ->
  map chunk = Some sourceMap ->
  truthy (get outputOptions "sourcemap") = true ->
  strictEqStr (get outputOptions "sourcemap") "inline" = false ->
  let codeFile := codePath outputOptions chunk in
  let mapFile := codeFile +:+ ".map" in
  let run := writeFiles outputOptions files schedule b in
  exists before after rest,
    trace (snd run) =
      trace b ++
      (before ++ [EvWriteFile mapFile (map_toString sourceMap);
                  EvWriteFile codeFile (codeWithUrl chunk)] ++ after) ++
      rest /\
    Forall isIssue before /\ Forall isIssue after /\ Forall isProgress rest /\
    (forall plugin,
       onlyAfter (EvWritten mapFile) (EvOnwrite plugin (fileName chunk)) rest /\
       onlyAfter (EvWritten codeFile) (EvOnwrite plugin (fileName chunk)) rest) /\
    (fst run = Fulfilled tt -> EvWritten mapFile ∈ rest /\ EvWritten codeFile ∈ rest).
Proof.
  intros Hnodup Hin Hmap Hsm Hinline codeFile mapFile run. subst run codeFile mapFile.
  assert (Hmapped : mapped outputOptions (OutChunk chunk) = true).
  { cbn [mapped]. by rewrite Hmap, Hsm, Hinline. }
  destruct (list_elem_of_split _ _ Hin) as (l1 & l2 & Hsplit).
  pose proof (issue_mapped_issues chunk sourceMap outputOptions l1 l2 b Hmap Hsm Hinline)
    as (before & after & Hissued & Hbefore & Hafter).
  rewrite <- Hsplit in Hissued.
  pose proof (issue_tasks outputOptions files [] (b, []) (Forall_nil_2 _)) as [Htasks Hfiles].
  pose proof (issue_mapped outputOptions files [] (b, []) (Forall_nil_2 _)) as Hmaps.
  cbv zeta in Hmaps. unfold writeFiles.
  destruct (foldl _ ([], (b, [])) files) as [started [b1 paths]].
  cbn [fst snd fmap list_fmap app] in Hissued, Htasks, Hfiles, Hmaps.
  match goal with |- context [foldl ?f ?st0 schedule] =>
    pose proof (schedule_progress outputOptions schedule st0) as (rest' & Htrace' & Hrest);
    assert (Hend : orderedWrites outputOptions files (trace b1) st0);
    [|apply (foldl_invariant _ f schedule) in Hend;
      [|intros st [w r]; apply complete_orderedWrites]]
  end.
  { split; [exact Htasks|]. split.
    - eapply Forall_impl; [exact Hmaps|]. by intros task [? _].
    - split; [exact Hfiles|]. exists []. split; [by rewrite app_nil_r|].
      split; [discriminate | apply hooksInvariant_nil]. }
  destruct (foldl _ _ schedule) as [b2 ws]. cbn [fst snd] in *.
  destruct Hend as (Htasks2 & Hmaps2 & Hfiles2 & rest & Htrace & Hwritten & Hhooks).
  cbn [fst snd] in *.
  assert (rest' = rest) as -> by (apply (app_inv_head (trace b1)); congruence).
  exists before, after, rest.
  split; [by rewrite Htrace, Hissued, <- (app_assoc (trace b))|].
  do 3 (split; [assumption|]). split.
  - assert (Hboth : forall plugin pre post,
              rest = pre ++ EvOnwrite plugin (fileName chunk) :: post ->
              EvWritten (codePath outputOptions chunk +:+ ".map") ∈ pre /\
              EvWritten (codePath outputOptions chunk) ∈ pre).
    { intros plugin pre post Hrestsplit.
      specialize (Hhooks (length pre) (EvOnwrite plugin (fileName chunk))).
      rewrite Hrestsplit, list_lookup_middle, take_app_length in Hhooks by reflexivity.
      destruct (Hhooks eq_refl plugin (fileName chunk) eq_refl)
        as (file & Hfile & Hname & Hcode & Hsource).
      assert (file = OutChunk chunk) as ->
        by (by apply (named_once files)).
      split; [by apply Hsource | exact Hcode]. }
    intros plugin. split; intros pre post Hrestsplit; by apply (Hboth plugin pre post).
  - intros Hfulfilled.
    destruct (rejection ws); [discriminate|].
    destruct (forallb isFinished (tasks ws)) eqn:Hfinished; [|discriminate].
    rewrite <- Hfiles2 in Hin. apply list_elem_of_fmap in Hin as (task & Hfile & Htask).
    rewrite Forall_forall in Htasks2, Hmaps2.
    destruct (Htasks2 task Htask) as [Hpath Hstage].
    destruct (Hmaps2 task Htask) as [Hsource Hseen].
    apply forallb_forall with (x := task) in Hfinished; [|by apply list_elem_of_In].
    unfold isFinished in Hfinished. destruct (task_stage task); try discriminate.
    rewrite <- Hfile in Hpath, Hsource. split.
    + destruct (Hsource Hmapped) as (w & Hw & Hwpath).
      apply (Hwritten w); [by apply Hseen | exact Hwpath].
    + by apply (Hwritten (task_code task)).
Qed.

Lemma source_map_witness :
  exists before after rest,
    trace (snd (@writeFiles Inputs.env Inputs.esDirSourcemap
                  [OutChunk Cases.chunkA; OutChunk Cases.chunkB]
                  Cases.interleaved Inputs.observed)) =
      trace Inputs.observed ++
      (before ++ [EvWriteFile "dist/b.js.map" "{}";
                  EvWriteFile "dist/b.js"
                    ("export default 2;//# sourceMappingURL=b.js.map" +:+ newline)] ++
       after) ++
      rest /\
    Forall isIssue before /\ Forall isIssue after /\ Forall isProgress rest /\
    (forall plugin,
       onlyAfter (EvWritten "dist/b.js.map") (EvOnwrite plugin "b.js") rest /\
       onlyAfter (EvWritten "dist/b.js") (EvOnwrite plugin "b.js") rest) /\
    (fst (@writeFiles Inputs.env Inputs.esDirSourcemap
            [OutChunk Cases.chunkA; OutChunk Cases.chunkB]
            Cases.interleaved Inputs.observed) = Fulfilled tt ->
     EvWritten "dist/b.js.map" ∈ rest /\ EvWritten "dist/b.js" ∈ rest).
Proof.
  apply (@source_map_written_before_chunk_completes Inputs.env Inputs.observed
           [OutChunk Cases.chunkA; OutChunk Cases.chunkB] Cases.chunkB
           {| map_toString := "{}"; map_toUrl := "data:," |}
           Inputs.esDirSourcemap Cases.interleaved); try reflexivity.
  - apply NoDup_cons. split; [|apply NoDup_singleton].
    intros Hin. apply list_elem_of_singleton in Hin. discriminate.
  - apply list_elem_of_further, list_elem_of_here.
Defined.

(** In the run of the witness the hook of [a.js] is called between the
    reports on the two writes of [b.js], and each hook after the reports
    on both writes of its own chunk. *)
Example source_map_interleaved :
  @writeFiles Inputs.env Inputs.esDirSourcemap
     [OutChunk Cases.chunkA; OutChunk Cases.chunkB] Cases.interleaved Inputs.observed
  = (Fulfilled tt,
     setTrace (trace Inputs.observed ++
               [EvWriteFile "dist/a.js.map" "{}";
                EvWriteFile "dist/a.js"
                  ("export default 1;//# sourceMappingURL=a.js.map" +:+ newline);
                EvWriteFile "dist/b.js.map" "{}";
                EvWriteFile "dist/b.js"
                  ("export default 2;//# sourceMappingURL=b.js.map" +:+ newline);
                EvWritten "dist/b.js"; EvWritten "dist/a.js"; EvWritten "dist/a.js.map";
                EvOnwrite "observer" "a.js"; EvWritten "dist/b.js.map";
                EvOnwrite "observer" "b.js"])
              Inputs.observed).
Proof. reflexivity. Qed.
